(** * fastmf / cymf: matrix factorisation trained by parallel SGD

    A shallow embedding of the training code of the repository:
    - [BPR.fit], [fit_bpr], [BprAdamUpdater], [BprAdaGradUpdater] and
      [evaluate] with [recall], [ndcg] and [ap] of the BPR module;
    - [GloVe.fit], [fit_glove] and [read_text] of [fastmf/glove.pyx];
    - [GloVe.fit], [_fit_glove] and [read_text] of [cymf/glove.pyx].

    Modelling conventions.
    - A C [double] is a real number: the development reasons about the
      algorithms in exact arithmetic.  Rounding, infinities and NaN are not
      represented.  [exp], [log] and [sqrt] of [math.h] are [exp], [ln] and
      [sqrt] of the real-number library.
    - A one-dimensional array is a list, a two-dimensional array a list of
      rows.  All functions of the source that index arrays are compiled with
      [boundscheck(False)]: an access outside the array is undefined
      behaviour.  The outcome [Fault] says that the run reaches such an
      access.  The compiled code goes on from there in a way the source does
      not determine; the embedding stops at the access, and the shared
      object it pairs with [Fault] is the object at that moment.
    - Python exceptions are the outcome [Raise].
    - A [prange] loop is run in index order, the schedule of a single worker;
      the statements proved below about training concern outcomes that do not
      depend on the order in which the samples of one epoch are processed.
    - The random generator is an oracle handed to the functions that draw
      from it.  So is [argsort]: numpy's default sort is not stable, the
      order it gives to positions of equal value is not specified.
    - Indices, sizes and [num_components] are natural numbers: the indices
      the training functions receive are positions of nonzero entries and
      sampled candidates.  [num_iterations] and [num_threads] are integers,
      since the code decides on their sign.
    - [read_text] receives the content of the file.  Its strings are
      sequences of characters, its dictionaries finite maps; the C++ map of
      its second part is a finite map whose order of iteration is not
      specified.  The subtraction of the window size from a position is
      that of a C [int].
    - Calls into numpy, scipy and scikit-learn whose result the proofs depend
      on are given the behaviour their documentation states; the others are
      parameters of the sections that use them. *)

From Stdlib Require Import Reals Lra Lia ZArith Sorted Permutation.
From stdpp Require Import base list gmap strings sorting.

(** ** Outcomes of a call *)

Module Py.

Inductive exn : Set :=
| ValueError
| TypeError
| AttributeError
| IndexError
| ZeroDivisionError.

Inductive outcome (A : Type) : Type :=
| Ok (a : A)
| Raise (e : exn)
| Fault.

Arguments Ok {A} a.
Arguments Raise {A} e.
Arguments Fault {A}.

Definition bind {A B : Type} (m : outcome A) (f : A -> outcome B) : outcome B :=
  match m with
  | Ok a => f a
  | Raise e => Raise e
  | Fault => Fault
  end.

Definition is_ok {A : Type} (m : outcome A) : Prop :=
  match m with Ok _ => True | _ => False end.

(** The objects a caller can pass as the matrix [X]: [None], a dense numpy
    array of some shape, a [scipy.sparse] matrix of some class and shape,
    or an object with none of the attributes the code uses (a list, a
    number, a string). *)
Inductive sparse_class : Set :=
| lil_matrix
| csr_matrix
| csc_matrix
| coo_matrix
| bsr_matrix
| dia_matrix
| dok_matrix.

Inductive object : Set :=
| None_
| ndarray (shape : list nat)
| spmatrix (cls : sparse_class) (nrows ncols : nat)
| other.

(** [X is None] *)
Definition is_None (X : object) : bool :=
  match X with None_ => true | _ => false end.

(** [isinstance(X, (sparse.lil_matrix, sparse.csr_matrix, sparse.csc_matrix))] *)
Definition isinstance_lil_csr_csc (X : object) : bool :=
  match X with
  | spmatrix lil_matrix _ _ | spmatrix csr_matrix _ _ | spmatrix csc_matrix _ _ => true
  | _ => false
  end.

(** [X.shape[d]] *)
Definition shape_at (X : object) (d : nat) : outcome nat :=
  match X with
  | None_ | other => Raise AttributeError
  | ndarray shape =>
      match shape !! d with
      | Some n => Ok n
      | None => Raise IndexError
      end
  | spmatrix _ nrows ncols =>
      match d with
      | 0 => Ok nrows
      | 1 => Ok ncols
      | _ => Raise IndexError
      end
  end.

(** [for k in ks: s = body(k, s)] *)
Fixpoint for_loop {S : Type} (ks : list nat) (body : nat -> S -> outcome S) (s : S)
  : outcome S :=
  match ks with
  | [] => Ok s
  | k :: ks' => bind (body k s) (for_loop ks' body)
  end.

(** [for k in range(n)] *)
Definition for_range {S : Type} (n : nat) (body : nat -> S -> outcome S) (s : S)
  : outcome S :=
  for_loop (seq 0 n) body s.

(** A computation that mutates a shared object of type [S]: it returns the
    object as it is when the computation ends, or, for [Fault], when the
    access outside an array is reached. *)
Definition prog (S A : Type) : Type := S -> S * outcome A.

Definition pret {S A : Type} (a : A) : prog S A := fun s => (s, Ok a).

Definition lift {S A : Type} (m : outcome A) : prog S A := fun s => (s, m).

Definition pbind {S A B : Type} (m : prog S A) (f : A -> prog S B) : prog S B :=
  fun s =>
    match m s with
    | (s', Ok a) => f a s'
    | (s', Raise e) => (s', Raise e)
    | (s', Fault) => (s', Fault)
    end.

Fixpoint pfor_loop {S A : Type} (ks : list nat) (body : nat -> A -> prog S A) (a : A)
  : prog S A :=
  match ks with
  | [] => pret a
  | k :: ks' => pbind (body k a) (pfor_loop ks' body)
  end.

Definition pfor_range {S A : Type} (n : nat) (body : nat -> A -> prog S A) (a : A)
  : prog S A :=
  pfor_loop (seq 0 n) body a.

(** An assignment to an attribute of the shared object. *)
Definition modify {S : Type} (f : S -> S) : prog S unit := fun s => (f s, Ok tt).

(** Division of a C [double] by a C [int] in a function compiled without
    [cdivision(True)]: Cython tests the divisor and raises
    [ZeroDivisionError] when it is zero. *)
Definition checked_div (a : R) (n : nat) : outcome R :=
  if decide (n = 0) then Raise ZeroDivisionError else Ok (a / INR n)%R.

End Py.

Export Py.

Notation "x <- m ;; k" := (bind m (fun x => k))
  (at level 90, m at level 89, right associativity, only parsing).
Notation "x <~ m ;; k" := (pbind m (fun x => k))
  (at level 90, m at level 89, right associativity, only parsing).

(** ** Arrays *)

Module Np.

Local Open Scope R_scope.

Abbreviation vector := (list R).
Abbreviation matrix := (list (list R)).

(** [a.shape[0]] and [a.shape[1]] of a two-dimensional array.  An array
    without rows does not record its number of columns here; no function
    below reads the column count of such an array. *)
Definition shape0 (a : matrix) : nat := length a.
Definition shape1 (a : matrix) : nat :=
  match a with
  | [] => 0%nat
  | r :: _ => length r
  end.

(** An array of shape [(n, k)]. *)
Definition rect (n k : nat) (a : matrix) : Prop :=
  length a = n /\ Forall (fun r => length r = k) a.

(** [np.zeros(n)] and [np.zeros((n, k))] *)
Definition zeros (n : nat) : vector := replicate n 0.
Definition zeros2 (n k : nat) : matrix := replicate n (replicate k 0).

(** Unchecked element access, [a[i]] and [a[i] = x]. *)
Definition get1 {A : Type} (a : list A) (i : nat) : outcome A :=
  match a !! i with
  | Some x => Ok x
  | None => Fault
  end.

Definition set1 {A : Type} (a : list A) (i : nat) (x : A) : outcome (list A) :=
  match a !! i with
  | Some _ => Ok (<[i := x]> a)
  | None => Fault
  end.

(** [a[u, k]] and [a[u, k] = x] *)
Definition get2 {A : Type} (a : list (list A)) (u k : nat) : outcome A :=
  r <- get1 a u ;; get1 r k.

Definition set2 {A : Type} (a : list (list A)) (u k : nat) (x : A)
  : outcome (list (list A)) :=
  r <- get1 a u ;; r' <- set1 r k x ;; set1 a u r'.

(** The value stored at [a[u, k]], for statements; [0] outside the array. *)
Definition cell (a : matrix) (u k : nat) : R :=
  default 0 (a !! u ≫= (.!! k)).

Definition row (a : matrix) (u : nat) : vector := default [] (a !! u).

(** Sums and products of vectors, as the statements about the loss use
    them: [dot a b], [a - b], the squared Euclidean norm. *)
Definition sum (a : vector) : R := foldr Rplus 0 a.
Definition dot (a b : vector) : R := sum (zip_with Rmult a b).
Definition vsub (a b : vector) : vector := zip_with Rminus a b.
Definition norm2 (a : vector) : R := dot a a.

(** [v.nonzero()[0]] of a one-dimensional array: the positions of the
    entries different from zero, in increasing order. *)
Fixpoint nonzero_from (k : nat) (v : vector) : list nat :=
  match v with
  | [] => []
  | x :: v' =>
      if Req_dec_T x 0 then nonzero_from (S k) v' else k :: nonzero_from (S k) v'
  end.

Definition nonzero (v : vector) : list nat := nonzero_from 0 v.

(** [v - c] for a scalar [c] *)
Definition sub_scalar (v : vector) (c : R) : vector := map (fun x => x - c) v.

(** [X[u]] on a numpy array, a Python-level (checked) indexing. *)
Definition index_row (X : matrix) (u : nat) : outcome vector :=
  match X !! u with
  | Some r => Ok r
  | None => Raise IndexError
  end.

(** The array of shape [(n, k)] whose entry [(u, j)] is [f u j]. *)
Definition tabulate2 (n k : nat) (f : nat -> nat -> R) : matrix :=
  map (fun u => map (f u) (seq 0 k)) (seq 0 n).

Definition tabulate1 (n : nat) (f : nat -> R) : vector := map f (seq 0 n).

(** [np.zeros((n, size)).astype(np.int32)]; a negative dimension is a
    [ValueError]. *)
Definition int_zeros2 (n : nat) (size : Z) : outcome (list (list nat)) :=
  if (size <? 0)%Z then Raise ValueError
  else Ok (replicate n (replicate (Z.to_nat size) 0%nat)).

(** [v.mean()] *)
Definition mean (v : vector) : R := sum v / INR (length v).

(** [np.dot(W, H.T)]: the inner dimensions have to agree. *)
Definition dot_transposed (W H : matrix) : outcome matrix :=
  if decide (Forall (fun w => Forall (fun h => length w = length h) H) W)
  then Ok (map (fun w => map (fun h => dot w h) H) W)
  else Raise ValueError.

(** The value at position [i] of [v], for statements; [0] outside. *)
Definition value_at (v : vector) (i : nat) : R := default 0 (v !! i).

(** [v.argsort()] returns the positions of [v] in increasing order of
    their values.  The default kind of sort is not stable, so the order of
    positions of equal value depends on the implementation: the functions
    that call [argsort] take it as a parameter, and [is_argsort v p] says
    that [p] is a result the documentation allows for [v]. *)
Definition is_argsort (v : vector) (p : list nat) : Prop :=
  p ≡ₚ seq 0 (length v) /\
  StronglySorted (fun a b => value_at v a <= value_at v b) p.

(** [A + B] of two arrays whose rows have the same length, with numpy's
    broadcasting of the first dimension: the numbers of rows have to be
    equal, or one of them has to be 1. *)
Definition broadcast_rows (A B : matrix) : outcome (list (vector * vector)) :=
  if decide (length A = length B) then Ok (zip A B)
  else if decide (length A = 1%nat) then Ok (map (fun b => (row A 0, b)) B)
  else if decide (length B = 1%nat) then Ok (map (fun a => (a, row B 0)) A)
  else Raise ValueError.

Definition add (A B : matrix) : outcome matrix :=
  p <- broadcast_rows A B ;;
  Ok (map (fun ab => zip_with Rplus ab.1 ab.2) p).

(** [A / c] for a scalar [c] *)
Definition div_scalar (A : matrix) (c : R) : matrix := map (map (fun x => x / c)) A.

End Np.

Export Np.

(** ** The BPR module: [BprAdamUpdater], [fit_bpr], [evaluate], [BPR] *)

Module Bpr.

Local Open Scope R_scope.

Definition sigmoid (x : R) : R := 1 / (1 + exp (- x)).

Definition square (x : R) : R := x * x.

Module BprAdamUpdater.

Record t : Type := mk {
  W : matrix;
  H : matrix;
  M_W : matrix;
  V_W : matrix;
  M_H : matrix;
  V_H : matrix;
  alpha : R;
  beta1 : R;
  beta2 : R;
  epsilon : R;
  weight_decay : R
}.

(** [__init__(self, W, H, learning_rate, weight_decay)] *)
Definition init (W H : matrix) (learning_rate weight_decay : R) : t :=
  {| W := W;
     H := H;
     M_W := zeros2 (shape0 W) (shape1 W);
     V_W := zeros2 (shape0 W) (shape1 W);
     M_H := zeros2 (shape0 H) (shape1 H);
     V_H := zeros2 (shape0 H) (shape1 H);
     alpha := learning_rate;
     beta1 := 0.9;
     beta2 := 0.999;
     epsilon := 1e-8;
     weight_decay := weight_decay |}.

(** Body of the first loop of [loss]: accumulates [x_uij] and [l2_norm]. *)
Definition forward_step (self : t) (u i j k : nat) (acc : R * R) : outcome (R * R) :=
  w <- get2 (W self) u k ;;
  hi <- get2 (H self) i k ;;
  hj <- get2 (H self) j k ;;
  Ok (acc.1 + w * (hi - hj), acc.2 + (square w + square hi + square hj)).

(** Body of the second loop of [loss]: the three gradients of coordinate
    [k], then the nine assignments in the order of the source. *)
Definition update_step (x_uij : R) (u i j k : nat) (self : t) : outcome t :=
  w <- get2 (W self) u k ;;
  hi <- get2 (H self) i k ;;
  hj <- get2 (H self) j k ;;
  let grad_wuk := - (x_uij * (hi - hj) - weight_decay self * w) in
  let grad_hik := - (x_uij * w - weight_decay self * hi) in
  let grad_hjk := - (x_uij * (- w) - weight_decay self * hj) in
  m <- get2 (M_W self) u k ;;
  M_W1 <- set2 (M_W self) u k (beta1 self * m + (1 - beta1 self) * grad_wuk) ;;
  m <- get2 (M_H self) i k ;;
  M_H1 <- set2 (M_H self) i k (beta1 self * m + (1 - beta1 self) * grad_hik) ;;
  m <- get2 M_H1 j k ;;
  M_H2 <- set2 M_H1 j k (beta1 self * m + (1 - beta1 self) * grad_hjk) ;;
  v <- get2 (V_W self) u k ;;
  V_W1 <- set2 (V_W self) u k (beta2 self * v + (1 - beta2 self) * square grad_wuk) ;;
  v <- get2 (V_H self) i k ;;
  V_H1 <- set2 (V_H self) i k (beta2 self * v + (1 - beta2 self) * square grad_hik) ;;
  v <- get2 V_H1 j k ;;
  V_H2 <- set2 V_H1 j k (beta2 self * v + (1 - beta2 self) * square grad_hjk) ;;
  m <- get2 M_W1 u k ;;
  v <- get2 V_W1 u k ;;
  W1 <- set2 (W self) u k
          (w - alpha self * (m / (1 - beta1 self))
               / (sqrt (v / (1 - beta2 self)) + epsilon self)) ;;
  m <- get2 M_H2 i k ;;
  v <- get2 V_H2 i k ;;
  H1 <- set2 (H self) i k
          (hi - alpha self * (m / (1 - beta1 self))
                / (sqrt (v / (1 - beta2 self)) + epsilon self)) ;;
  m <- get2 M_H2 j k ;;
  v <- get2 V_H2 j k ;;
  h <- get2 H1 j k ;;
  H2 <- set2 H1 j k
          (h - alpha self * (m / (1 - beta1 self))
               / (sqrt (v / (1 - beta2 self)) + epsilon self)) ;;
  Ok {| W := W1; H := H2; M_W := M_W1; V_W := V_W1; M_H := M_H2; V_H := V_H2;
        alpha := alpha self; beta1 := beta1 self; beta2 := beta2 self;
        epsilon := epsilon self; weight_decay := weight_decay self |}.

(** [loss(self, u, i, j, update)]: returns the updater after the call
    and the loss of the sample. *)
Definition loss (self : t) (u i j : nat) (update : bool) : outcome (t * R) :=
  let K := shape1 (W self) in
  acc <- for_range K (forward_step self u i j) (0, 0) ;;
  let x_uij := acc.1 in
  let l2_norm := acc.2 in
  let loss := - ln (sigmoid x_uij) + weight_decay self * l2_norm in
  if negb update then Ok (self, loss)
  else
    let x_uij := 1 / (1 + exp x_uij) in
    self' <- for_range K (update_step x_uij u i j) self ;;
    Ok (self', loss).

(** The call [updater.loss(u, i, j, update)] on the shared updater. *)
Definition call_loss (u i j : nat) (update : bool) : prog t R :=
  fun self =>
    match loss self u i j update with
    | Ok (self', l) => (self', Ok l)
    | Raise e => (self, Raise e)
    | Fault => (self, Fault)
    end.

End BprAdamUpdater.

(** [BprAdaGradUpdater] *)

Module BprAdaGradUpdater.

Local Open Scope R_scope.

Record t : Type := mk {
  W : matrix;
  H : matrix;
  grad_accum_W : matrix;
  grad_accum_H : matrix;
  weight_decay : R;
  learning_rate : R
}.

(** [np.ones(shape=(n, k))] *)
Definition ones2 (n k : nat) : matrix := replicate n (replicate k 1).

(** [__init__(self, W, H, learning_rate, weight_decay)] *)
Definition init (W H : matrix) (learning_rate weight_decay : R) : t :=
  {| W := W;
     H := H;
     grad_accum_W := ones2 (shape0 W) (shape1 W);
     grad_accum_H := ones2 (shape0 H) (shape1 H);
     weight_decay := weight_decay;
     learning_rate := learning_rate |}.

(** Body of the first loop of [loss]: accumulates [x_uij] and [l2_norm]. *)
Definition forward_step (self : t) (u i j k : nat) (acc : R * R) : outcome (R * R) :=
  w <- get2 (W self) u k ;;
  hi <- get2 (H self) i k ;;
  hj <- get2 (H self) j k ;;
  Ok (acc.1 + w * (hi - hj),
      acc.2 + (square w + square hi + square hj)).

(** Body of the second loop of [loss]: the three gradients of coordinate
    [k], then the six assignments in the order of the source. *)
Definition update_step (x_uij : R) (u i j k : nat) (self : t) : outcome t :=
  w <- get2 (W self) u k ;;
  hi <- get2 (H self) i k ;;
  hj <- get2 (H self) j k ;;
  let grad_wuk := - (x_uij * (hi - hj) - weight_decay self * w) in
  let grad_hik := - (x_uij * w - weight_decay self * hi) in
  let grad_hjk := - (x_uij * (- w) - weight_decay self * hj) in
  a <- get2 (grad_accum_W self) u k ;;
  A_W1 <- set2 (grad_accum_W self) u k (a + square grad_wuk) ;;
  a <- get2 (grad_accum_H self) i k ;;
  A_H1 <- set2 (grad_accum_H self) i k (a + square grad_hik) ;;
  a <- get2 A_H1 j k ;;
  A_H2 <- set2 A_H1 j k (a + square grad_hjk) ;;
  a <- get2 A_W1 u k ;;
  W1 <- set2 (W self) u k (w - learning_rate self * grad_wuk / sqrt a) ;;
  a <- get2 A_H2 i k ;;
  H1 <- set2 (H self) i k (hi - learning_rate self * grad_hik / sqrt a) ;;
  a <- get2 A_H2 j k ;;
  h <- get2 H1 j k ;;
  H2 <- set2 H1 j k (h - learning_rate self * grad_hjk / sqrt a) ;;
  Ok {| W := W1; H := H2; grad_accum_W := A_W1; grad_accum_H := A_H2;
        weight_decay := weight_decay self; learning_rate := learning_rate self |}.

(** [loss(self, u, i, j, update)]: returns the updater after the call
    and the loss of the sample. *)
Definition loss (self : t) (u i j : nat) (update : bool) : outcome (t * R) :=
  let K := shape1 (W self) in
  acc <- for_range K (forward_step self u i j) (0, 0) ;;
  let x_uij := acc.1 in
  let l2_norm := acc.2 in
  let loss := - ln (sigmoid x_uij) + weight_decay self * l2_norm in
  if negb update then Ok (self, loss)
  else
    let x_uij := 1 / (1 + exp x_uij) in
    self' <- for_range K (update_step x_uij u i j) self ;;
    Ok (self', loss).

End BprAdaGradUpdater.

Abbreviation metrics := (gmap string R).

(** ** Evaluation *)

(** [log2] of [math.h] *)
Definition log2 (x : R) : R := ln x / ln 2.

Section Evaluate.

(** [v.argsort()] of numpy for a one-dimensional [v]; see [is_argsort]. *)
Variable argsort : vector -> list nat.

(** [scores.argsort(axis=1)[:, ::-1][:, :10]] for one row of scores *)
Definition top10 (scores_row : vector) : list nat := take 10 (reverse (argsort scores_row)).

(** [recall(argsorted_scores, X, k)] *)
Definition recall (argsorted_scores : list (list nat)) (X : matrix) (k : nat)
  : outcome vector :=
  let N := shape0 X in
  let _sum := map sum X in
  for_range N (fun i ret =>
    s <- get1 _sum i ;;
    if Req_dec_T s 0 then set1 ret i 0
    else
      ret <- for_range k (fun j ret =>
               a <- get2 argsorted_scores i j ;;
               x <- get2 X i a ;;
               r <- get1 ret i ;;
               set1 ret i (r + x)) ret ;;
      r <- get1 ret i ;;
      set1 ret i (r / s)) (zeros N).

(** [ndcg(argsorted_scores, X, k)]; [<int>min(_sum[i], k)] truncates. *)
Definition ndcg (argsorted_scores : list (list nat)) (X : matrix) (k : nat)
  : outcome vector :=
  let N := shape0 X in
  let _sum := map sum X in
  r <- for_range N (fun i (st : vector * vector) =>
    let tmp := st.1 in
    let ret := st.2 in
    s <- get1 _sum i ;;
    if Req_dec_T s 0 then ret <- set1 ret i 0 ;; Ok (tmp, ret)
    else
      tmp <- set1 tmp i 1 ;;
      tmp <- for_loop (seq 1 (Z.to_nat (Int_part (Rmin s (INR k))) - 1)) (fun j tmp =>
               t <- get1 tmp i ;;
               set1 tmp i (t + 1 / log2 (INR j + 1))) tmp ;;
      a <- get2 argsorted_scores i 0 ;;
      x <- get2 X i a ;;
      ret <- set1 ret i x ;;
      ret <- for_loop (seq 1 (k - 1)) (fun j ret =>
               a <- get2 argsorted_scores i j ;;
               x <- get2 X i a ;;
               r <- get1 ret i ;;
               set1 ret i (r + x / log2 (INR j + 1))) ret ;;
      r <- get1 ret i ;;
      t <- get1 tmp i ;;
      ret <- set1 ret i (r / t) ;;
      Ok (tmp, ret)) (zeros N, zeros N) ;;
  Ok r.2.

(** [ap(argsorted_scores, X, k)]; the array [rating] only holds the entry
    read last and is a local value here. *)
Definition ap (argsorted_scores : list (list nat)) (X : matrix) (k : nat)
  : outcome vector :=
  let N := shape0 X in
  r <- for_range N (fun i (st : vector * vector) =>
    let counter := st.1 in
    let ret := st.2 in
    counter <- set1 counter i 0 ;;
    st <- for_range k (fun j (st : vector * vector) =>
            let counter := st.1 in
            let ret := st.2 in
            a <- get2 argsorted_scores i j ;;
            rating <- get2 X i a ;;
            if Req_dec_T rating 1 then
              c <- get1 counter i ;;
              counter <- set1 counter i (c + 1) ;;
              r <- get1 ret i ;;
              ret <- set1 ret i (r + (c + 1) / (INR j + 1)) ;;
              Ok (counter, ret)
            else Ok (counter, ret)) (counter, ret) ;;
    let counter := st.1 in
    let ret := st.2 in
    c <- get1 counter i ;;
    if Req_dec_T c 0 then ret <- set1 ret i 0 ;; Ok (counter, ret)
    else
      r <- get1 ret i ;;
      ret <- set1 ret i (r / c) ;;
      Ok (counter, ret)) (zeros N, zeros N) ;;
  Ok r.2.

(** [evaluate(W, H, X, stores)] *)
Definition evaluate (W H : matrix) (X : matrix) (stores : metrics) : outcome metrics :=
  scores <- dot_transposed W H ;;
  let argsorted_scores := map top10 scores in
  r <- recall argsorted_scores X 10 ;;
  let stores := <["Reacall@10" := mean r]> stores in
  n <- ndcg argsorted_scores X 10 ;;
  let stores := <["nDCG@10" := mean n]> stores in
  a <- ap argsorted_scores X 10 ;;
  let stores := <["MAP@10" := mean a]> stores in
  Ok stores.

End Evaluate.

(** ** Training *)

Section FitBpr.

(** [v.argsort()] of numpy, which [evaluate] calls. *)
Variable argsort : vector -> list nat.

(** The random generator: the number drawn for position [t] of the
    [call]-th array returned by [np.random.choice]. *)
Variable rand_index : nat -> nat -> nat.

(** [np.random.choice(a, size)]: [size] positions of [a], each chosen
    uniformly and independently; an empty [a] is a [ValueError] unless
    no sample is taken. *)
Definition random_choice (call : nat) (a : list nat) (size : Z) : outcome (list nat) :=
  if (size <? 0)%Z then Raise ValueError
  else if decide (length a = 0%nat /\ size <> 0%Z) then Raise ValueError
  else Ok (map (fun t => default 0%nat (a !! (rand_index call t `mod` length a)%nat))
               (seq 0 (Z.to_nat size))).

(** [(X[u] - 1).nonzero()[0]] *)
Definition negative_candidates (Xu : vector) : list nat := nonzero (sub_scalar Xu 1).

(** The loop that fills [negatives] (and [negatives_valid]). *)
Definition sample_negatives (call0 : nat) (users : list nat) (X : matrix)
           (iterations : Z) (negatives : list (list nat)) : outcome (list (list nat)) :=
  for_range (length users) (fun l negatives =>
    u <- get1 users l ;;
    Xu <- index_row X u ;;
    negative_samples <- random_choice (call0 + l) (negative_candidates Xu) iterations ;;
    set1 negatives l negative_samples) negatives.

(** One iteration of a [prange] loop of [fit_bpr]:
    [loss[l] = updater.loss(users[l], positives[l], negatives[l, iteration], update)] *)
Definition sample_loss (users positives : list nat) (negatives : list (list nat))
           (iteration : nat) (update : bool) (l : nat) (loss : vector)
  : prog BprAdamUpdater.t vector :=
  u <~ lift (get1 users l) ;;
  i <~ lift (get1 positives l) ;;
  j <~ lift (get2 negatives l iteration) ;;
  r <~ BprAdamUpdater.call_loss u i j update ;;
  lift (set1 loss l r).

(** [for l in range(n): metrics[key] += loss[l]] *)
Definition accumulate (key : string) (n : nat) (loss : vector) (m : metrics)
  : outcome metrics :=
  for_range n (fun l m =>
    x <- get1 loss l ;;
    Ok (<[key := default 0 (m !! key) + x]> m)) m.

(** [metrics[key] /= n] *)
Definition divide (key : string) (n : nat) (m : metrics) : outcome metrics :=
  q <- checked_div (default 0 (m !! key)) n ;;
  Ok (<[key := q]> m).

(** The validation pass of one epoch. *)
Definition validation_pass (users_valid positives_valid : list nat)
           (negatives_valid : list (list nat)) (iteration : nat)
           (s : vector * metrics) : prog BprAdamUpdater.t (vector * metrics) :=
  let m := <["val_loss" := 0]> s.2 in
  loss <~ pfor_range (length users_valid)
            (sample_loss users_valid positives_valid negatives_valid iteration false) s.1 ;;
  m <~ lift (accumulate "val_loss" (length users_valid) loss m) ;;
  m <~ lift (divide "val_loss" (length users_valid) m) ;;
  pret (loss, m).

(** The body of the loop over [iteration].  The description string built
    for the progress bar has no effect on the result and is left out. *)
Definition epoch (users positives : list nat) (negatives : list (list nat))
           (valid : option (list nat * list nat * list (list nat)))
           (X_test : option matrix) (iteration : nat)
           (s : vector * metrics * list metrics)
  : prog BprAdamUpdater.t (vector * metrics * list metrics) :=
  let N := length users in
  let history := s.2 in
  let m := <["loss" := 0]> s.1.2 in
  loss <~ pfor_range N (sample_loss users positives negatives iteration true) s.1.1 ;;
  m <~ lift (accumulate "loss" N loss m) ;;
  m <~ lift (divide "loss" N m) ;;
  lm <~ match valid with
        | Some (users_valid, positives_valid, negatives_valid) =>
            validation_pass users_valid positives_valid negatives_valid iteration (loss, m)
        | None => pret (loss, m)
        end ;;
  m <~ match X_test with
       | Some X_test =>
           fun updater =>
             (updater,
              evaluate argsort (BprAdamUpdater.W updater) (BprAdamUpdater.H updater)
                X_test lm.2)
       | None => pret lm.2
       end ;;
  pret (lm.1, m, history ++ [m]).

(** [fit_bpr].  [X_valid], [users_valid] and [positives_valid] are [None]
    together, as [BPR.fit] passes them.  The result pairs the updater,
    which holds the arrays [W] and [H] the caller shares, with the
    history or the failure. *)
Definition fit_bpr (users positives : list nat) (X : matrix)
           (valid : option (list nat * list nat * matrix))
           (X_test : option matrix) (W H : matrix)
           (num_iterations : Z) (learning_rate weight_decay : R)
           (num_threads : Z) (verbose : bool)
  : BprAdamUpdater.t * outcome (list metrics) :=
  let iterations := num_iterations in
  let N := length users in
  let loss := zeros N in
  (negatives <~ lift (int_zeros2 N iterations) ;;
   negatives <~ lift (sample_negatives 0 users X iterations negatives) ;;
   valid <~ match valid with
            | Some (users_valid, positives_valid, X_valid) =>
                negatives_valid <~ lift (int_zeros2 (length users_valid) iterations) ;;
                negatives_valid <~
                  lift (sample_negatives N users_valid X_valid iterations negatives_valid) ;;
                pret (Some (users_valid, positives_valid, negatives_valid))
            | None => pret None
            end ;;
   r <~ pfor_range (Z.to_nat iterations)
          (epoch users positives negatives valid X_test) (loss, ∅, []) ;;
   pret r.2)
    (BprAdamUpdater.init W H learning_rate weight_decay).

End FitBpr.

(** ** The class [BPR] *)

Module BPR.

Record t : Type := mk {
  num_components : nat;
  learning_rate : R;
  weight_decay : R;
  W : option matrix;
  H : option matrix
}.

(** [__init__]: the attributes [W] and [H] do not exist yet. *)
Definition init (num_components : nat) (learning_rate weight_decay : R) : t :=
  mk num_components learning_rate weight_decay None None.

Definition set_W (a : matrix) (self : t) : t :=
  mk (num_components self) (learning_rate self) (weight_decay self) (Some a) (H self).

Definition set_H (a : matrix) (self : t) : t :=
  mk (num_components self) (learning_rate self) (weight_decay self) (W self) (Some a).

Section Fit.

(** The library calls of [fit]: [argsort], [multiprocessing.cpu_count()],
    the numbers drawn by [np.random.uniform] and [np.random.choice],
    [X.nonzero()], [sklearn.utils.shuffle] and [X.todense()]
    ([X.toarray()]). *)
Variable argsort : vector -> list nat.
Variable cpu_count : Z.
Variable random_uniform : nat -> nat -> nat -> R.
Variable rand_index : nat -> nat -> nat.
Variable nonzero_of : object -> outcome (list nat * list nat).
Variable shuffle : list nat * list nat -> outcome (list nat * list nat).
Variable todense : object -> outcome matrix.

(** [num_threads = min(num_threads, multiprocessing.cpu_count())] *)
Definition resolve_num_threads (num_threads : Z) : Z := Z.min num_threads cpu_count.

(** [np.random.uniform(low=-0.1, high=0.1, size=(n, k)) / k] *)
Definition initial_factors (call n k : nat) : matrix :=
  tabulate2 n k (fun u j => random_uniform call u j / INR k).

Definition fit (X X_valid X_test : object) (num_iterations num_threads : Z)
           (verbose : bool) : prog t (list metrics) :=
  n <~ lift (shape_at X 0) ;;
  self <~ (fun self => (self, Ok self)) ;;
  let W0 := initial_factors 0 n (num_components self) in
  _ <~ modify (set_W W0) ;;
  c <~ lift (shape_at X 1) ;;
  let H0 := initial_factors 1 c (num_components self) in
  _ <~ modify (set_H H0) ;;
  let num_threads := resolve_num_threads num_threads in
  up <~ lift (p <- nonzero_of X ;; shuffle p) ;;
  dense <~ lift (todense X) ;;
  valid <~ lift (if is_None X_valid then Ok None
                 else p <- nonzero_of X_valid ;;
                      d <- todense X_valid ;;
                      Ok (Some (p.1, p.2, d))) ;;
  test <~ lift (if is_None X_test then Ok None
                else d <- todense X_test ;; Ok (Some d)) ;;
  fun self =>
    let r := fit_bpr argsort rand_index up.1 up.2 dense valid test W0 H0 num_iterations
               (learning_rate self) (weight_decay self) num_threads verbose in
    (set_H (BprAdamUpdater.H r.1) (set_W (BprAdamUpdater.W r.1) self), r.2).

End Fit.

End BPR.

End Bpr.

(** ** GloVe

    The classes [GloVeModel] and [GloVeAdaGrad] are imported from modules
    that are not among the sources.  They are parameters: the model is an
    object of an arbitrary type, built from the four parameter arrays it
    shares with the caller, with the two methods [forward] and [backward]
    and the current content of the shared arrays. *)

Module Fastmf.

Local Open Scope R_scope.

Module GloVe.

Record t : Type := mk {
  num_components : nat;
  learning_rate : R;
  alpha : R;
  x_max : R;
  weight_decay : R;
  W : option matrix;
  bias : option vector
}.

(** [__init__]: the attributes [W] and [bias] do not exist yet. *)
Definition init (num_components : nat) (learning_rate alpha x_max weight_decay : R) : t :=
  mk num_components learning_rate alpha x_max weight_decay None None.

Definition set_W (a : matrix) (self : t) : t :=
  mk (num_components self) (learning_rate self) (alpha self) (x_max self)
     (weight_decay self) (Some a) (bias self).

Definition set_bias (b : vector) (self : t) : t :=
  mk (num_components self) (learning_rate self) (alpha self) (x_max self)
     (weight_decay self) (W self) (Some b).

End GloVe.

Section Glove.

Variable model : Type.
Variable GloVeModel :
  matrix -> matrix -> vector -> vector -> R -> R -> R -> Z -> model.
Variable forward : nat -> nat -> R -> prog model R.
Variable backward : nat -> nat -> prog model unit.
Variable central_W_of : model -> nat -> nat -> R.
Variable central_bias_of : model -> nat -> R.
Variable context_W_of : model -> nat -> nat -> R.

(** [fit_glove]: the model after the call, and how the call ended.  The
    argument [weight_decay] is not used by the source.  The quotient
    [acc_loss/N] is computed for the description of the progress bar. *)
Definition fit_glove (central_words context_words : list nat) (counts : vector)
           (central_W : matrix) (central_bias : vector)
           (context_W : matrix) (context_bias : vector)
           (num_iterations : Z) (learning_rate x_max alpha weight_decay : R)
           (num_threads : Z) (verbose : bool) : model * outcome unit :=
  let iterations := num_iterations in
  let N := length central_words in
  let loss := zeros N in
  (_ <~ pfor_range (Z.to_nat iterations) (fun iteration loss =>
          let acc_loss := 0 in
          loss <~ pfor_range N (fun l loss =>
                    i <~ lift (get1 central_words l) ;;
                    j <~ lift (get1 context_words l) ;;
                    c <~ lift (get1 counts l) ;;
                    x <~ forward i j c ;;
                    loss <~ lift (set1 loss l x) ;;
                    _ <~ backward i j ;;
                    pret loss) loss ;;
          acc_loss <~ lift (for_range N (fun l acc_loss =>
                              x <- get1 loss l ;; Ok (acc_loss + x)) acc_loss) ;;
          _ <~ lift (checked_div acc_loss N) ;;
          pret loss) loss ;;
   pret tt)
    (GloVeModel central_W context_W central_bias context_bias x_max alpha
       learning_rate num_threads).

(** The library calls of [GloVe.fit]: [multiprocessing.cpu_count()], the
    numbers drawn by [np.random.uniform], and the samples
    [utils.shuffle(central_words, context_words, counts)] read from
    [X.nonzero()] and [X.data]. *)
Variable cpu_count : Z.
Variable random_uniform : nat -> nat -> nat -> R.
Variable shuffled_samples : object -> outcome (list nat * list nat * vector).

(** [num_threads = min(num_threads, multiprocessing.cpu_count())] *)
Definition resolve_num_threads (num_threads : Z) : Z := Z.min num_threads cpu_count.

(** [np.random.uniform(low=-0.5, high=0.5, size=(n, k)) / k] and
    [np.random.uniform(low=-0.5, high=0.5, size=(n,)) / k] *)
Definition initial_matrix (call n k : nat) : matrix :=
  tabulate2 n k (fun u j => random_uniform call u j / INR k).

Definition initial_vector (call n k : nat) : vector :=
  tabulate1 n (fun u => random_uniform call u 0 / INR k).

(** The first four statements of [fit]: [self.W], [self.bias], [_W], [_bias]. *)
Definition allocate (X : object) : prog GloVe.t (matrix * vector * matrix * vector) :=
  self <~ (fun self => (self, Ok self)) ;;
  let k := GloVe.num_components self in
  n <~ lift (shape_at X 0) ;;
  let W := initial_matrix 0 n k in
  _ <~ modify (GloVe.set_W W) ;;
  n <~ lift (shape_at X 0) ;;
  let bias := initial_vector 1 n k in
  _ <~ modify (GloVe.set_bias bias) ;;
  c <~ lift (shape_at X 1) ;;
  let _W := initial_matrix 2 c k in
  n <~ lift (shape_at X 0) ;;
  let _bias := initial_vector 3 n k in
  pret (W, bias, _W, _bias).

(** [self.W = (self.W + _W) / 2.0] *)
Definition average (central_W context_W : matrix) : prog GloVe.t unit :=
  s <~ lift (add central_W context_W) ;;
  modify (GloVe.set_W (div_scalar s 2)).

(** [GloVe.fit].  Training mutates the arrays [self.W] and [self.bias] in
    place: after [fit_glove] they hold what the model holds. *)
Definition GloVe_fit (X : object) (num_iterations num_threads : Z) (verbose : bool)
  : prog GloVe.t unit :=
  a <~ allocate X ;;
  let W := a.1.1.1 in
  let bias := a.1.1.2 in
  let _W := a.1.2 in
  let _bias := a.2 in
  let num_threads := resolve_num_threads num_threads in
  s <~ lift (shuffled_samples X) ;;
  trained <~ (fun self =>
    let r := fit_glove s.1.1 s.1.2 s.2 W bias _W _bias num_iterations
               (GloVe.learning_rate self) (GloVe.x_max self) (GloVe.alpha self)
               (GloVe.weight_decay self) num_threads verbose in
    let W' := tabulate2 (length W) (GloVe.num_components self) (central_W_of r.1) in
    let bias' := tabulate1 (length bias) (central_bias_of r.1) in
    let _W' := tabulate2 (length _W) (GloVe.num_components self) (context_W_of r.1) in
    (GloVe.set_bias bias' (GloVe.set_W W' self),
     match r.2 with
     | Ok _ => Ok (W', _W')
     | Raise e => Raise e
     | Fault => Fault
     end)) ;;
  average trained.1 trained.2.

End Glove.

End Fastmf.

Module Cymf.

Local Open Scope R_scope.

Module GloVe.

Record t : Type := mk {
  num_components : nat;
  learning_rate : R;
  alpha : R;
  x_max : R;
  W : option matrix;
  bias : option vector
}.

(** [__init__]: [self.W = None]; the attribute [bias] does not exist yet. *)
Definition init (num_components : nat) (learning_rate alpha x_max : R) : t :=
  mk num_components learning_rate alpha x_max None None.

Definition set_W (a : matrix) (self : t) : t :=
  mk (num_components self) (learning_rate self) (alpha self) (x_max self)
     (Some a) (bias self).

Definition set_bias (b : vector) (self : t) : t :=
  mk (num_components self) (learning_rate self) (alpha self) (x_max self)
     (W self) (Some b).

End GloVe.

Section Glove.

Variable model : Type.
Variable GloVeModel :
  matrix -> matrix -> vector -> vector -> R -> R -> R -> Z -> model.
Variable forward : nat -> nat -> R -> prog model R.
Variable backward : nat -> nat -> prog model unit.
Variable central_W_of : model -> nat -> nat -> R.
Variable central_bias_of : model -> nat -> R.
Variable context_W_of : model -> nat -> nat -> R.

(** [GloVe._fit_glove]: the model after the call, and how the call ended. *)
Definition _fit_glove (central_words context_words : list nat) (counts : vector)
           (central_W : matrix) (central_bias : vector)
           (context_W : matrix) (context_bias : vector)
           (num_epochs : Z) (learning_rate x_max alpha : R)
           (num_threads : Z) (verbose : bool) : model * outcome unit :=
  let iterations := num_epochs in
  let N := length central_words in
  let loss := zeros N in
  (_ <~ pfor_range (Z.to_nat iterations) (fun iteration loss =>
          let accum_loss := 0 in
          loss <~ pfor_range N (fun l loss =>
                    i <~ lift (get1 central_words l) ;;
                    j <~ lift (get1 context_words l) ;;
                    c <~ lift (get1 counts l) ;;
                    x <~ forward i j c ;;
                    loss <~ lift (set1 loss l x) ;;
                    _ <~ backward i j ;;
                    pret loss) loss ;;
          accum_loss <~ lift (for_range N (fun l accum_loss =>
                                x <- get1 loss l ;; Ok (accum_loss + x)) accum_loss) ;;
          _ <~ lift (checked_div accum_loss N) ;;
          pret loss) loss ;;
   pret tt)
    (GloVeModel central_W context_W central_bias context_bias x_max alpha
       learning_rate num_threads).

(** The library calls of [GloVe.fit]: [cpucount()] of [util.h], the
    numbers drawn by [np.random.uniform], and the samples
    [utils.shuffle(central_words, context_words, counts)] read from
    [X.nonzero()] and [X.data]. *)
Variable cpucount : Z.
Variable random_uniform : nat -> nat -> nat -> R.
Variable shuffled_samples : object -> outcome (list nat * list nat * vector).

(** [num_threads = num_threads if num_threads > 0 else cpucount()] *)
Definition resolve_num_threads (num_threads : Z) : Z :=
  if (0 <? num_threads)%Z then num_threads else cpucount.

Definition initial_matrix (call n k : nat) : matrix :=
  tabulate2 n k (fun u j => random_uniform call u j / INR k).

Definition initial_vector (call n k : nat) : vector :=
  tabulate1 n (fun u => random_uniform call u 0 / INR k).

(** The two tests that open [fit]. *)
Definition validate (X : object) : outcome unit :=
  if is_None X then Raise ValueError
  else if negb (isinstance_lil_csr_csc X) then Raise TypeError
  else Ok tt.

(** The four statements that follow: [self.W], [self.bias], [_W], [_bias]. *)
Definition allocate (X : object) : prog GloVe.t (matrix * vector * matrix * vector) :=
  self <~ (fun self => (self, Ok self)) ;;
  let k := GloVe.num_components self in
  n <~ lift (shape_at X 0) ;;
  let W := initial_matrix 0 n k in
  _ <~ modify (GloVe.set_W W) ;;
  n <~ lift (shape_at X 0) ;;
  let bias := initial_vector 1 n k in
  _ <~ modify (GloVe.set_bias bias) ;;
  c <~ lift (shape_at X 1) ;;
  let _W := initial_matrix 2 c k in
  n <~ lift (shape_at X 0) ;;
  let _bias := initial_vector 3 n k in
  pret (W, bias, _W, _bias).

(** [self.W = (self.W + _W) / 2.0] *)
Definition average (central_W context_W : matrix) : prog GloVe.t unit :=
  s <~ lift (add central_W context_W) ;;
  modify (GloVe.set_W (div_scalar s 2)).

(** [GloVe.fit].  Training mutates the arrays [self.W] and [self.bias] in
    place: after [_fit_glove] they hold what the model holds. *)
Definition GloVe_fit (X : object) (num_epochs num_threads : Z) (verbose : bool)
  : prog GloVe.t unit :=
  _ <~ lift (validate X) ;;
  a <~ allocate X ;;
  let W := a.1.1.1 in
  let bias := a.1.1.2 in
  let _W := a.1.2 in
  let _bias := a.2 in
  let num_threads := resolve_num_threads num_threads in
  s <~ lift (shuffled_samples X) ;;
  trained <~ (fun self =>
    let r := _fit_glove s.1.1 s.1.2 s.2 W bias _W _bias num_epochs
               (GloVe.learning_rate self) (GloVe.x_max self) (GloVe.alpha self)
               num_threads verbose in
    let W' := tabulate2 (length W) (GloVe.num_components self) (central_W_of r.1) in
    let bias' := tabulate1 (length bias) (central_bias_of r.1) in
    let _W' := tabulate2 (length _W) (GloVe.num_components self) (context_W_of r.1) in
    (GloVe.set_bias bias' (GloVe.set_W W' self),
     match r.2 with
     | Ok _ => Ok (W', _W')
     | Raise e => Raise e
     | Fault => Fault
     end)) ;;
  average trained.1 trained.2.

End Glove.

End Cymf.

(** ** [read_text]

    The function reads a file; its content, the string [raw], is the
    argument here.  The progress bars have no effect on the result. *)

Module ReadText.

Local Open Scope R_scope.

(** How a call ends: with a value, with a [KeyError] for the key looked
    up, or in an access outside an array. *)
Inductive reading (A : Type) : Type :=
| Read (a : A)
| KeyError (key : string)
| OutOfBounds.

Arguments Read {A} a.
Arguments KeyError {A} key.
Arguments OutOfBounds {A}.

Definition and_then {A B : Type} (m : reading A) (f : A -> reading B) : reading B :=
  match m with
  | Read a => f a
  | KeyError key => KeyError key
  | OutOfBounds => OutOfBounds
  end.

(** [for w in l: s = body(w, s)] *)
Fixpoint for_each {A S : Type} (l : list A) (body : A -> S -> reading S) (s : S)
  : reading S :=
  match l with
  | [] => Read s
  | w :: l' => and_then (body w s) (for_each l' body)
  end.

(** [cdef inline int imax(int a, int b)] and [iabs] *)
Definition imax (a b : Z) : Z := if (a >? b)%Z then a else b.
Definition iabs (a : Z) : Z := if (a <? 0)%Z then (- a)%Z else a.

(** The newline and the space character *)
Definition newline : Ascii.ascii := Ascii.ascii_of_nat 10.
Definition space : Ascii.ascii := Ascii.ascii_of_nat 32.

(** [s.split(sep)] for a separator of one character: the pieces between
    the occurrences of [sep], empty pieces included. *)
Fixpoint split (sep : Ascii.ascii) (s : string) : list string :=
  match s with
  | EmptyString => [EmptyString]
  | String c s' =>
      if Ascii.eqb c sep then EmptyString :: split sep s'
      else match split sep s' with
           | w :: ws => String c w :: ws
           | [] => [String c EmptyString]
           end
  end.

(** [s.replace("\n", "<eos>")] *)
Fixpoint replace_newlines (s : string) : string :=
  match s with
  | EmptyString => EmptyString
  | String c s' =>
      if Ascii.eqb c newline then String.append "<eos>" (replace_newlines s')
      else String c (replace_newlines s')
  end.

(** [dict(Counter(words))] *)
Definition Counter (words : list string) : gmap string nat :=
  foldl (fun count w => <[w := S (default 0%nat (count !! w))]> count) ∅ words.

(** [d[key]] on a dictionary *)
Definition getitem {V : Type} (d : gmap string V) (key : string) : reading V :=
  match d !! key with
  | Some v => Read v
  | None => KeyError key
  end.

(** The dictionaries [w2i] and [i2w] and the list [tmp] of the indices of
    the current line. *)
Record vocabulary : Type := mk_vocabulary {
  w2i : gmap string nat;
  i2w : gmap nat string;
  tmp : list nat
}.

(** The body of the loop over the words of a line.  The test
    [words[j] not in w2i and count[words[j]] >= min_count] looks the word up
    in [count] only when it is not in [w2i]; the test of the [elif] looks
    it up again. *)
Definition add_word (count : gmap string nat) (min_count : Z) (word : string)
           (v : vocabulary) : reading vocabulary :=
  and_then
    (if decide (w2i v !! word = None)
     then and_then (getitem count word) (fun c => Read (min_count <=? Z.of_nat c)%Z)
     else Read false)
    (fun first =>
       if first then
         let index := size (w2i v) in
         Read (mk_vocabulary (<[word := index]> (w2i v)) (<[index := word]> (i2w v))
                 (tmp v ++ [index]))
       else
         and_then (getitem count word) (fun c =>
           if (min_count <=? Z.of_nat c)%Z then
             and_then (getitem (w2i v) word) (fun index =>
               Read (mk_vocabulary (w2i v) (i2w v) (tmp v ++ [index])))
           else Read v)).

(** The body of the loop over the lines: [x.push_back(tmp)]. *)
Definition add_line (count : gmap string nat) (min_count : Z) (line : string)
           (s : vocabulary * list (list nat)) : reading (vocabulary * list (list nat)) :=
  let words := split space line in
  and_then
    (for_each words (add_word count min_count)
       (mk_vocabulary (w2i s.1) (i2w s.1) []))
    (fun v => Read (v, s.2 ++ [tmp v])).

(** The first part of [read_text], up to [vocab_size = len(w2i)]: the two
    dictionaries and the indexed lines [x]. *)
Definition index_words (raw : string) (min_count : Z)
  : reading (vocabulary * list (list nat)) :=
  let words := split space (replace_newlines raw) in
  let count := Counter words in
  let lines := split newline raw in
  for_each lines (add_line count min_count) (mk_vocabulary ∅ ∅ [], []).

(** C [int] and [long] hold 32 and 64 bits: the result of an arithmetic
    operation wraps around. *)
Definition wrap (bits : Z) (z : Z) : Z :=
  ((z + 2 ^ (bits - 1)) mod 2 ^ bits - 2 ^ (bits - 1))%Z.
Definition wrap_int : Z -> Z := wrap 32.
Definition wrap_long : Z -> Z := wrap 64.

(** An unchecked access to an array. *)
Definition unchecked {A : Type} (m : outcome A) : reading A :=
  match m with
  | Ok a => Read a
  | _ => OutOfBounds
  end.

(** The three nested loops over the lines [x[i]], the positions [j] of a
    line and the positions [k] of the window before [j]; [body] receives
    [x[i][j]], [x[i][k]] and [iabs(j - k)]. *)
Definition for_each_context {S : Type} (window_size : Z) (x : list (list nat))
           (body : nat -> nat -> Z -> S -> reading S) (s : S) : reading S :=
  for_each x (fun line =>
    for_each (seq 0 (length line)) (fun j =>
      let first := Z.to_nat (imax 0 (wrap_int (Z.of_nat j - window_size))) in
      for_each (seq first (j - first)) (fun k s =>
        and_then (unchecked (get1 line j)) (fun xj =>
        and_then (unchecked (get1 line k)) (fun xk =>
        body xj xk (iabs (wrap_int (Z.of_nat j - Z.of_nat k))) s))))) s.

(** [matrix[x[i][j], x[i][k]] += 1.0 / iabs(j - k)] *)
Definition add_dense (a b : nat) (d : Z) (matrix : Np.matrix) : reading Np.matrix :=
  and_then (unchecked (get2 matrix a b)) (fun v =>
  unchecked (set2 matrix a b (v + 1 / IZR d))).

(** [sparse_matrix[x[i][j] + x[i][k] * vocab_size] += 1.0 / iabs(j - k)]
    on an [unordered_map[long, double]]: a key that is not in the map is
    entered with the value 0 first. *)
Definition add_sparse (vocab_size : Z) (a b : nat) (d : Z) (sparse_matrix : gmap Z R)
  : reading (gmap Z R) :=
  let key := wrap_long (Z.of_nat a + wrap_long (Z.of_nat b * vocab_size)) in
  Read (<[key := default 0 (sparse_matrix !! key) + 1 / IZR d]> sparse_matrix).

(** The matrix handed to scipy: an array, or the arrays [row], [col] and
    [data] with the shape. *)
Inductive cooccurrences : Type :=
| Dense (matrix : Np.matrix)
| Coordinates (entries : list (Z * Z * R)) (vocab_size : nat).

(** The loop over the entries of [sparse_matrix], in the order the map
    yields them: [first % vocab_size], [first / vocab_size] and [second].
    The function is compiled with [cdivision(True)]: [%] and [/] are those
    of C. *)
Definition coordinates (vocab_size : Z) (sparse_matrix : gmap Z R) : list (Z * Z * R) :=
  map (fun e => (Z.rem e.1 vocab_size, Z.quot e.1 vocab_size, e.2))
      (map_to_list sparse_matrix).

(** The second part of [read_text] of [cymf/glove.pyx], and the handler of
    [MemoryError] of [fastmf/glove.pyx]. *)
Definition count_sparse (window_size : Z) (x : list (list nat)) (vocab_size : nat)
  : reading cooccurrences :=
  and_then (for_each_context window_size x (add_sparse (Z.of_nat vocab_size)) ∅)
    (fun sparse_matrix =>
       Read (Coordinates (coordinates (Z.of_nat vocab_size) sparse_matrix) vocab_size)).

(** [read_text] of [cymf/glove.pyx] *)
Definition cymf_read_text (raw : string) (min_count window_size : Z)
  : reading (cooccurrences * gmap nat string) :=
  and_then (index_words raw min_count) (fun r =>
  let x := r.2 in
  let vocab_size := size (w2i r.1) in
  and_then (count_sparse window_size x vocab_size) (fun ret =>
  Read (ret, i2w r.1))).

Section Fastmf.

(** Whether [np.zeros(shape=(n, n))] and then [sparse.csr_matrix] of the
    array find the memory they ask for. *)
Variable zeros_fits : nat -> bool.
Variable csr_matrix_fits : nat -> bool.

(** [read_text] of [fastmf/glove.pyx]: the [try] block, and the handler
    when one of the two allocations raises [MemoryError]. *)
Definition read_text (raw : string) (min_count window_size : Z)
  : reading (cooccurrences * gmap nat string) :=
  and_then (index_words raw min_count) (fun r =>
  let x := r.2 in
  let vocab_size := size (w2i r.1) in
  if zeros_fits vocab_size then
    and_then (for_each_context window_size x add_dense (zeros2 vocab_size vocab_size))
      (fun matrix =>
         if csr_matrix_fits vocab_size then Read (Dense matrix, i2w r.1)
         else and_then (count_sparse window_size x vocab_size) (fun ret =>
              Read (ret, i2w r.1)))
  else
    and_then (count_sparse window_size x vocab_size) (fun ret =>
    Read (ret, i2w r.1))).

End Fastmf.

End ReadText.

(** * Vocabulary of the statements *)

Module U := Bpr.BprAdamUpdater.

Local Open Scope R_scope.

(** [a[u, k] = x] on a list of rows. *)
Definition upd2 {A} (a : list (list A)) (u k : nat) (x : A) : list (list A) :=
  <[u := <[k := x]> (default [] (a !! u))]> a.

(** An updater for [n] users, [m] items and [K] components: the shapes
    [__init__] gives to the six arrays. *)
Definition wf (n m K : nat) (st : U.t) : Prop :=
  rect n K (U.W st) /\ rect n K (U.M_W st) /\ rect n K (U.V_W st) /\
  rect m K (U.H st) /\ rect m K (U.M_H st) /\ rect m K (U.V_H st).

(** The scalar attributes of two updaters agree. *)
Definition same_hyper (s s' : U.t) : Prop :=
  U.alpha s' = U.alpha s /\ U.beta1 s' = U.beta1 s /\ U.beta2 s' = U.beta2 s /\
  U.epsilon s' = U.epsilon s /\ U.weight_decay s' = U.weight_decay s.

(** The per-coordinate rule of section 4.4 of the specification, with the
    constant denominators [1 - b1] and [1 - b2]. *)
Definition adam_like_update (a b1 b2 eps : R) (g : R) (p m v p' m' v' : R) : Prop :=
  m' = b1 * m + (1 - b1) * g /\
  v' = b2 * v + (1 - b2) * (g * g) /\
  p' = p - a * (m' / (1 - b1)) / (sqrt (v' / (1 - b2)) + eps).

(** The updater [update_step] returns when all its accesses are inside the
    arrays. *)
Definition step_result (x : R) (u i j k : nat) (st : U.t) : U.t :=
  let w := cell (U.W st) u k in
  let hi := cell (U.H st) i k in
  let hj := cell (U.H st) j k in
  let grad_wuk := - (x * (hi - hj) - U.weight_decay st * w) in
  let grad_hik := - (x * w - U.weight_decay st * hi) in
  let grad_hjk := - (x * (- w) - U.weight_decay st * hj) in
  let M_W1 := upd2 (U.M_W st) u k (U.beta1 st * cell (U.M_W st) u k + (1 - U.beta1 st) * grad_wuk) in
  let M_H1 := upd2 (U.M_H st) i k (U.beta1 st * cell (U.M_H st) i k + (1 - U.beta1 st) * grad_hik) in
  let M_H2 := upd2 M_H1 j k (U.beta1 st * cell M_H1 j k + (1 - U.beta1 st) * grad_hjk) in
  let V_W1 := upd2 (U.V_W st) u k (U.beta2 st * cell (U.V_W st) u k + (1 - U.beta2 st) * Bpr.square grad_wuk) in
  let V_H1 := upd2 (U.V_H st) i k (U.beta2 st * cell (U.V_H st) i k + (1 - U.beta2 st) * Bpr.square grad_hik) in
  let V_H2 := upd2 V_H1 j k (U.beta2 st * cell V_H1 j k + (1 - U.beta2 st) * Bpr.square grad_hjk) in
  let W1 := upd2 (U.W st) u k
              (w - U.alpha st * (cell M_W1 u k / (1 - U.beta1 st))
                   / (sqrt (cell V_W1 u k / (1 - U.beta2 st)) + U.epsilon st)) in
  let H1 := upd2 (U.H st) i k
              (hi - U.alpha st * (cell M_H2 i k / (1 - U.beta1 st))
                    / (sqrt (cell V_H2 i k / (1 - U.beta2 st)) + U.epsilon st)) in
  let H2 := upd2 H1 j k
              (cell H1 j k - U.alpha st * (cell M_H2 j k / (1 - U.beta1 st))
                    / (sqrt (cell V_H2 j k / (1 - U.beta2 st)) + U.epsilon st)) in
  U.mk W1 H2 M_W1 V_W1 M_H2 V_H2 (U.alpha st) (U.beta1 st) (U.beta2 st) (U.epsilon st)
       (U.weight_decay st).

(** Column [k] of the six arrays is the same in [s] and [s']. *)
Definition col_same (k : nat) (s s' : U.t) : Prop :=
  (forall r, cell (U.W s') r k = cell (U.W s) r k) /\
  (forall r, cell (U.M_W s') r k = cell (U.M_W s) r k) /\
  (forall r, cell (U.V_W s') r k = cell (U.V_W s) r k) /\
  (forall r, cell (U.H s') r k = cell (U.H s) r k) /\
  (forall r, cell (U.M_H s') r k = cell (U.M_H s) r k) /\
  (forall r, cell (U.V_H s') r k = cell (U.V_H s) r k).

(** The three gradients of coordinate [k], for [x = sigmoid(-x_uij)]. *)
Definition grad_wuk (x : R) (u i j k : nat) (s : U.t) : R :=
  - (x * (cell (U.H s) i k - cell (U.H s) j k) - U.weight_decay s * cell (U.W s) u k).
Definition grad_hik (x : R) (u i j k : nat) (s : U.t) : R :=
  - (x * cell (U.W s) u k - U.weight_decay s * cell (U.H s) i k).
Definition grad_hjk (x : R) (u i j k : nat) (s : U.t) : R :=
  - (x * (- cell (U.W s) u k) - U.weight_decay s * cell (U.H s) j k).

(** Coordinate [k] of [W[u]], and of [H[i]] and [H[j]] when they are
    different rows, has been updated from [s] to [s'] by the rule. *)
Definition coord_post (x : R) (u i j k : nat) (s s' : U.t) : Prop :=
  adam_like_update (U.alpha s) (U.beta1 s) (U.beta2 s) (U.epsilon s) (grad_wuk x u i j k s)
    (cell (U.W s) u k) (cell (U.M_W s) u k) (cell (U.V_W s) u k)
    (cell (U.W s') u k) (cell (U.M_W s') u k) (cell (U.V_W s') u k) /\
  (i <> j ->
   adam_like_update (U.alpha s) (U.beta1 s) (U.beta2 s) (U.epsilon s) (grad_hik x u i j k s)
     (cell (U.H s) i k) (cell (U.M_H s) i k) (cell (U.V_H s) i k)
     (cell (U.H s') i k) (cell (U.M_H s') i k) (cell (U.V_H s') i k) /\
   adam_like_update (U.alpha s) (U.beta1 s) (U.beta2 s) (U.epsilon s) (grad_hjk x u i j k s)
     (cell (U.H s) j k) (cell (U.M_H s) j k) (cell (U.V_H s) j k)
     (cell (U.H s') j k) (cell (U.M_H s') j k) (cell (U.V_H s') j k)).

(** The logistic function [1 / (1 + e^(-x))], the sigmoid of the
    specification. *)
Definition logistic (x : R) : R := 1 / (1 + exp (- x)).

(** The loss of one sample, as section 4.3 of the specification writes it. *)
Definition bpr_loss (st : U.t) (u i j : nat) : R :=
  - ln (logistic (dot (row (U.W st) u) (vsub (row (U.H st) i) (row (U.H st) j))))
  + U.weight_decay st
    * (norm2 (row (U.W st) u) + norm2 (row (U.H st) i) + norm2 (row (U.H st) j)).

(** The states of an updater built by [init] and used through [loss]. *)
Inductive reachable (s0 : U.t) : U.t -> Prop :=
| reach_init : reachable s0 s0
| reach_call st u i j update st' l :
    reachable s0 st -> U.loss st u i j update = Ok (st', l) -> reachable s0 st'.

(** [dot(W[u], H[i] - H[j])] *)
Definition bpr_score (st : U.t) (u i j : nat) : R :=
  dot (row (U.W st) u) (vsub (row (U.H st) i) (row (U.H st) j)).

(** The negatives drawn for sample [l], one for each planned epoch. *)
Definition negatives_of (rand : nat -> nat -> nat) (call0 : nat) (users : list nat)
           (X : list (list R)) (iterations : Z) (l : nat) : outcome (list nat) :=
  u <- get1 users l ;;
  Xu <- index_row X u ;;
  Bpr.random_choice rand (call0 + l) (Bpr.negative_candidates Xu) iterations.

(** The first [N] samples exist and lie inside arrays for [n] users and
    [m] items, with the negatives of epoch [iteration]. *)
Definition samples_in_range (n m : nat) (users positives : list nat)
           (negatives : list (list nat)) (iteration N : nat) : Prop :=
  forall l, (l < N)%nat ->
    exists u i j, get1 users l = Ok u /\ get1 positives l = Ok i /\
      get2 negatives l iteration = Ok j /\ (u < n)%nat /\ (i < m)%nat /\ (j < m)%nat.

(** The function [argsort] returns, for every array, a result the
    documentation of numpy allows. *)
Definition sorts (argsort : vector -> list nat) : Prop :=
  forall v, is_argsort v (argsort v).

(** Position [a] comes before position [b] in the increasing order of the
    values, positions of equal value in increasing order. *)
Definition ranks_before (v : list R) (a b : nat) : Prop :=
  value_at v a < value_at v b \/ (value_at v a = value_at v b /\ (a < b)%nat).

(** One function that [sorts]: the insertion sort that keeps positions of
    equal value in increasing order, which is what [kind='stable'] returns.
    Position [i] is inserted, in the sorted list of the positions before
    it, behind every position whose value is not greater. *)
Fixpoint insert_index (v : vector) (i : nat) (l : list nat) : list nat :=
  match l with
  | [] => [i]
  | j :: l' =>
      if Rlt_dec (value_at v i) (value_at v j) then i :: j :: l'
      else j :: insert_index v i l'
  end.

Definition stable_argsort (v : vector) : list nat :=
  foldl (fun sorted i => insert_index v i sorted) [] (seq 0 (length v)).

(** Another one: the reverse of the stable sort of the reversed order,
    which leaves positions of equal value in decreasing order. *)
Fixpoint insert_index_before (v : vector) (i : nat) (l : list nat) : list nat :=
  match l with
  | [] => [i]
  | j :: l' =>
      if Rle_dec (value_at v i) (value_at v j) then i :: j :: l'
      else j :: insert_index_before v i l'
  end.

Definition reversing_argsort (v : vector) : list nat :=
  foldl (fun sorted i => insert_index_before v i sorted) [] (seq 0 (length v)).

(** Ties broken by ascending index, as the specification describes the list. *)
Definition ties_by_ascending_index (v : list R) (l : list nat) : Prop :=
  forall p q a b, (p < q)%nat -> l !! p = Some a -> l !! q = Some b ->
    value_at v a = value_at v b -> (a < b)%nat.

(** Every entry of a two-dimensional array satisfies [P]. *)
Definition cells (P : R -> Prop) (a : matrix) : Prop := Forall (Forall P) a.

(** Row [r] of the six arrays is the same in [s] and [s']. *)
Definition row_same_W (r : nat) (s s' : U.t) : Prop :=
  U.W s' !! r = U.W s !! r /\ U.M_W s' !! r = U.M_W s !! r /\ U.V_W s' !! r = U.V_W s !! r.

Definition row_same_H (r : nat) (s s' : U.t) : Prop :=
  U.H s' !! r = U.H s !! r /\ U.M_H s' !! r = U.M_H s !! r /\ U.V_H s' !! r = U.V_H s !! r.

Module G := Bpr.BprAdaGradUpdater.

(** An AdaGrad updater for [n] users, [m] items and [K] components. *)
Definition adagrad_wf (n m K : nat) (st : G.t) : Prop :=
  rect n K (G.W st) /\ rect n K (G.grad_accum_W st) /\
  rect m K (G.H st) /\ rect m K (G.grad_accum_H st).

(** The updater [G.update_step] returns when all its accesses are inside
    the arrays. *)
Definition adagrad_step_result (x : R) (u i j k : nat) (st : G.t) : G.t :=
  let w := cell (G.W st) u k in
  let hi := cell (G.H st) i k in
  let hj := cell (G.H st) j k in
  let grad_wuk := - (x * (hi - hj) - G.weight_decay st * w) in
  let grad_hik := - (x * w - G.weight_decay st * hi) in
  let grad_hjk := - (x * (- w) - G.weight_decay st * hj) in
  let A_W1 := upd2 (G.grad_accum_W st) u k
                (cell (G.grad_accum_W st) u k + Bpr.square grad_wuk) in
  let A_H1 := upd2 (G.grad_accum_H st) i k
                (cell (G.grad_accum_H st) i k + Bpr.square grad_hik) in
  let A_H2 := upd2 A_H1 j k (cell A_H1 j k + Bpr.square grad_hjk) in
  let W1 := upd2 (G.W st) u k (w - G.learning_rate st * grad_wuk / sqrt (cell A_W1 u k)) in
  let H1 := upd2 (G.H st) i k (hi - G.learning_rate st * grad_hik / sqrt (cell A_H2 i k)) in
  let H2 := upd2 H1 j k (cell H1 j k - G.learning_rate st * grad_hjk / sqrt (cell A_H2 j k)) in
  G.mk W1 H2 A_W1 A_H2 (G.weight_decay st) (G.learning_rate st).

(** The AdaGrad rule for one parameter [p] with accumulator [a] and
    gradient [g]. *)
Definition adagrad_update (lr g p a p' a' : R) : Prop :=
  a' = a + g * g /\ p' = p - lr * g / sqrt a'.

(** Coordinate [k] of [W[u]], and of [H[i]] and [H[j]] when they are
    different rows, has been updated from [s] to [s'] by the rule, for
    [x = sigmoid(-x_uij)]. *)
Definition adagrad_coord_post (x : R) (u i j k : nat) (s s' : G.t) : Prop :=
  adagrad_update (G.learning_rate s)
    (- (x * (cell (G.H s) i k - cell (G.H s) j k) - G.weight_decay s * cell (G.W s) u k))
    (cell (G.W s) u k) (cell (G.grad_accum_W s) u k)
    (cell (G.W s') u k) (cell (G.grad_accum_W s') u k) /\
  (i <> j ->
   adagrad_update (G.learning_rate s)
     (- (x * cell (G.W s) u k - G.weight_decay s * cell (G.H s) i k))
     (cell (G.H s) i k) (cell (G.grad_accum_H s) i k)
     (cell (G.H s') i k) (cell (G.grad_accum_H s') i k) /\
   adagrad_update (G.learning_rate s)
     (- (x * (- cell (G.W s) u k) - G.weight_decay s * cell (G.H s) j k))
     (cell (G.H s) j k) (cell (G.grad_accum_H s) j k)
     (cell (G.H s') j k) (cell (G.grad_accum_H s') j k)).

(** Column [k] of the four arrays is the same in [s] and [s']. *)
Definition adagrad_col_same (k : nat) (s s' : G.t) : Prop :=
  (forall r, cell (G.W s') r k = cell (G.W s) r k) /\
  (forall r, cell (G.grad_accum_W s') r k = cell (G.grad_accum_W s) r k) /\
  (forall r, cell (G.H s') r k = cell (G.H s) r k) /\
  (forall r, cell (G.grad_accum_H s') r k = cell (G.grad_accum_H s) r k).

(** The loss of one sample from the factors [W] and [H]. *)
Definition bpr_loss_of (W H : matrix) (weight_decay : R) (u i j : nat) : R :=
  - ln (logistic (dot (row W u) (vsub (row H i) (row H j))))
  + weight_decay * (norm2 (row W u) + norm2 (row H i) + norm2 (row H j)).

(** The states of an AdaGrad updater built by [init] and used through
    [loss]. *)
Inductive adagrad_reachable (s0 : G.t) : G.t -> Prop :=
| adagrad_reach_init : adagrad_reachable s0 s0
| adagrad_reach_call st u i j update st' l :
    adagrad_reachable s0 st -> G.loss st u i j update = Ok (st', l) ->
    adagrad_reachable s0 st'.

(** The factor [sigmoid(-x_uij)] of the gradients of the sample
    [(u, i, j)]. *)
Definition adagrad_factor (st : G.t) (u i j : nat) : R :=
  1 / (1 + exp (dot (row (G.W st) u) (vsub (row (G.H st) i) (row (G.H st) j)))).

(** The entries of the row [Xi] at the first [k] positions of the list
    [top]. *)
Definition hits (top : list nat) (Xi : vector) (k : nat) : vector :=
  map (value_at Xi) (take k top).

(** Entry [i] of the array [recall] returns, from row [i] of its
    arguments. *)
Definition recall_row (top : list nat) (Xi : vector) (k : nat) : R :=
  if Req_dec_T (sum Xi) 0 then 0 else sum (hits top Xi k) / sum Xi.

(** The lists of positions [evaluate] hands to the three metrics: one row
    for each of the [N] rows of [X], each with at least [k] different
    positions inside a row of [X]. *)
Definition top_lists (N m k : nat) (tops : list (list nat)) : Prop :=
  length tops = N /\
  Forall (fun t => (k <= length t)%nat /\ NoDup (take k t) /\
                   Forall (fun a => (a < m)%nat) (take k t)) tops.

(** An entry of the history reports a training loss. *)
Definition reports_loss (mt : Bpr.metrics) : Prop := is_Some (mt !! "loss").

(** Two dictionaries of metrics agree on every key but ["val_loss"]. *)
Definition same_but_val_loss (mt mt' : Bpr.metrics) : Prop :=
  forall key, key <> "val_loss" -> mt !! key = mt' !! key.

(** An entry of the history reports a training loss and a validation
    loss. *)
Definition reports_both_losses (mt : Bpr.metrics) : Prop :=
  reports_loss mt /\ is_Some (mt !! "val_loss").

Module RT := ReadText.

(** The words of the lines of [raw], in reading order. *)
Definition line_words (raw : string) : list (list string) :=
  map (RT.split RT.space) (RT.split RT.newline raw).

(** The dictionary [count] of [read_text]. *)
Definition word_count (raw : string) : gmap string nat :=
  RT.Counter (RT.split RT.space (RT.replace_newlines raw)).

(** The first word of [words] that is not a key of [count]. *)
Definition first_missing (count : gmap string nat) (words : list string) : option string :=
  snd <$> list_find (fun w => count !! w = None) words.

(** [word] occurs at least [min_count] times according to [count]. *)
Definition frequent (count : gmap string nat) (min_count : Z) (word : string) : bool :=
  match count !! word with
  | Some c => (min_count <=? Z.of_nat c)%Z
  | None => false
  end.

(** The list [indices] holds the indices the dictionary gives to
    [words]. *)
Definition decodes (w2i : gmap string nat) (indices : list nat) (words : list string) : Prop :=
  Forall2 (fun i w => w2i !! w = Some i) indices words.

(** The two dictionaries are inverse to each other and number the words
    from 0, and every word in them is frequent. *)
Definition indexed (count : gmap string nat) (min_count : Z) (v : RT.vocabulary) : Prop :=
  (forall w i, RT.w2i v !! w = Some i <-> RT.i2w v !! i = Some w) /\
  (forall i, is_Some (RT.i2w v !! i) <-> (i < size (RT.w2i v))%nat) /\
  (forall w, is_Some (RT.w2i v !! w) -> frequent count min_count w = true).

(** The weight the positions [k < j] of [line] give to the entry
    [(a, b)]: the word at [j] is [a], the word at [k] is [b], and [k] is
    one of the [window] positions before [j]. *)
Definition pair_weight (window : nat) (line : list nat) (a b j k : nat) : R :=
  if decide ((k < j)%nat /\ (j - k <= window)%nat /\
             line !! j = Some a /\ line !! k = Some b)
  then 1 / INR (j - k) else 0.

Definition line_weight (window : nat) (line : list nat) (a b : nat) : R :=
  sum (map (fun j => sum (map (pair_weight window line a b j) (seq 0 (length line))))
           (seq 0 (length line))).

(** The entry [(a, b)] of the matrix of co-occurrences of the indexed
    lines [x]. *)
Definition cooccurrence (window : nat) (x : list (list nat)) (a b : nat) : R :=
  sum (map (fun line => line_weight window line a b) x).

(** The entry [(a, b)] of the matrix scipy builds from the arguments:
    entries of equal coordinates are added up. *)
Definition entry (c : RT.cooccurrences) (a b : nat) : R :=
  match c with
  | RT.Dense matrix => cell matrix a b
  | RT.Coordinates entries _ =>
      sum (map (fun e => if decide (e.1 = (Z.of_nat a, Z.of_nat b)) then e.2 else 0) entries)
  end.

(** The shape of that matrix is [(n, n)] and all coordinates are inside. *)
Definition square_of (n : nat) (c : RT.cooccurrences) : Prop :=
  match c with
  | RT.Dense matrix => rect n n matrix
  | RT.Coordinates entries vocab_size =>
      vocab_size = n /\
      Forall (fun e => (0 <= e.1.1 < Z.of_nat n)%Z /\ (0 <= e.1.2 < Z.of_nat n)%Z) entries
  end.

(** The calls of the body of the three nested loops on one line, in
    order: the pairs of positions [(j, k)]. *)
Definition window_positions (window_size : Z) (len : nat) : list (nat * nat) :=
  flat_map (fun j =>
    let first := Z.to_nat (RT.imax 0 (RT.wrap_int (Z.of_nat j - window_size))) in
    map (fun k => (j, k)) (seq first (j - first))) (seq 0 len).

(** The calls of the body on the lines [x]: the two words and their
    distance. *)
Definition line_events (window_size : Z) (line : list nat) : list (nat * nat * Z) :=
  map (fun p => (default 0%nat (line !! p.1), default 0%nat (line !! p.2),
                 RT.iabs (RT.wrap_int (Z.of_nat p.1 - Z.of_nat p.2))))
      (window_positions window_size (length line)).

Definition events (window_size : Z) (x : list (list nat)) : list (nat * nat * Z) :=
  flat_map (line_events window_size) x.

(** What the calls add to the entry [(a, b)]. *)
Definition events_weight (evs : list (nat * nat * Z)) (a b : nat) : R :=
  sum (map (fun e => if decide (e.1 = (a, b)) then 1 / IZR e.2 else 0) evs).

(** The keys of [sparse_matrix] are [a + b * n] for indices [a] and [b]
    below [n]. *)
Definition encoded (n : nat) (sparse_matrix : gmap Z R) : Prop :=
  forall key v, sparse_matrix !! key = Some v ->
    exists a b, (a < n)%nat /\ (b < n)%nat /\ key = (Z.of_nat a + Z.of_nat b * Z.of_nat n)%Z.

(** The discounted gain of the list [top] on the row [Xi]: the first
    listed entry, and the [j]-th divided by [log2(j + 1)]. *)
Definition dcg (top : list nat) (Xi : vector) (k : nat) : R :=
  value_at Xi (default 0%nat (top !! 0%nat))
  + sum (map (fun j => value_at Xi (default 0%nat (top !! j)) / Bpr.log2 (INR j + 1))
             (seq 1 (k - 1))).

(** The normaliser [tmp[i]] of [ndcg] for a row that sums to [s]. *)
Definition ideal_dcg (s : R) (k : nat) : R :=
  1 + sum (map (fun j => 1 / Bpr.log2 (INR j + 1))
               (seq 1 (Z.to_nat (Int_part (Rmin s (INR k))) - 1))).

(** Entry [i] of the array [ndcg] returns, from row [i] of its
    arguments. *)
Definition ndcg_row (top : list nat) (Xi : vector) (k : nat) : R :=
  if Req_dec_T (sum Xi) 0 then 0 else dcg top Xi k / ideal_dcg (sum Xi) k.

(** The discount of position [j] of a list. *)
Definition discount (j : nat) : R :=
  match j with
  | O => 1
  | S _ => 1 / Bpr.log2 (INR j + 1)
  end.

(** * Arrays and loops *)

Section Arrays.
Context {A : Type}.
Implicit Types (a : list (list A)) (l : list A).

Lemma get1_Ok l i x : get1 l i = Ok x <-> l !! i = Some x.
Proof. unfold get1. destruct (l !! i); split; intros E; congruence. Qed.

Lemma set1_Ok l i x l' :
  set1 l i x = Ok l' <-> ((i < length l)%nat /\ l' = <[i := x]> l).
Proof.
  unfold set1. destruct (l !! i) eqn:E.
  - apply lookup_lt_Some in E. split; [intros [= <-]; auto | intros [_ ->]; auto].
  - apply lookup_ge_None in E. split; [discriminate | intros [? _]; lia].
Qed.

Lemma bind_Ok {B C : Type} (m : outcome B) (f : B -> outcome C) c :
  bind m f = Ok c <-> exists b, m = Ok b /\ f b = Ok c.
Proof.
  destruct m; simpl; split; try discriminate.
  - eauto.
  - intros (b & [= ->] & E). exact E.
  - intros (b & E & _). discriminate.
  - intros (b & E & _). discriminate.
Qed.
End Arrays.

Lemma get2_Ok {A} (a : list (list A)) u k x :
  get2 a u k = Ok x <-> exists r, a !! u = Some r /\ r !! k = Some x.
Proof.
  unfold get2. rewrite bind_Ok. split.
  - intros (r & E1 & E2). apply get1_Ok in E1, E2. eauto.
  - intros (r & E1 & E2). exists r. rewrite !get1_Ok. auto.
Qed.

Lemma set2_Ok {A} (a : list (list A)) u k x a' :
  set2 a u k x = Ok a' <->
  exists r, a !! u = Some r /\ (k < length r)%nat /\ a' = upd2 a u k x.
Proof.
  unfold set2, upd2. rewrite bind_Ok. split.
  - intros (r & E1 & E2). apply get1_Ok in E1. apply bind_Ok in E2 as (r' & E2 & E3).
    apply set1_Ok in E2 as [Hk ->]. apply set1_Ok in E3 as [Hu ->].
    exists r. rewrite E1. auto.
  - intros (r & E1 & Hk & ->). exists r. rewrite get1_Ok. split; [done|].
    apply bind_Ok. exists (<[k:=x]> r). rewrite !set1_Ok, E1. simpl.
    apply lookup_lt_Some in E1. auto.
Qed.

Lemma rect_lookup n K (a : matrix) u :
  rect n K a -> (u < n)%nat -> exists r, a !! u = Some r /\ length r = K.
Proof.
  intros [Hn Hf] Hu. destruct (lookup_lt_is_Some_2 a u) as [r Hr]; [lia|].
  exists r. split; [done|]. rewrite Forall_lookup in Hf. eauto.
Qed.

Lemma rect_upd2 n K (a : matrix) u k x : rect n K a -> rect n K (upd2 a u k x).
Proof.
  intros [Hn Hf]. unfold upd2. split; [by rewrite length_insert|].
  rewrite Forall_lookup in Hf. apply Forall_lookup. intros i r Hr.
  destruct (decide (i = u)) as [->|Hne].
  - destruct (a !! u) as [r0|] eqn:E.
    + rewrite list_lookup_insert_eq in Hr by (by eapply lookup_lt_Some).
      injection Hr as <-. simpl. rewrite length_insert. eauto.
    + rewrite list_insert_ge in Hr by (by apply lookup_ge_None). congruence.
  - rewrite list_lookup_insert_ne in Hr by done. eauto.
Qed.

Lemma cell_upd2_eq n K (a : matrix) u k x :
  rect n K a -> (u < n)%nat -> (k < K)%nat -> cell (upd2 a u k x) u k = x.
Proof.
  intros Hr Hu Hk. destruct (rect_lookup _ _ _ _ Hr Hu) as (r & E & Hl).
  unfold cell, upd2. rewrite E. simpl.
  rewrite list_lookup_insert_eq by (by eapply lookup_lt_Some). simpl.
  rewrite list_lookup_insert_eq by lia. done.
Qed.

Lemma cell_upd2_ne (a : matrix) u k x u' k' :
  (u', k') <> (u, k) -> cell (upd2 a u k x) u' k' = cell a u' k'.
Proof.
  intros Hne. unfold cell, upd2.
  destruct (decide (u' = u)) as [->|Hu].
  - destruct (a !! u) as [r|] eqn:E.
    + rewrite list_lookup_insert_eq by (by eapply lookup_lt_Some). simpl.
      rewrite list_lookup_insert_ne by congruence. done.
    + rewrite list_insert_ge by (by apply lookup_ge_None). by rewrite E.
  - by rewrite list_lookup_insert_ne.
Qed.

Lemma get2_cell n K (a : matrix) u k :
  rect n K a -> (u < n)%nat -> (k < K)%nat -> get2 a u k = Ok (cell a u k).
Proof.
  intros Hr Hu Hk. destruct (rect_lookup _ _ _ _ Hr Hu) as (r & E & Hl).
  destruct (lookup_lt_is_Some_2 r k) as [x Hx]; [lia|].
  apply get2_Ok. exists r. split; [done|]. unfold cell. rewrite E. simpl. by rewrite Hx.
Qed.

Lemma set2_upd2 n K (a : matrix) u k x :
  rect n K a -> (u < n)%nat -> (k < K)%nat -> set2 a u k x = Ok (upd2 a u k x).
Proof.
  intros Hr Hu Hk. destruct (rect_lookup _ _ _ _ Hr Hu) as (r & E & Hl).
  apply set2_Ok. exists r. split; [done|]. split; [lia|done].
Qed.

Lemma update_step_result n m K x u i j k st :
  wf n m K st -> (u < n)%nat -> (i < m)%nat -> (j < m)%nat -> (k < K)%nat ->
  U.update_step x u i j k st = Ok (step_result x u i j k st).
Proof.
  intros (HW & HMW & HVW & HH & HMH & HVH) Hu Hi Hj Hk.
  unfold U.update_step, step_result.
  repeat first
    [ erewrite get2_cell by eauto using rect_upd2
    | erewrite set2_upd2 by eauto using rect_upd2
    | progress cbn [bind] ].
  reflexivity.
Qed.

Lemma step_result_wf n m K x u i j k st : wf n m K st -> wf n m K (step_result x u i j k st).
Proof.
  intros (HW & HMW & HVW & HH & HMH & HVH).
  unfold wf, step_result; cbn.
  repeat match goal with |- _ /\ _ => split end; repeat apply rect_upd2; assumption.
Qed.

Lemma step_result_hyper x u i j k st : same_hyper st (step_result x u i j k st).
Proof. repeat split. Qed.

Lemma step_col_other x u i j k k' st :
  k' <> k -> col_same k' st (step_result x u i j k st).
Proof.
  intros Hne. unfold col_same, step_result; cbn.
  repeat match goal with |- _ /\ _ => split end; intros r;
    rewrite ?cell_upd2_ne by congruence; reflexivity.
Qed.

Lemma step_coord n m K x u i j k st :
  wf n m K st -> (u < n)%nat -> (i < m)%nat -> (j < m)%nat -> (k < K)%nat ->
  coord_post x u i j k st (step_result x u i j k st).
Proof.
  intros (HW & HMW & HVW & HH & HMH & HVH) Hu Hi Hj Hk.
  unfold coord_post, adam_like_update, step_result, grad_wuk, grad_hik, grad_hjk; cbn.
  split; [|intros Hij].
  - rewrite !(cell_upd2_eq n K) by assumption. unfold Bpr.square. auto.
  - assert (Hne1 : (i, k) <> (j, k)) by congruence.
    assert (Hne2 : (j, k) <> (i, k)) by congruence.
    repeat first
      [ rewrite (cell_upd2_eq m K) by (repeat apply rect_upd2; assumption)
      | rewrite (cell_upd2_ne _ _ _ _ _ _ Hne1)
      | rewrite (cell_upd2_ne _ _ _ _ _ _ Hne2) ].
    unfold Bpr.square. auto 10.
Qed.

Lemma for_loop_app {S : Type} (l1 l2 : list nat) (body : nat -> S -> outcome S) (s : S) :
  for_loop (l1 ++ l2) body s = bind (for_loop l1 body s) (for_loop l2 body).
Proof.
  revert s. induction l1 as [|k l1 IH]; intros s; simpl; [reflexivity|].
  destruct (body k s); simpl; auto.
Qed.

Lemma for_range_S {S : Type} (n : nat) (body : nat -> S -> outcome S) (s : S) :
  for_range (Datatypes.S n) body s = bind (for_range n body s) (body n).
Proof.
  unfold for_range. rewrite seq_S, for_loop_app. simpl.
  destruct (for_loop (seq 0 n) body s); simpl; auto.
  destruct (body n a); reflexivity.
Qed.

Lemma update_loop n m K x u i j st c :
  wf n m K st -> (u < n)%nat -> (i < m)%nat -> (j < m)%nat -> (c <= K)%nat ->
  exists st', for_range c (U.update_step x u i j) st = Ok st' /\
    wf n m K st' /\ same_hyper st st' /\
    (forall k, (k < c)%nat -> coord_post x u i j k st st') /\
    (forall k, (c <= k)%nat -> col_same k st st').
Proof.
  intros Hwf Hu Hi Hj. induction c as [|c IH]; intros Hc.
  - exists st. split; [reflexivity|]. split; [assumption|].
    split; [repeat split|]. split; [intros k Hk; lia|intros k _; repeat split].
  - destruct IH as (st1 & E & Hwf1 & Hh & Hdone & Hrest); [lia|].
    exists (step_result x u i j c st1). rewrite for_range_S, E. simpl.
    split; [eapply update_step_result; eauto|].
    split; [by apply step_result_wf|].
    split.
    { destruct Hh as (? & ? & ? & ? & ?). repeat split; cbn; assumption. }
    split.
    + intros k Hk. destruct (decide (k = c)) as [->|Hne].
      * pose proof (step_coord n m K x u i j c st1 Hwf1 Hu Hi Hj Hc) as Hp.
        destruct (Hrest c (Nat.le_refl c)) as (e1 & e2 & e3 & e4 & e5 & e6).
        destruct Hh as (h1 & h2 & h3 & h4 & h5).
        unfold coord_post, grad_wuk, grad_hik, grad_hjk in *.
        rewrite ?e1, ?e2, ?e3, ?e4, ?e5, ?e6, ?h1, ?h2, ?h3, ?h4, ?h5 in Hp. exact Hp.
      * pose proof (Hdone k ltac:(lia)) as Hp.
        destruct (step_col_other x u i j c k st1 Hne) as (e1 & e2 & e3 & e4 & e5 & e6).
        unfold coord_post in *.
        rewrite ?e1, ?e2, ?e3, ?e4, ?e5, ?e6. exact Hp.
    + intros k Hk.
      destruct (Hrest k ltac:(lia)) as (e1 & e2 & e3 & e4 & e5 & e6).
      destruct (step_col_other x u i j c k st1 ltac:(lia)) as (f1 & f2 & f3 & f4 & f5 & f6).
      unfold col_same.
      repeat match goal with |- _ /\ _ => split end; intros r; congruence.
Qed.

Lemma sum_snoc (l : list R) (x : R) : sum (l ++ [x]) = sum l + x.
Proof. unfold sum. induction l as [|y l IH]; simpl; [lra|]. rewrite IH. lra. Qed.

Lemma dot_snoc (a b : list R) (x y : R) :
  length a = length b -> dot (a ++ [x]) (b ++ [y]) = dot a b + x * y.
Proof. intros Hl. unfold dot. rewrite zip_with_app by exact Hl. apply sum_snoc. Qed.

Lemma vsub_snoc (a b : list R) (x y : R) :
  length a = length b -> vsub (a ++ [x]) (b ++ [y]) = vsub a b ++ [x - y].
Proof. intros Hl. unfold vsub. by rewrite zip_with_app. Qed.

Lemma length_vsub (a b : list R) : length a = length b -> length (vsub a b) = length a.
Proof. intros Hl. unfold vsub. rewrite length_zip_with. lia. Qed.

Lemma rect_row n K (a : list (list R)) u :
  rect n K a -> (u < n)%nat -> a !! u = Some (row a u) /\ length (row a u) = K.
Proof.
  intros Hr Hu. destruct (rect_lookup _ _ _ _ Hr Hu) as (r & E & Hl).
  unfold row. rewrite E. auto.
Qed.

Lemma rect_shape1 n K (a : list (list R)) u : rect n K a -> (u < n)%nat -> shape1 a = K.
Proof.
  intros [Hn Hf] Hu. destruct a as [|r a]; simpl in *; [lia|].
  by inversion Hf.
Qed.

Lemma cell_row (a : list (list R)) u k x : row a u !! k = Some x -> cell a u k = x.
Proof.
  unfold row, cell. destruct (a !! u); simpl; [intros ->; done|].
  rewrite lookup_nil. discriminate.
Qed.

Lemma forward_loop n m K st u i j c :
  rect n K (U.W st) -> rect m K (U.H st) ->
  (u < n)%nat -> (i < m)%nat -> (j < m)%nat -> (c <= K)%nat ->
  for_range c (U.forward_step st u i j) (0, 0) =
  Ok (dot (take c (row (U.W st) u)) (vsub (take c (row (U.H st) i)) (take c (row (U.H st) j))),
      norm2 (take c (row (U.W st) u)) + norm2 (take c (row (U.H st) i))
      + norm2 (take c (row (U.H st) j))).
Proof.
  intros HW HH Hu Hi Hj.
  destruct (rect_row _ _ _ _ HW Hu) as [Ew Lw].
  destruct (rect_row _ _ _ _ HH Hi) as [Ei Li].
  destruct (rect_row _ _ _ _ HH Hj) as [Ej Lj].
  induction c as [|c IH]; intros Hc.
  - unfold for_range, norm2, dot, sum. simpl. f_equal. f_equal; lra.
  - rewrite for_range_S, IH by lia. simpl.
    destruct (lookup_lt_is_Some_2 (row (U.W st) u) c) as [w Hw]; [lia|].
    destruct (lookup_lt_is_Some_2 (row (U.H st) i) c) as [hi Hhi]; [lia|].
    destruct (lookup_lt_is_Some_2 (row (U.H st) j) c) as [hj Hhj]; [lia|].
    unfold U.forward_step.
    rewrite (proj2 (get2_Ok (U.W st) u c w)) by eauto.
    rewrite (proj2 (get2_Ok (U.H st) i c hi)) by eauto.
    rewrite (proj2 (get2_Ok (U.H st) j c hj)) by eauto.
    simpl.
    rewrite (take_S_r _ _ _ Hw), (take_S_r _ _ _ Hhi), (take_S_r _ _ _ Hhj).
    unfold norm2.
    rewrite vsub_snoc by (rewrite !length_take; lia).
    rewrite !dot_snoc by (rewrite ?length_vsub, !length_take; rewrite ?length_take; lia).
    unfold Bpr.square. f_equal. f_equal; lra.
Qed.

Lemma forward_full n m K st u i j :
  rect n K (U.W st) -> rect m K (U.H st) ->
  (u < n)%nat -> (i < m)%nat -> (j < m)%nat ->
  for_range (shape1 (U.W st)) (U.forward_step st u i j) (0, 0) =
  Ok (dot (row (U.W st) u) (vsub (row (U.H st) i) (row (U.H st) j)),
      norm2 (row (U.W st) u) + norm2 (row (U.H st) i) + norm2 (row (U.H st) j)).
Proof.
  intros HW HH Hu Hi Hj.
  rewrite (rect_shape1 _ _ _ _ HW Hu).
  rewrite (forward_loop n m K) by (auto; lia).
  destruct (rect_row _ _ _ _ HW Hu) as [_ Lw].
  destruct (rect_row _ _ _ _ HH Hi) as [_ Li].
  destruct (rect_row _ _ _ _ HH Hj) as [_ Lj].
  rewrite !take_ge by lia. reflexivity.
Qed.

Lemma loss_without_update_eq n m K st u i j :
  rect n K (U.W st) -> rect m K (U.H st) ->
  (u < n)%nat -> (i < m)%nat -> (j < m)%nat ->
  U.loss st u i j false = Ok (st, bpr_loss st u i j) /\
  U.call_loss u i j false st = (st, Ok (bpr_loss st u i j)).
Proof.
  intros HW HH Hu Hi Hj.
  assert (E : U.loss st u i j false = Ok (st, bpr_loss st u i j)).
  { unfold U.loss. rewrite (forward_full n m K) by assumption. reflexivity. }
  split; [exact E|]. unfold U.call_loss. rewrite E. reflexivity.
Qed.

Lemma rect_zeros2 n K (a : list (list R)) :
  rect n K a -> zeros2 (shape0 a) (shape1 a) = zeros2 n K /\ rect n K (zeros2 n K).
Proof.
  intros [Hn Hf]. unfold zeros2, shape0. split.
  - destruct a as [|r a]; simpl in *; subst n; [reflexivity|].
    inversion Hf; subst. reflexivity.
  - split; [apply length_replicate|]. apply Forall_replicate, length_replicate.
Qed.

Lemma init_wf n m K W0 H0 lr wd :
  rect n K W0 -> rect m K H0 -> wf n m K (U.init W0 H0 lr wd).
Proof.
  intros HW HH. unfold wf, U.init; cbn.
  destruct (rect_zeros2 _ _ _ HW) as [-> ?], (rect_zeros2 _ _ _ HH) as [-> ?]. auto 10.
Qed.

Lemma for_range_first {S : Type} (c : nat) (body : nat -> S -> outcome S) (s s' : S) :
  for_range (Datatypes.S c) body s = Ok s' -> exists s1, body 0%nat s = Ok s1.
Proof.
  unfold for_range. simpl. destruct (body 0%nat s); simpl; try discriminate. eauto.
Qed.

Lemma loss_Ok_in_bounds n m K st u i j update r :
  rect n K (U.W st) -> rect m K (U.H st) -> (0 < shape1 (U.W st))%nat ->
  U.loss st u i j update = Ok r -> (u < n)%nat /\ (i < m)%nat /\ (j < m)%nat.
Proof.
  intros [HnW _] [HnH _] HK E. unfold U.loss in E.
  apply bind_Ok in E as (acc & E & _).
  destruct (shape1 (U.W st)) as [|c]; [lia|].
  apply for_range_first in E as (s1 & E). unfold U.forward_step in E.
  apply bind_Ok in E as (w & E1 & E). apply bind_Ok in E as (hi & E2 & E).
  apply bind_Ok in E as (hj & E3 & _).
  apply get2_Ok in E1 as (? & E1 & _), E2 as (? & E2 & _), E3 as (? & E3 & _).
  apply lookup_lt_Some in E1, E2, E3. lia.
Qed.

Lemma loss_preserves n m K st u i j update st' l :
  wf n m K st -> U.loss st u i j update = Ok (st', l) ->
  wf n m K st' /\ same_hyper st st'.
Proof.
  intros Hwf E.
  destruct (Nat.eq_dec (shape1 (U.W st)) 0%nat) as [HK|HK].
  - unfold U.loss in E. rewrite HK in E. unfold for_range in E. simpl in E.
    destruct update; simpl in E; injection E as <- _; split; auto; repeat split.
  - pose proof Hwf as (HW & _ & _ & HH & _).
    destruct (loss_Ok_in_bounds n m K st u i j update _ HW HH ltac:(lia) E) as (Hu & Hi & Hj).
    unfold U.loss in E. apply bind_Ok in E as (acc & _ & E).
    destruct update; simpl in E.
    + apply bind_Ok in E as (st1 & E & [= <- _]).
      rewrite (rect_shape1 _ _ _ _ HW Hu) in E.
      destruct (update_loop n m K (1 / (1 + exp acc.1)) u i j st K Hwf Hu Hi Hj (Nat.le_refl K))
        as (st2 & E2 & Hwf2 & Hh & _).
      rewrite E in E2. injection E2 as <-. auto.
    + injection E as <- _. split; auto; repeat split.
Qed.

Lemma reachable_inv n m K s0 st :
  wf n m K s0 -> reachable s0 st -> wf n m K st /\ same_hyper s0 st.
Proof.
  intros Hwf Hr. induction Hr as [|st u i j update st' l _ [IHw IHh] E].
  - split; auto; repeat split.
  - destruct (loss_preserves n m K st u i j update st' l IHw E) as [Hw' Hh'].
    split; [exact Hw'|].
    destruct IHh as (?&?&?&?&?), Hh' as (?&?&?&?&?). repeat split; congruence.
Qed.

Lemma pow_lt_self (b : R) (t : nat) : 0 < b < 1 -> (2 <= t)%nat -> b ^ t < b.
Proof.
  intros Hb Ht. induction t as [|t IH]; [lia|].
  destruct (Nat.eq_dec t 1%nat) as [->|Hne].
  - simpl. nra.
  - assert (b ^ t < b) by (apply IH; lia). simpl.
    assert (0 < b ^ t) by (apply pow_lt; lra). nra.
Qed.

(** * Sampling, passes over the samples and training *)

Lemma nonzero_from_spec (v : list R) (k j : nat) :
  j ∈ nonzero_from k v <-> exists x, (k <= j)%nat /\ v !! (j - k)%nat = Some x /\ x <> 0.
Proof.
  revert k. induction v as [|y v IH]; intros k; simpl.
  - split; [intros Hin; inversion Hin|intros (x & _ & E & _); discriminate].
  - destruct (Req_dec_T y 0) as [Hy|Hy].
    + rewrite IH. split.
      * intros (x & Hk & E & Hx). exists x. split; [lia|]. split; [|done].
        replace (j - k)%nat with (S (j - S k)) by lia. exact E.
      * intros (x & Hk & E & Hx). destruct (decide (j = k)) as [->|Hne].
        { rewrite Nat.sub_diag in E. simpl in E. congruence. }
        exists x. split; [lia|]. split; [|done].
        replace (j - k)%nat with (S (j - S k)) in E by lia. exact E.
    + rewrite elem_of_cons, IH. split.
      * intros [->|(x & Hk & E & Hx)].
        { exists y. rewrite Nat.sub_diag. auto. }
        exists x. split; [lia|]. split; [|done].
        replace (j - k)%nat with (S (j - S k)) by lia. exact E.
      * intros (x & Hk & E & Hx). destruct (decide (j = k)) as [->|Hne]; [by left|].
        right. exists x. split; [lia|]. split; [|done].
        replace (j - k)%nat with (S (j - S k)) in E by lia. exact E.
Qed.

Lemma nonzero_from_NoDup (v : list R) (k : nat) : NoDup (nonzero_from k v).
Proof.
  revert k. induction v as [|y v IH]; intros k; simpl; [constructor|].
  destruct (Req_dec_T y 0); [apply IH|].
  constructor; [|apply IH].
  rewrite nonzero_from_spec. intros (x & Hk & _). lia.
Qed.

Lemma negative_candidates_spec (Xu : list R) (j : nat) :
  j ∈ Bpr.negative_candidates Xu <-> exists x, Xu !! j = Some x /\ x <> 1.
Proof.
  unfold Bpr.negative_candidates, nonzero. rewrite nonzero_from_spec.
  unfold sub_scalar. rewrite Nat.sub_0_r, list_lookup_fmap. split.
  - intros (x & _ & E & Hx). destruct (Xu !! j) as [y|]; simpl in E; [|discriminate].
    injection E as <-. exists y. split; [done|lra].
  - intros (x & E & Hx). exists (x - 1). rewrite E. simpl. repeat split; [lia|lra].
Qed.

Lemma negative_candidates_NoDup (Xu : list R) : NoDup (Bpr.negative_candidates Xu).
Proof. apply nonzero_from_NoDup. Qed.

Lemma negative_candidates_nil (Xu : list R) :
  Bpr.negative_candidates Xu = [] <-> Forall (fun x => x = 1) Xu.
Proof.
  split.
  - intros E. apply Forall_lookup. intros j x Hx.
    destruct (Req_dec_T x 1) as [|Hne]; [done|].
    assert (Hin : j ∈ Bpr.negative_candidates Xu) by (apply negative_candidates_spec; eauto).
    rewrite E in Hin. inversion Hin.
  - intros HF. destruct (Bpr.negative_candidates Xu) as [|j l] eqn:E; [done|].
    assert (Hin : j ∈ Bpr.negative_candidates Xu) by (rewrite E; left).
    apply negative_candidates_spec in Hin as (x & Hx & Hne).
    rewrite Forall_lookup in HF. specialize (HF j x Hx). done.
Qed.

Lemma random_choice_Ok rand call (a : list nat) (size : Z) :
  a <> [] -> (0 <= size)%Z ->
  Bpr.random_choice rand call a size =
  Ok (map (fun t => default 0%nat (a !! (rand call t `mod` length a)%nat)) (seq 0 (Z.to_nat size))).
Proof.
  intros Ha Hs. unfold Bpr.random_choice.
  destruct (Z.ltb_spec size 0); [lia|].
  destruct (decide _) as [[Hl _]|_]; [|done].
  destruct a; simpl in Hl; [done|lia].
Qed.

Lemma random_choice_empty rand call (size : Z) :
  (0 < size)%Z -> Bpr.random_choice rand call [] size = Raise ValueError.
Proof.
  intros Hs. unfold Bpr.random_choice.
  destruct (Z.ltb_spec size 0); [done|].
  destruct (decide _) as [_|Hn]; [done|]. exfalso. apply Hn. simpl. split; [done|lia].
Qed.

Lemma random_choice_none rand call (a : list nat) :
  Bpr.random_choice rand call a 0 = Ok [].
Proof.
  unfold Bpr.random_choice. simpl.
  destruct (decide _) as [[_ Hn]|_]; [done|]. reflexivity.
Qed.

Lemma for_loop_ext {S : Type} (ks : list nat) (body1 body2 : nat -> S -> outcome S) (s : S) :
  (forall k s, body1 k s = body2 k s) -> for_loop ks body1 s = for_loop ks body2 s.
Proof.
  intros Hb. revert s. induction ks as [|k ks IH]; intros s; simpl; [done|].
  rewrite Hb. destruct (body2 k s); simpl; auto.
Qed.

Lemma sample_negatives_fill rand call0 users X iterations negs0 :
  Bpr.sample_negatives rand call0 users X iterations negs0 =
  for_range (length users)
    (fun l a => bind (negatives_of rand call0 users X iterations l) (set1 a l)) negs0.
Proof.
  unfold Bpr.sample_negatives, for_range. apply for_loop_ext. intros l a.
  unfold negatives_of. destruct (get1 users l) as [u| |]; simpl; try done.
  destruct (index_row X u) as [Xu| |]; simpl; try done.
Qed.

Lemma fill_loop_Ok {A : Type} (f : nat -> outcome A) (n : nat) (a0 : list A) :
  (n <= length a0)%nat -> (forall l, (l < n)%nat -> exists x, f l = Ok x) ->
  exists a, for_range n (fun l a => bind (f l) (set1 a l)) a0 = Ok a /\
    length a = length a0 /\
    (forall l x, (l < n)%nat -> f l = Ok x -> a !! l = Some x) /\
    (forall l, (n <= l)%nat -> a !! l = a0 !! l).
Proof.
  intros Hn Hf. induction n as [|n IH].
  - exists a0. repeat split; auto. intros; lia.
  - destruct IH as (a & E & Hl & Hset & Hrest); [lia|intros; apply Hf; lia|].
    destruct (Hf n ltac:(lia)) as [x Hx].
    exists (<[n := x]> a). rewrite for_range_S, E. simpl. rewrite Hx. simpl.
    split.
    { apply set1_Ok. split; [lia|done]. }
    split; [by rewrite length_insert|].
    split.
    + intros l y Hlt Hy. destruct (decide (l = n)) as [->|Hne].
      * rewrite list_lookup_insert_eq by lia. congruence.
      * rewrite list_lookup_insert_ne by done. apply Hset; [lia|done].
    + intros l Hle. rewrite list_lookup_insert_ne by lia. apply Hrest. lia.
Qed.

Lemma fill_loop_cases {A : Type} (f : nat -> outcome A) (n : nat) (a0 : list A) (e : exn) :
  (n <= length a0)%nat ->
  (forall l, (l < n)%nat -> (exists x, f l = Ok x) \/ f l = Raise e) ->
  (exists a, for_range n (fun l a => bind (f l) (set1 a l)) a0 = Ok a /\
     length a = length a0 /\ forall l, (l < n)%nat -> exists x, f l = Ok x) \/
  for_range n (fun l a => bind (f l) (set1 a l)) a0 = Raise e.
Proof.
  intros Hn Hf. induction n as [|n IH].
  - left. exists a0. repeat split. intros; lia.
  - rewrite for_range_S.
    destruct IH as [(a & E & Hl & Hall)|E]; [lia|intros; apply Hf; lia| |].
    + rewrite E. simpl. destruct (Hf n ltac:(lia)) as [[x Hx]|Hx].
      * left. exists (<[n := x]> a). rewrite Hx. simpl. split.
        { apply set1_Ok. split; [lia|done]. }
        split; [by rewrite length_insert|].
        intros l Hlt. destruct (decide (l = n)) as [->|]; [eauto|apply Hall; lia].
      * right. rewrite Hx. done.
    + right. rewrite E. done.
Qed.

Lemma fill_loop_Raise {A : Type} (f : nat -> outcome A) (n : nat) (a0 : list A) (e : exn) :
  (n <= length a0)%nat ->
  (forall l, (l < n)%nat -> (exists x, f l = Ok x) \/ f l = Raise e) ->
  (exists l, (l < n)%nat /\ f l = Raise e) ->
  for_range n (fun l a => bind (f l) (set1 a l)) a0 = Raise e.
Proof.
  intros Hn Hf (l & Hl & El).
  destruct (fill_loop_cases f n a0 e Hn Hf) as [(a & _ & _ & Hall)|E]; [|done].
  destruct (Hall l Hl) as [x Hx]. congruence.
Qed.

(** ** Passes over the samples *)

Lemma pfor_loop_app {S A : Type} (l1 l2 : list nat) (body : nat -> A -> prog S A) (a : A) (s : S) :
  pfor_loop (l1 ++ l2) body a s = pbind (pfor_loop l1 body a) (pfor_loop l2 body) s.
Proof.
  revert a s. induction l1 as [|k l1 IH]; intros a s; simpl; [reflexivity|].
  unfold pbind in *.
  destruct (body k a s) as [s' [a'| |]]; auto.
Qed.

Lemma pfor_range_S {S A : Type} (n : nat) (body : nat -> A -> prog S A) (a : A) (s : S) :
  pfor_range (Datatypes.S n) body a s = pbind (pfor_range n body a) (body n) s.
Proof.
  unfold pfor_range. rewrite seq_S, pfor_loop_app. simpl.
  unfold pbind. destruct (pfor_loop (seq 0 n) body a s) as [s' [a'| |]]; auto.
  destruct (body n a' s') as [s'' [a''| |]]; reflexivity.
Qed.

Lemma pfor_range_first {S A : Type} (n : nat) (body : nat -> A -> prog S A) (a : A) (s : S) :
  pfor_range (Datatypes.S n) body a s =
  pbind (body 0%nat a) (pfor_loop (seq 1 n) body) s.
Proof. reflexivity. Qed.

Lemma sample_loss_unfold users positives negatives iteration update l loss st u i j :
  get1 users l = Ok u -> get1 positives l = Ok i -> get2 negatives l iteration = Ok j ->
  Bpr.sample_loss users positives negatives iteration update l loss st =
  match U.loss st u i j update with
  | Ok (st', r) => (st', set1 loss l r)
  | Raise e => (st, Raise e)
  | Fault => (st, Fault)
  end.
Proof.
  intros Eu Ei Ej. unfold Bpr.sample_loss, pbind, lift, U.call_loss.
  rewrite Eu, Ei, Ej. destruct (U.loss st u i j update) as [[st' r]| |]; reflexivity.
Qed.

Lemma loss_with_update_Ok n m K st u i j :
  wf n m K st -> (u < n)%nat -> (i < m)%nat -> (j < m)%nat ->
  exists st', U.loss st u i j true = Ok (st', bpr_loss st u i j) /\
    wf n m K st' /\ same_hyper st st'.
Proof.
  intros Hwf Hu Hi Hj. pose proof Hwf as (HW & _ & _ & HH & _).
  destruct (update_loop n m K (1 / (1 + exp (bpr_score st u i j))) u i j st K
              Hwf Hu Hi Hj (Nat.le_refl K)) as (st' & E & Hwf' & Hh & _).
  exists st'. split; [|auto].
  unfold U.loss. rewrite (forward_full n m K) by assumption. cbn.
  rewrite (rect_shape1 _ _ _ _ HW Hu). fold (bpr_score st u i j). rewrite E. reflexivity.
Qed.

Lemma same_hyper_trans s1 s2 s3 : same_hyper s1 s2 -> same_hyper s2 s3 -> same_hyper s1 s3.
Proof. intros (?&?&?&?&?) (?&?&?&?&?). repeat split; congruence. Qed.

Lemma sample_pass_Ok n m K users positives negatives iteration update N loss st :
  wf n m K st -> samples_in_range n m users positives negatives iteration N ->
  (N <= length loss)%nat ->
  exists st' loss',
    pfor_range N (Bpr.sample_loss users positives negatives iteration update) loss st
    = (st', Ok loss') /\
    wf n m K st' /\ same_hyper st st' /\ length loss' = length loss /\
    (update = false -> st' = st).
Proof.
  intros Hwf Hs. induction N as [|N IH]; intros HN.
  - exists st, loss. split; [reflexivity|]. split; [assumption|].
    split; [repeat split|]. split; reflexivity.
  - destruct IH as (st1 & loss1 & E & Hwf1 & Hh1 & Hl1 & Hsame);
      [intros l Hl; apply Hs; lia|lia|].
    destruct (Hs N ltac:(lia)) as (u & i & j & Eu & Ei & Ej & Hu & Hi & Hj).
    rewrite pfor_range_S. unfold pbind. rewrite E.
    rewrite (sample_loss_unfold _ _ _ _ _ _ _ _ u i j Eu Ei Ej).
    destruct update.
    + destruct (loss_with_update_Ok n m K st1 u i j Hwf1 Hu Hi Hj) as (st2 & E2 & Hwf2 & Hh2).
      rewrite E2. exists st2, (<[N := bpr_loss st1 u i j]> loss1).
      split; [f_equal; apply set1_Ok; split; [lia|done]|].
      split; [done|]. split; [by eapply same_hyper_trans|].
      split; [by rewrite length_insert|]. discriminate.
    + pose proof Hwf1 as (HW & _ & _ & HH & _).
      destruct (loss_without_update_eq n m K st1 u i j HW HH Hu Hi Hj) as [E2 _].
      rewrite E2. exists st1, (<[N := bpr_loss st1 u i j]> loss1).
      split; [f_equal; apply set1_Ok; split; [lia|done]|].
      split; [done|]. split; [done|].
      split; [by rewrite length_insert|]. intros _. by apply Hsame.
Qed.

Lemma get2_no_raise {A} (a : list (list A)) u k e : get2 a u k <> Raise e.
Proof. unfold get2, get1, bind. repeat case_match; discriminate. Qed.

Lemma set2_no_raise {A} (a : list (list A)) u k x e : set2 a u k x <> Raise e.
Proof. unfold set2, set1, get1, bind. repeat case_match; discriminate. Qed.

Lemma bind_no_raise {A B} (m : outcome A) (f : A -> outcome B) :
  (forall e, m <> Raise e) -> (forall a e, f a <> Raise e) -> forall e, bind m f <> Raise e.
Proof.
  intros Hm Hf e. destruct m as [a|e0|]; simpl; [apply Hf| |discriminate].
  exfalso. by apply (Hm e0).
Qed.

Lemma for_loop_no_raise {S} (ks : list nat) (body : nat -> S -> outcome S) (s : S) :
  (forall k s e, body k s <> Raise e) -> forall e, for_loop ks body s <> Raise e.
Proof.
  intros Hb. revert s. induction ks as [|k ks IH]; intros s e; simpl; [discriminate|].
  apply bind_no_raise; auto.
Qed.

Lemma update_step_no_raise x u i j k st e : U.update_step x u i j k st <> Raise e.
Proof.
  unfold U.update_step.
  repeat (apply bind_no_raise;
          [intros ?; first [apply get2_no_raise|apply set2_no_raise]|intros ? ?]).
  discriminate.
Qed.

Lemma loss_no_raise st u i j update e : U.loss st u i j update <> Raise e.
Proof.
  unfold U.loss. apply bind_no_raise.
  - intros e'. apply for_loop_no_raise. intros k s e''. unfold U.forward_step.
    repeat (apply bind_no_raise; [intros ?; apply get2_no_raise|intros ? ?]). discriminate.
  - intros acc e'. destruct update; simpl; [|discriminate].
    apply bind_no_raise; [|discriminate].
    intros e''. apply for_loop_no_raise. intros. apply update_step_no_raise.
Qed.

Lemma sample_loss_cases users positives negatives iteration update l loss st :
  let r := Bpr.sample_loss users positives negatives iteration update l loss st in
  (exists loss', r.2 = Ok loss' /\ length loss' = length loss /\ (l < length loss)%nat) \/
  r.2 = Fault.
Proof.
  unfold Bpr.sample_loss, pbind, lift, U.call_loss.
  destruct (get1 users l) as [u| |] eqn:Eu; simpl; auto.
  { destruct (get1 positives l) as [i| |] eqn:Ei; simpl; auto.
    - destruct (get2 negatives l iteration) as [j| |] eqn:Ej; simpl; auto.
      + destruct (U.loss st u i j update) as [[st' r]|e|] eqn:El; simpl; auto.
        * destruct (set1 loss l r) as [loss'| |] eqn:Es; simpl; auto.
          { apply set1_Ok in Es as [Hl ->]. left. exists (<[l:=r]> loss).
            rewrite length_insert. auto. }
          unfold set1 in Es. case_match; discriminate.
        * by apply loss_no_raise in El.
      + by apply get2_no_raise in Ej.
    - unfold get1 in Ei. case_match; discriminate. }
  unfold get1 in Eu. case_match; discriminate.
Qed.

Lemma sample_pass_cases users positives negatives iteration update N loss st :
  let r := pfor_range N (Bpr.sample_loss users positives negatives iteration update) loss st in
  (exists loss', r.2 = Ok loss' /\ length loss' = length loss /\ (N <= length loss)%nat) \/
  r.2 = Fault.
Proof.
  induction N as [|N IH]; simpl.
  - left. exists loss. repeat split. lia.
  - rewrite pfor_range_S. unfold pbind.
    destruct (pfor_range N _ loss st) as [st1 [loss1|e|]] eqn:E; simpl in *.
    + destruct IH as [(loss' & [= <-] & Hl & HN)|?]; [|discriminate].
      destruct (sample_loss_cases users positives negatives iteration update N loss1 st1)
        as [(loss2 & E2 & Hl2 & HN2)|E2].
      * left. exists loss2. split; [exact E2|]. split; lia.
      * right. exact E2.
    + destruct IH as [(loss' & ? & _)|?]; discriminate.
    + right. reflexivity.
Qed.



Lemma accumulate_Ok key (n : nat) (loss : list R) (m : gmap string R) :
  (n <= length loss)%nat -> exists m', Bpr.accumulate key n loss m = Ok m'.
Proof.
  intros Hn. unfold Bpr.accumulate. induction n as [|n IH]; [by exists m|].
  destruct IH as [m1 E]; [lia|]. rewrite for_range_S, E. simpl.
  destruct (lookup_lt_is_Some_2 loss n) as [x Hx]; [lia|].
  rewrite (proj2 (get1_Ok loss n x) Hx). simpl. eauto.
Qed.

Lemma divide_Ok key (n : nat) (m : gmap string R) :
  n <> 0%nat -> exists m', Bpr.divide key n m = Ok m'.
Proof.
  intros Hn. unfold Bpr.divide, checked_div. destruct (decide (n = 0%nat)); [done|].
  simpl. eauto.
Qed.

Lemma divide_by_zero key (m : gmap string R) :
  Bpr.divide key 0 m = Raise ZeroDivisionError.
Proof. reflexivity. Qed.

Lemma epoch_no_samples argsort positives negatives valid X_test iteration s st :
  Bpr.epoch argsort [] positives negatives valid X_test iteration s st = (st, Raise
      ZeroDivisionError).
Proof. reflexivity. Qed.

Lemma pbind_Ok {S A B} (m : prog S A) (f : A -> prog S B) s s' b :
  pbind m f s = (s', Ok b) -> exists s1 a, m s = (s1, Ok a) /\ f a s1 = (s', Ok b).
Proof.
  unfold pbind. destruct (m s) as [s1 [a|e|]]; [eauto|discriminate..].
Qed.

Lemma epoch_Ok argsort n m K users positives negatives iteration loss mt history st :
  wf n m K st -> users <> [] ->
  samples_in_range n m users positives negatives iteration (length users) ->
  length loss = length users ->
  exists st' loss' mt',
    Bpr.epoch argsort users positives negatives None None iteration (loss, mt, history) st
    = (st', Ok (loss', mt', history ++ [mt'])) /\
    wf n m K st' /\ length loss' = length users.
Proof.
  intros Hwf Hne Hs Hl. unfold Bpr.epoch. cbn [fst snd].
  destruct (sample_pass_Ok n m K users positives negatives iteration true (length users)
              loss st Hwf Hs ltac:(lia)) as (st' & loss' & E & Hwf' & _ & Hl' & _).
  unfold pbind at 1. rewrite E.
  destruct (accumulate_Ok "loss" (length users) loss' (<["loss":=0]> mt) ltac:(lia)) as [m1 E1].
  unfold pbind at 1, lift at 1. rewrite E1.
  destruct (divide_Ok "loss" (length users) m1) as [m2 E2].
  { destruct users; [done|simpl; lia]. }
  unfold pbind at 1, lift at 1. rewrite E2.
  exists st', loss', m2. split; [reflexivity|]. split; [done|lia].
Qed.

Lemma int_zeros2_Ok (n : nat) (size : Z) :
  (0 <= size)%Z -> int_zeros2 n size = Ok (replicate n (replicate (Z.to_nat size) 0%nat)).
Proof. intros Hs. unfold int_zeros2. destruct (Z.ltb_spec size 0); [lia|done]. Qed.

Lemma fit_bpr_no_samples argsort rand positives X X_test W H iterations lr wd nt verbose :
  (0 < iterations)%Z ->
  Bpr.fit_bpr argsort rand [] positives X None X_test W H iterations lr wd nt verbose
  = (U.init W H lr wd, Raise ZeroDivisionError).
Proof.
  intros Hit. unfold Bpr.fit_bpr. cbn [length].
  unfold pbind at 1, lift at 1. rewrite int_zeros2_Ok by lia.
  unfold pbind at 1, lift at 1. cbn [replicate Bpr.sample_negatives length for_range seq for_loop].
  unfold pbind at 1, pret at 1.
  destruct (Z.to_nat iterations) as [|T] eqn:ET; [lia|].
  unfold pbind at 1. rewrite pfor_range_first. unfold pbind at 1.
  rewrite epoch_no_samples. reflexivity.
Qed.

Lemma negatives_of_cases rand call0 users X iterations l :
  (0 <= iterations)%Z -> (l < length users)%nat -> Forall (fun u => (u < length X)%nat) users ->
  exists u Xu, users !! l = Some u /\ X !! u = Some Xu /\
    negatives_of rand call0 users X iterations l =
    Bpr.random_choice rand (call0 + l) (Bpr.negative_candidates Xu) iterations.
Proof.
  intros Hit Hl HF.
  destruct (lookup_lt_is_Some_2 users l Hl) as [u Hu].
  rewrite Forall_lookup in HF. pose proof (HF l u Hu) as Hlt.
  destruct (lookup_lt_is_Some_2 X u Hlt) as [Xu HXu].
  exists u, Xu. split; [done|]. split; [done|].
  unfold negatives_of, get1, index_row. rewrite Hu. simpl. rewrite HXu. reflexivity.
Qed.

Lemma sample_negatives_Raise rand call0 users X iterations negs0 :
  (0 < iterations)%Z -> length negs0 = length users ->
  Forall (fun u => (u < length X)%nat) users ->
  (exists l u Xu, users !! l = Some u /\ X !! u = Some Xu /\ Forall (fun x => x = 1) Xu) ->
  Bpr.sample_negatives rand call0 users X iterations negs0 = Raise ValueError.
Proof.
  intros Hit Hlen HF (l & u & Xu & Hu & HXu & Hones).
  rewrite sample_negatives_fill. apply fill_loop_Raise; [lia| |].
  - intros l' Hl'.
    destruct (negatives_of_cases rand call0 users X iterations l' ltac:(lia) Hl' HF)
      as (u' & Xu' & _ & _ & ->).
    destruct (Bpr.negative_candidates Xu') as [|c cs] eqn:Ec.
    + right. apply random_choice_empty. lia.
    + left. rewrite random_choice_Ok by (done || lia). eauto.
  - exists l. split; [by eapply lookup_lt_Some|].
    destruct (negatives_of_cases rand call0 users X iterations l ltac:(lia)
                ltac:(by eapply lookup_lt_Some) HF) as (u' & Xu' & Hu' & HXu' & ->).
    assert (u' = u) as -> by congruence. assert (Xu' = Xu) as -> by congruence.
    rewrite (proj2 (negative_candidates_nil Xu) Hones). apply random_choice_empty. lia.
Qed.

Lemma fit_bpr_sampling_error argsort rand users positives X valid X_test W H iterations lr wd
    nt verbose :
  (0 < iterations)%Z ->
  Forall (fun u => (u < length X)%nat) users ->
  (exists l u Xu, users !! l = Some u /\ X !! u = Some Xu /\ Forall (fun x => x = 1) Xu) ->
  Bpr.fit_bpr argsort rand users positives X valid X_test W H iterations lr wd nt verbose
  = (U.init W H lr wd, Raise ValueError).
Proof.
  intros Hit HF Hex. unfold Bpr.fit_bpr.
  unfold pbind at 1, lift at 1. rewrite int_zeros2_Ok by lia.
  unfold pbind at 1, lift at 1.
  rewrite sample_negatives_Raise; [reflexivity|lia|by rewrite length_replicate|done|done].
Qed.

Lemma random_choice_lookup rand call (a : list nat) (size : Z) (t : nat) :
  a <> [] -> (t < Z.to_nat size)%nat ->
  exists samples, Bpr.random_choice rand call a size = Ok samples /\
    length samples = Z.to_nat size /\
    samples !! t = a !! (rand call t `mod` length a)%nat.
Proof.
  intros Ha Ht. rewrite random_choice_Ok by (done || lia).
  eexists. split; [reflexivity|]. split; [by rewrite length_map, length_seq|].
  rewrite list_lookup_fmap, lookup_seq_lt by done. simpl.
  assert (Hlt : (rand call t `mod` length a < length a)%nat).
  { apply Nat.mod_upper_bound. destruct a; [done|simpl; lia]. }
  destruct (lookup_lt_is_Some_2 a _ Hlt) as [c Hc]. rewrite Hc. reflexivity.
Qed.

Lemma candidates_of_binary_row (Xu : list R) (j : nat) :
  Forall (fun x => x = 0 \/ x = 1) Xu ->
  (j ∈ Bpr.negative_candidates Xu <-> Xu !! j = Some 0).
Proof.
  intros HF. rewrite negative_candidates_spec. rewrite Forall_lookup in HF. split.
  - intros (x & Hx & Hne). destruct (HF j x Hx) as [->| ->]; [done|lra].
  - intros Hx. exists 0. split; [done|lra].
Qed.

Lemma sample_negatives_spec
        rand call0 users (X : list (list R)) iterations (negs0 : list (list nat)) :
  (0 <= iterations)%Z -> length negs0 = length users ->
  Forall (fun u => (u < length X)%nat) users ->
  (forall u Xu, u ∈ users -> X !! u = Some Xu -> exists x, x ∈ Xu /\ x <> 1) ->
  exists negs,
    Bpr.sample_negatives rand call0 users X iterations negs0 = Ok negs /\
    length negs = length users /\
    forall l u Xu, users !! l = Some u -> X !! u = Some Xu ->
      NoDup (Bpr.negative_candidates Xu) /\
      (forall j, j ∈ Bpr.negative_candidates Xu <-> exists x, Xu !! j = Some x /\ x <> 1) /\
      (Forall (fun x => x = 0 \/ x = 1) Xu ->
       forall j, j ∈ Bpr.negative_candidates Xu <-> Xu !! j = Some 0) /\
      exists samples, negs !! l = Some samples /\
        length samples = Z.to_nat iterations /\
        forall t, (t < Z.to_nat iterations)%nat ->
          samples !! t =
          Bpr.negative_candidates Xu
            !! (rand (call0 + l)%nat t `mod` length (Bpr.negative_candidates Xu))%nat.
Proof.
  intros Hit Hlen HF Hcand.
  assert (Hne : forall l u Xu, users !! l = Some u -> X !! u = Some Xu ->
                Bpr.negative_candidates Xu <> []).
  { intros l u Xu Hu HXu E.
    destruct (Hcand u Xu ltac:(by eapply list_elem_of_lookup_2) HXu) as (x & Hin & Hx).
    apply list_elem_of_lookup_1 in Hin as [j Hj].
    assert (Hc : j ∈ Bpr.negative_candidates Xu) by (apply negative_candidates_spec; eauto).
    rewrite E in Hc. inversion Hc. }
  assert (Hf : forall l, (l < length users)%nat ->
               exists x, negatives_of rand call0 users X iterations l = Ok x).
  { intros l Hl.
    destruct (negatives_of_cases rand call0 users X iterations l Hit Hl HF)
      as (u & Xu & Hu & HXu & ->).
    rewrite random_choice_Ok by (eauto || lia). eauto. }
  rewrite sample_negatives_fill.
  destruct (fill_loop_Ok _ (length users) negs0 ltac:(lia) Hf) as (negs & E & Hl & Hset & _).
  exists negs. split; [exact E|]. split; [lia|].
  intros l u Xu Hu HXu.
  split; [apply negative_candidates_NoDup|].
  split; [apply negative_candidates_spec|].
  split; [intros; by apply candidates_of_binary_row|].
  pose proof (lookup_lt_Some _ _ _ Hu) as Hlt.
  destruct (negatives_of_cases rand call0 users X iterations l Hit Hlt HF)
    as (u' & Xu' & Hu' & HXu' & Ef).
  assert (u' = u) as -> by congruence. assert (Xu' = Xu) as -> by congruence.
  pose proof (Hne l u Xu Hu HXu) as Hcne.
  exists (map (fun t => default 0%nat
                 (Bpr.negative_candidates Xu
                    !! (rand (call0 + l)%nat t `mod` length (Bpr.negative_candidates Xu))%nat))
              (seq 0 (Z.to_nat iterations))).
  split.
  { apply Hset; [done|]. rewrite Ef. apply random_choice_Ok; [done|lia]. }
  split; [by rewrite length_map, length_seq|].
  intros t Ht.
  destruct (random_choice_lookup rand (call0 + l) _ iterations t Hcne Ht) as (s & Es & _ & Hs).
  rewrite random_choice_Ok in Es by (done || lia). injection Es as <-. exact Hs.
Qed.

Lemma epochs_Ok argsort n m K users positives negatives T loss mt history st :
  wf n m K st -> users <> [] ->
  (forall it, (it < T)%nat ->
     samples_in_range n m users positives negatives it (length users)) ->
  length loss = length users ->
  exists st' r,
    pfor_range T (Bpr.epoch argsort users positives negatives None None) (loss, mt, history) st
    = (st', Ok r) /\
    wf n m K st' /\ length r.1.1 = length users /\ length r.2 = (length history + T)%nat.
Proof.
  intros Hwf Hne Hs Hl. induction T as [|T IH].
  - exists st, (loss, mt, history). split; [reflexivity|]. cbn. split; [done|]. split; lia.
  - destruct IH as (st1 & [[loss1 mt1] h1] & E & Hwf1 & Hl1 & Hh1); [intros; apply Hs; lia|].
    cbn in Hl1, Hh1.
    destruct (epoch_Ok argsort n m K users positives negatives T loss1 mt1 h1 st1 Hwf1 Hne
                (Hs T ltac:(lia)) Hl1) as (st2 & loss2 & mt2 & E2 & Hwf2 & Hl2).
    exists st2, (loss2, mt2, h1 ++ [mt2]).
    rewrite pfor_range_S. unfold pbind. rewrite E, E2.
    split; [reflexivity|]. cbn. split; [done|]. split; [done|].
    rewrite length_app. simpl. lia.
Qed.

Lemma fit_bpr_returns argsort rand n m K users positives (X : list (list R)) W H
        iterations lr wd nt verbose :
  rect n m X -> rect n K W -> rect m K H ->
  users <> [] -> length positives = length users ->
  Forall (fun u => (u < n)%nat) users -> Forall (fun i => (i < m)%nat) positives ->
  (forall u Xu, u ∈ users -> X !! u = Some Xu -> exists x, x ∈ Xu /\ x <> 1) ->
  (0 <= iterations)%Z ->
  exists st history,
    Bpr.fit_bpr argsort rand users positives X None None W H iterations lr wd nt verbose
    = (st, Ok history) /\ length history = Z.to_nat iterations.
Proof.
  intros HX HW HH Hne Hlp Hu Hp Hcand Hit.
  pose proof HX as [HXn HXf].
  assert (HF : Forall (fun u => (u < length X)%nat) users) by (by rewrite HXn).
  destruct (sample_negatives_spec rand 0 users X iterations
              (replicate (length users) (replicate (Z.to_nat iterations) 0%nat))
              Hit ltac:(by rewrite length_replicate) HF Hcand) as (negs & E & Hln & Hnegs).
  assert (Hs : forall it, (it < Z.to_nat iterations)%nat ->
               samples_in_range n m users positives negs it (length users)).
  { intros it Hlt l Hl.
    destruct (lookup_lt_is_Some_2 users l Hl) as [u Hul].
    destruct (lookup_lt_is_Some_2 positives l ltac:(lia)) as [i Hil].
    rewrite Forall_lookup in Hu, Hp.
    destruct (rect_lookup _ _ _ u HX (Hu l u Hul)) as (Xu & HXu & HlXu).
    destruct (Hnegs l u Xu Hul HXu) as (_ & Hspec & _ & samples & Hsl & Hlen & Hdraw).
    assert (Hcne : Bpr.negative_candidates Xu <> []).
    { intros Ec. destruct (Hcand u Xu ltac:(by eapply list_elem_of_lookup_2) HXu)
        as (x & Hin & Hx).
      apply list_elem_of_lookup_1 in Hin as [j Hj].
      assert (Hc : j ∈ Bpr.negative_candidates Xu) by (apply Hspec; eauto).
      rewrite Ec in Hc. inversion Hc. }
    assert (Hidx : (rand (0 + l)%nat it `mod` length (Bpr.negative_candidates Xu)
                    < length (Bpr.negative_candidates Xu))%nat).
    { apply Nat.mod_upper_bound. destruct (Bpr.negative_candidates Xu); [done|simpl; lia]. }
    destruct (lookup_lt_is_Some_2 _ _ Hidx) as [j Hj].
    exists u, i, j. rewrite !get1_Ok, get2_Ok.
    split; [done|]. split; [done|].
    split; [exists samples; split; [done|]; rewrite (Hdraw it Hlt); exact Hj|].
    split; [eauto|]. split; [eauto|].
    assert (Hjc : j ∈ Bpr.negative_candidates Xu) by (by eapply list_elem_of_lookup_2).
    apply Hspec in Hjc as (x & Hx & _). apply lookup_lt_Some in Hx. lia. }
  destruct (epochs_Ok argsort n m K users positives negs (Z.to_nat iterations)
              (zeros (length users)) ∅ [] (U.init W H lr wd)
              (init_wf n m K W H lr wd HW HH) Hne Hs ltac:(apply length_replicate))
    as (st' & r & Er & _ & _ & Hh).
  exists st', r.2. unfold Bpr.fit_bpr.
  unfold pbind at 1, lift at 1. rewrite int_zeros2_Ok by lia.
  unfold pbind at 1, lift at 1. rewrite E.
  unfold pbind at 1, pret at 1. unfold pbind at 1. rewrite Er.
  split; [reflexivity|]. simpl in Hh. lia.
Qed.

Lemma lift_Ok {S A} (m : outcome A) (s s' : S) a : lift m s = (s', Ok a) -> s' = s /\ m = Ok a.
Proof. unfold lift. intros [= -> ->]. auto. Qed.

Lemma ranks_before_trans v a b c : ranks_before v a b -> ranks_before v b c -> ranks_before v a c.
Proof. unfold ranks_before. intros [?|[? ?]] [?|[? ?]]; [left; lra..|right; split; [lra|lia]]. Qed.

Lemma insert_index_perm v i l : insert_index v i l ≡ₚ i :: l.
Proof.
  induction l as [|j l IH]; simpl; [done|].
  destruct (Rlt_dec _ _); [done|]. rewrite IH. apply Permutation_swap.
Qed.

Lemma insert_index_sorted v i l :
  Forall (fun j => (j < i)%nat) l -> StronglySorted (ranks_before v) l ->
  StronglySorted (ranks_before v) (insert_index v i l).
Proof.
  intros Hlt Hs. induction l as [|j l IH]; simpl.
  - repeat constructor.
  - apply StronglySorted_cons in Hs as [Hj Hs]. apply Forall_cons in Hlt as [Hji Hlt].
    destruct (Rlt_dec (value_at v i) (value_at v j)) as [Hv|Hv].
    + apply StronglySorted_cons. split; [|by apply StronglySorted_cons].
      apply Forall_cons. split; [by left|].
      eapply Forall_impl; [exact Hj|]. intros x Hx. simpl in Hx.
      apply (ranks_before_trans v i j x); [by left|done].
    + apply StronglySorted_cons. split; [|by apply IH].
      rewrite insert_index_perm. apply Forall_cons. split; [|done].
      unfold ranks_before. destruct (Rlt_dec (value_at v j) (value_at v i)); [by left|].
      right. split; [lra|done].
Qed.

Lemma argsort_prefix v c :
  foldl (fun sorted i => insert_index v i sorted) [] (seq 0 c) ≡ₚ seq 0 c /\
  StronglySorted (ranks_before v)
    (foldl (fun sorted i => insert_index v i sorted) [] (seq 0 c)).
Proof.
  induction c as [|c [IHp IHs]]; [split; [done|constructor]|].
  rewrite seq_S, foldl_snoc. simpl. split.
  - rewrite insert_index_perm, IHp. rewrite Permutation_app_comm. done.
  - apply insert_index_sorted; [|done]. rewrite IHp.
    apply Forall_forall. intros j Hj. apply elem_of_seq in Hj. lia.
Qed.

Lemma stable_argsort_perm v : stable_argsort v ≡ₚ seq 0 (length v).
Proof. apply argsort_prefix. Qed.

Lemma stable_argsort_sorted v : StronglySorted (ranks_before v) (stable_argsort v).
Proof. apply argsort_prefix. Qed.

Lemma StronglySorted_weaken {A} (R1 R2 : relation A) l :
  (forall x y, R1 x y -> R2 x y) -> StronglySorted R1 l -> StronglySorted R2 l.
Proof.
  intros HR. induction 1 as [|x l Hs IH Hx]; constructor; [exact IH|].
  eapply Forall_impl; [exact Hx|]. intros y. apply HR.
Qed.

Lemma stable_argsort_sorts : sorts stable_argsort.
Proof.
  intros v. split; [apply stable_argsort_perm|].
  apply (StronglySorted_weaken (ranks_before v)); [|apply stable_argsort_sorted].
  unfold ranks_before. intros a b [?|[? _]]; lra.
Qed.

(** Position [a] comes before position [b] in the increasing order of the
    values, positions of equal value in decreasing order. *)
Lemma insert_index_before_perm v i l : insert_index_before v i l ≡ₚ i :: l.
Proof.
  induction l as [|j l IH]; simpl; [done|].
  destruct (Rle_dec _ _); [done|]. rewrite IH. apply Permutation_swap.
Qed.

Lemma insert_index_before_sorted v i l :
  StronglySorted (fun a b => value_at v a <= value_at v b) l ->
  StronglySorted (fun a b => value_at v a <= value_at v b) (insert_index_before v i l).
Proof.
  intros Hs. induction l as [|j l IH]; simpl.
  - repeat constructor.
  - apply StronglySorted_cons in Hs as [Hj Hs].
    destruct (Rle_dec (value_at v i) (value_at v j)) as [Hv|Hv].
    + apply StronglySorted_cons. split; [|by apply StronglySorted_cons].
      apply Forall_cons. split; [exact Hv|].
      eapply Forall_impl; [exact Hj|]. intros x Hx. simpl in Hx. lra.
    + apply StronglySorted_cons. split; [|by apply IH].
      rewrite insert_index_before_perm. apply Forall_cons. split; [lra|done].
Qed.

Lemma reversing_argsort_sorts : sorts reversing_argsort.
Proof.
  intros v. unfold reversing_argsort.
  assert (H : forall c,
            foldl (fun sorted i => insert_index_before v i sorted) [] (seq 0 c) ≡ₚ seq 0 c /\
            StronglySorted (fun a b => value_at v a <= value_at v b)
              (foldl (fun sorted i => insert_index_before v i sorted) [] (seq 0 c))).
  { induction c as [|c [IHp IHs]]; [split; [done|constructor]|].
    rewrite seq_S, foldl_snoc. simpl. split.
    - rewrite insert_index_before_perm, IHp. rewrite Permutation_app_comm. done.
    - by apply insert_index_before_sorted. }
  apply H.
Qed.

Lemma StronglySorted_reverse {A} (R : relation A) l :
  StronglySorted R l -> StronglySorted (flip R) (reverse l).
Proof.
  induction 1 as [|x l Hs IH Hx]; [apply SSorted_nil|].
  rewrite reverse_cons. apply StronglySorted_app_2.
  - intros x1 x2 H1 H2. apply list_elem_of_singleton in H2 as ->.
    rewrite elem_of_reverse in H1. rewrite Forall_forall in Hx. unfold flip. by apply Hx.
  - done.
  - repeat constructor.
Qed.

Lemma StronglySorted_lookup {A} (R : relation A) l p q a b :
  StronglySorted R l -> (p < q)%nat -> l !! p = Some a -> l !! q = Some b -> R a b.
Proof.
  intros Hs. revert p q. induction Hs as [|x l Hs IH Hx]; intros p q Hpq Ha Hb.
  - by rewrite lookup_nil in Ha.
  - destruct q as [|q]; [lia|]. simpl in Hb. destruct p as [|p].
    + simpl in Ha. injection Ha as ->. rewrite Forall_forall in Hx.
      apply Hx. by eapply list_elem_of_lookup_2.
    + simpl in Ha. apply (IH p q); [lia|done..].
Qed.

Lemma fastmf_fit_glove_no_samples model GloVeModel forward backward
      context_words counts cW cb xW xb iterations lr x_max alpha wd nt verbose :
  (0 < iterations)%Z ->
  Fastmf.fit_glove model GloVeModel forward backward [] context_words counts cW cb xW xb
    iterations lr x_max alpha wd nt verbose
  = (GloVeModel cW xW cb xb x_max alpha lr nt, Raise ZeroDivisionError).
Proof.
  intros Hit. unfold Fastmf.fit_glove. cbn [length].
  destruct (Z.to_nat iterations) as [|T] eqn:ET; [lia|].
  unfold pbind at 1. rewrite pfor_range_first. reflexivity.
Qed.

Lemma cymf_fit_glove_no_samples model GloVeModel forward backward
      context_words counts cW cb xW xb num_epochs lr x_max alpha nt verbose :
  (0 < num_epochs)%Z ->
  Cymf._fit_glove model GloVeModel forward backward [] context_words counts cW cb xW xb
    num_epochs lr x_max alpha nt verbose
  = (GloVeModel cW xW cb xb x_max alpha lr nt, Raise ZeroDivisionError).
Proof.
  intros Hit. unfold Cymf._fit_glove. cbn [length].
  destruct (Z.to_nat num_epochs) as [|T] eqn:ET; [lia|].
  unfold pbind at 1. rewrite pfor_range_first. reflexivity.
Qed.

Lemma rect_tabulate2 n k f : rect n k (tabulate2 n k f).
Proof.
  unfold rect, tabulate2. split; [by rewrite length_map, length_seq|].
  apply Forall_fmap, Forall_forall. intros u _. simpl. by rewrite length_map, length_seq.
Qed.

Lemma length_tabulate1 n f : length (tabulate1 n f) = n.
Proof. unfold tabulate1. by rewrite length_map, length_seq. Qed.

Lemma add_is_ok (A B : list (list R)) :
  is_ok (add A B) <-> (length A = length B \/ length A = 1%nat \/ length B = 1%nat).
Proof.
  unfold add, broadcast_rows.
  destruct (decide (length A = length B)); [simpl; tauto|].
  destruct (decide (length A = 1%nat)); [simpl; tauto|].
  destruct (decide (length B = 1%nat)); [simpl; tauto|].
  simpl. tauto.
Qed.

Lemma add_same_rows (A B : list (list R)) :
  length A = length B ->
  add A B = Ok (zip_with (zip_with Rplus) A B).
Proof.
  intros E. unfold add, broadcast_rows. destruct (decide _); [|done]. simpl. f_equal.
  clear. revert B. induction A as [|a A IH]; intros [|b B]; simpl; [done..|]. by rewrite IH.
Qed.

Lemma get1_is_ok {A} (b : list A) j : is_ok (get1 b j) <-> (j < length b)%nat.
Proof.
  unfold get1. destruct (b !! j) eqn:E; simpl.
  - apply lookup_lt_Some in E. tauto.
  - apply lookup_ge_None in E. split; [tauto|lia].
Qed.

Lemma fastmf_allocate_sparse rnd cls r c self :
  Fastmf.allocate rnd (spmatrix cls r c) self =
  (Fastmf.GloVe.set_bias (Fastmf.initial_vector rnd 1 r (Fastmf.GloVe.num_components self))
     (Fastmf.GloVe.set_W (Fastmf.initial_matrix rnd 0 r (Fastmf.GloVe.num_components self)) self),
   Ok (Fastmf.initial_matrix rnd 0 r (Fastmf.GloVe.num_components self),
       Fastmf.initial_vector rnd 1 r (Fastmf.GloVe.num_components self),
       Fastmf.initial_matrix rnd 2 c (Fastmf.GloVe.num_components self),
       Fastmf.initial_vector rnd 3 r (Fastmf.GloVe.num_components self))).
Proof. reflexivity. Qed.

Lemma cymf_allocate_sparse rnd cls r c self :
  Cymf.allocate rnd (spmatrix cls r c) self =
  (Cymf.GloVe.set_bias (Cymf.initial_vector rnd 1 r (Cymf.GloVe.num_components self))
     (Cymf.GloVe.set_W (Cymf.initial_matrix rnd 0 r (Cymf.GloVe.num_components self)) self),
   Ok (Cymf.initial_matrix rnd 0 r (Cymf.GloVe.num_components self),
       Cymf.initial_vector rnd 1 r (Cymf.GloVe.num_components self),
       Cymf.initial_matrix rnd 2 c (Cymf.GloVe.num_components self),
       Cymf.initial_vector rnd 3 r (Cymf.GloVe.num_components self))).
Proof. reflexivity. Qed.

Lemma length_tabulate2 n k f : length (tabulate2 n k f) = n.
Proof. unfold tabulate2. by rewrite length_map, length_seq. Qed.

Lemma cymf_fit_rejects model GloVeModel forward backward cW cb xW cpucount rnd samples
      X num_epochs num_threads verbose self :
  isinstance_lil_csr_csc X = false ->
  Cymf.GloVe_fit model GloVeModel forward backward cW cb xW cpucount rnd samples
    X num_epochs num_threads verbose self
  = (self, Raise (if is_None X then ValueError else TypeError)).
Proof.
  intros HX. unfold Cymf.GloVe_fit, Cymf.validate. rewrite HX.
  destruct (is_None X); reflexivity.
Qed.

Lemma cymf_fit_Ok_shape model GloVeModel forward backward cW cb xW cpucount rnd samples
      cls r c num_epochs num_threads verbose self self' :
  Cymf.GloVe_fit model GloVeModel forward backward cW cb xW cpucount rnd samples
    (spmatrix cls r c) num_epochs num_threads verbose self = (self', Ok tt) ->
  r = c \/ r = 1%nat \/ c = 1%nat.
Proof.
  unfold Cymf.GloVe_fit. intros E.
  apply pbind_Ok in E as (s1 & [] & _ & E).
  apply pbind_Ok in E as (s2 & a & Ea & E).
  rewrite cymf_allocate_sparse in Ea. injection Ea as <- <-. cbn [fst snd] in E.
  apply pbind_Ok in E as (s3 & smp & _ & E).
  apply pbind_Ok in E as (s4 & tr & Et & E).
  unfold Cymf.average in E. apply pbind_Ok in E as (s5 & sm & Es & _).
  apply lift_Ok in Es as [_ Es].
  assert (Hok : is_ok (add tr.1 tr.2)) by (by rewrite Es).
  apply add_is_ok in Hok.
  destruct (Cymf._fit_glove _ _ _ _ _ _ _ _ _ _ _ _ _ _ _ _ _) as [md [[]| |]];
    simpl in Et; try discriminate.
  injection Et as _ <-. cbn [fst snd] in Hok.
  unfold Cymf.initial_matrix in Hok. rewrite !length_tabulate2 in Hok. exact Hok.
Qed.

Lemma fastmf_fit_Ok_shape model GloVeModel forward backward cW cb xW cpu rnd samples
      cls r c num_iterations num_threads verbose self self' :
  Fastmf.GloVe_fit model GloVeModel forward backward cW cb xW cpu rnd samples
    (spmatrix cls r c) num_iterations num_threads verbose self = (self', Ok tt) ->
  r = c \/ r = 1%nat \/ c = 1%nat.
Proof.
  unfold Fastmf.GloVe_fit. intros E.
  apply pbind_Ok in E as (s2 & a & Ea & E).
  rewrite fastmf_allocate_sparse in Ea. injection Ea as <- <-. cbn [fst snd] in E.
  apply pbind_Ok in E as (s3 & smp & _ & E).
  apply pbind_Ok in E as (s4 & tr & Et & E).
  unfold Fastmf.average in E. apply pbind_Ok in E as (s5 & sm & Es & _).
  apply lift_Ok in Es as [_ Es].
  assert (Hok : is_ok (add tr.1 tr.2)) by (by rewrite Es).
  apply add_is_ok in Hok.
  destruct (Fastmf.fit_glove _ _ _ _ _ _ _ _ _ _ _ _ _ _ _ _ _ _) as [md [[]| |]];
    simpl in Et; try discriminate.
  injection Et as _ <-. cbn [fst snd] in Hok.
  unfold Fastmf.initial_matrix in Hok. rewrite !length_tabulate2 in Hok. exact Hok.
Qed.


(** * The definitions on small inputs *)

(** Decides the comparisons of real numbers that block a computation. *)
Ltac decide_reals :=
  repeat match goal with
    | |- context [Rlt_dec ?a ?b] => destruct (Rlt_dec a b); cbn in *; try lra
    | |- context [Req_dec_T ?a ?b] => destruct (Req_dec_T a b); cbn in *; try lra
    end.

Example top10_distinct_scores : Bpr.top10 stable_argsort [3; 1; 2] = [0%nat; 2%nat; 1%nat].
Proof. unfold Bpr.top10, stable_argsort. cbn. unfold value_at. cbn. decide_reals. reflexivity. Qed.

Example top10_equal_scores : Bpr.top10 stable_argsort [1; 2; 2; 3] = [3%nat; 2%nat; 1%nat; 0%nat].
Proof. unfold Bpr.top10, stable_argsort. cbn. unfold value_at. cbn. decide_reals. reflexivity. Qed.

Example candidates_of_a_row : Bpr.negative_candidates [0; 1; 0; 5] = [0%nat; 2%nat; 3%nat].
Proof.
  unfold Bpr.negative_candidates, nonzero, sub_scalar. simpl. decide_reals. reflexivity.
Qed.

Example add_broadcasts_one_row :
  add [[1; 2]] [[1; 1]; [2; 2]] = Ok [[1 + 1; 2 + 1]; [1 + 2; 2 + 2]].
Proof. reflexivity. Qed.

Example add_rejects_three_and_two_rows :
  add [[1; 2]; [1; 2]; [0; 0]] [[1; 1]; [2; 2]] = Raise ValueError.
Proof. reflexivity. Qed.

Example non_positive_num_threads :
  Cymf.resolve_num_threads 4 (-1) = 4%Z /\ Fastmf.resolve_num_threads 4 (-1) = (-1)%Z.
Proof. split; reflexivity. Qed.

(** * The updaters *)

Lemma cells_upd2 (P : R -> Prop) (a : matrix) u k x :
  cells P a -> P x -> cells P (upd2 a u k x).
Proof.
  intros Ha Hx. unfold cells, upd2. apply Forall_insert; [exact Ha|].
  destruct (a !! u) as [r|] eqn:E; simpl.
  - apply Forall_insert; [|exact Hx]. unfold cells in Ha. rewrite Forall_lookup in Ha. eauto.
  - constructor.
Qed.

Lemma cells_get2 (P : R -> Prop) (a : matrix) u k x :
  cells P a -> get2 a u k = Ok x -> P x.
Proof.
  intros Ha E. apply get2_Ok in E as (r & E1 & E2).
  unfold cells in Ha. rewrite Forall_lookup in Ha. specialize (Ha _ _ E1).
  rewrite Forall_lookup in Ha. eauto.
Qed.

Lemma cells_replicate (P : R -> Prop) n k x : P x -> cells P (replicate n (replicate k x)).
Proof. intros Hx. by apply Forall_replicate, Forall_replicate. Qed.

Lemma upd2_lookup_ne {A} (a : list (list A)) u k x r :
  r <> u -> upd2 a u k x !! r = a !! r.
Proof. intros Hne. unfold upd2. by rewrite list_lookup_insert_ne. Qed.

(** ** [BprAdaGradUpdater] *)

Lemma adagrad_update_step_result n m K x u i j k st :
  adagrad_wf n m K st -> (u < n)%nat -> (i < m)%nat -> (j < m)%nat -> (k < K)%nat ->
  G.update_step x u i j k st = Ok (adagrad_step_result x u i j k st).
Proof.
  intros (HW & HAW & HH & HAH) Hu Hi Hj Hk.
  unfold G.update_step, adagrad_step_result.
  repeat first
    [ erewrite get2_cell by eauto using rect_upd2
    | erewrite set2_upd2 by eauto using rect_upd2
    | progress cbn [bind] ].
  reflexivity.
Qed.

Lemma adagrad_step_result_wf n m K x u i j k st :
  adagrad_wf n m K st -> adagrad_wf n m K (adagrad_step_result x u i j k st).
Proof.
  intros (HW & HAW & HH & HAH).
  unfold adagrad_wf, adagrad_step_result; cbn.
  repeat match goal with |- _ /\ _ => split end; repeat apply rect_upd2; assumption.
Qed.

Lemma adagrad_step_col_other x u i j k k' st :
  k' <> k -> adagrad_col_same k' st (adagrad_step_result x u i j k st).
Proof.
  intros Hne. unfold adagrad_col_same, adagrad_step_result; cbn.
  repeat match goal with |- _ /\ _ => split end; intros r;
    rewrite ?cell_upd2_ne by congruence; reflexivity.
Qed.

Lemma adagrad_step_coord n m K x u i j k st :
  adagrad_wf n m K st -> (u < n)%nat -> (i < m)%nat -> (j < m)%nat -> (k < K)%nat ->
  adagrad_coord_post x u i j k st (adagrad_step_result x u i j k st).
Proof.
  intros (HW & HAW & HH & HAH) Hu Hi Hj Hk.
  unfold adagrad_coord_post, adagrad_update, adagrad_step_result; cbn.
  split; [|intros Hij].
  - rewrite !(cell_upd2_eq n K) by assumption. unfold Bpr.square. auto.
  - assert (Hne1 : (i, k) <> (j, k)) by congruence.
    assert (Hne2 : (j, k) <> (i, k)) by congruence.
    repeat first
      [ rewrite (cell_upd2_eq m K) by (repeat apply rect_upd2; assumption)
      | rewrite (cell_upd2_ne _ _ _ _ _ _ Hne1)
      | rewrite (cell_upd2_ne _ _ _ _ _ _ Hne2) ].
    unfold Bpr.square. auto 10.
Qed.

Lemma adagrad_update_loop n m K x u i j st c :
  adagrad_wf n m K st -> (u < n)%nat -> (i < m)%nat -> (j < m)%nat -> (c <= K)%nat ->
  exists st', for_range c (G.update_step x u i j) st = Ok st' /\
    adagrad_wf n m K st' /\
    G.weight_decay st' = G.weight_decay st /\ G.learning_rate st' = G.learning_rate st /\
    (forall k, (k < c)%nat -> adagrad_coord_post x u i j k st st') /\
    (forall k, (c <= k)%nat -> adagrad_col_same k st st').
Proof.
  intros Hwf Hu Hi Hj. induction c as [|c IH]; intros Hc.
  - exists st. split; [reflexivity|]. split; [assumption|].
    split; [reflexivity|]. split; [reflexivity|].
    split; [intros k Hk; lia|intros k _; repeat split].
  - destruct IH as (st1 & E & Hwf1 & Hwd & Hlr & Hdone & Hrest); [lia|].
    exists (adagrad_step_result x u i j c st1). rewrite for_range_S, E. simpl.
    split; [eapply adagrad_update_step_result; eauto|].
    split; [by apply adagrad_step_result_wf|].
    split; [exact Hwd|]. split; [exact Hlr|].
    split.
    + intros k Hk. destruct (decide (k = c)) as [->|Hne].
      * pose proof (adagrad_step_coord n m K x u i j c st1 Hwf1 Hu Hi Hj Hc) as Hp.
        destruct (Hrest c (Nat.le_refl c)) as (e1 & e2 & e3 & e4).
        unfold adagrad_coord_post in *.
        rewrite ?e1, ?e2, ?e3, ?e4, ?Hwd, ?Hlr in Hp. exact Hp.
      * pose proof (Hdone k ltac:(lia)) as Hp.
        destruct (adagrad_step_col_other x u i j c k st1 Hne) as (e1 & e2 & e3 & e4).
        unfold adagrad_coord_post in *.
        rewrite ?e1, ?e2, ?e3, ?e4. exact Hp.
    + intros k Hk.
      destruct (Hrest k ltac:(lia)) as (e1 & e2 & e3 & e4).
      destruct (adagrad_step_col_other x u i j c k st1 ltac:(lia)) as (f1 & f2 & f3 & f4).
      unfold adagrad_col_same.
      repeat match goal with |- _ /\ _ => split end; intros r; congruence.
Qed.

Lemma adagrad_forward_full n m K st u i j :
  rect n K (G.W st) -> rect m K (G.H st) ->
  (u < n)%nat -> (i < m)%nat -> (j < m)%nat ->
  for_range (shape1 (G.W st)) (G.forward_step st u i j) (0, 0) =
  Ok (dot (row (G.W st) u) (vsub (row (G.H st) i) (row (G.H st) j)),
      norm2 (row (G.W st) u) + norm2 (row (G.H st) i) + norm2 (row (G.H st) j)).
Proof.
  intros HW HH Hu Hi Hj.
  exact (forward_full n m K (U.mk (G.W st) (G.H st) [] [] [] [] 0 0 0 0 0) u i j HW HH Hu Hi Hj).
Qed.

Lemma adagrad_loss_without_update_eq n m K st u i j :
  rect n K (G.W st) -> rect m K (G.H st) ->
  (u < n)%nat -> (i < m)%nat -> (j < m)%nat ->
  G.loss st u i j false = Ok (st, bpr_loss_of (G.W st) (G.H st) (G.weight_decay st) u i j).
Proof.
  intros HW HH Hu Hi Hj.
  unfold G.loss. rewrite (adagrad_forward_full n m K) by assumption. reflexivity.
Qed.

Lemma adagrad_loss_with_update_Ok n m K st u i j :
  adagrad_wf n m K st -> (u < n)%nat -> (i < m)%nat -> (j < m)%nat ->
  exists st',
    G.loss st u i j true = Ok (st', bpr_loss_of (G.W st) (G.H st) (G.weight_decay st) u i j) /\
    adagrad_wf n m K st' /\
    G.weight_decay st' = G.weight_decay st /\ G.learning_rate st' = G.learning_rate st /\
    forall k, (k < K)%nat ->
      adagrad_coord_post
        (1 / (1 + exp (dot (row (G.W st) u) (vsub (row (G.H st) i) (row (G.H st) j)))))
        u i j k st st'.
Proof.
  intros Hwf Hu Hi Hj. pose proof Hwf as (HW & _ & HH & _).
  destruct (adagrad_update_loop n m K
              (1 / (1 + exp (dot (row (G.W st) u) (vsub (row (G.H st) i) (row (G.H st) j)))))
              u i j st K Hwf Hu Hi Hj (Nat.le_refl K))
    as (st' & E & Hwf' & Hwd & Hlr & Hdone & _).
  exists st'. split; [|auto].
  unfold G.loss. rewrite (adagrad_forward_full n m K) by assumption. cbn.
  rewrite (rect_shape1 _ _ _ _ HW Hu). rewrite E. reflexivity.
Qed.

Lemma adagrad_loss_Ok_in_bounds n m K st u i j update r :
  rect n K (G.W st) -> rect m K (G.H st) -> (0 < shape1 (G.W st))%nat ->
  G.loss st u i j update = Ok r -> (u < n)%nat /\ (i < m)%nat /\ (j < m)%nat.
Proof.
  intros [HnW _] [HnH _] HK E. unfold G.loss in E.
  apply bind_Ok in E as (acc & E & _).
  destruct (shape1 (G.W st)) as [|c]; [lia|].
  apply for_range_first in E as (s1 & E). unfold G.forward_step in E.
  apply bind_Ok in E as (w & E1 & E). apply bind_Ok in E as (hi & E2 & E).
  apply bind_Ok in E as (hj & E3 & _).
  apply get2_Ok in E1 as (? & E1 & _), E2 as (? & E2 & _), E3 as (? & E3 & _).
  apply lookup_lt_Some in E1, E2, E3. lia.
Qed.

(** The accumulators never fall: every entry of the arrays after a step
    is an entry before it plus a square. *)
Lemma cells_ge_upd2 (c : R) (a : matrix) n K u k g :
  rect n K a -> (u < n)%nat -> (k < K)%nat ->
  cells (Rle c) a -> cells (Rle c) (upd2 a u k (cell a u k + Bpr.square g)).
Proof.
  intros Hr Hu Hk Ha. apply cells_upd2; [exact Ha|].
  assert (c <= cell a u k).
  { eapply cells_get2; [exact Ha|]. by eapply get2_cell. }
  unfold Bpr.square. nra.
Qed.

Lemma adagrad_step_result_accum n m K x u i j k st :
  adagrad_wf n m K st -> (u < n)%nat -> (i < m)%nat -> (j < m)%nat -> (k < K)%nat ->
  cells (Rle 1) (G.grad_accum_W st) -> cells (Rle 1) (G.grad_accum_H st) ->
  cells (Rle 1) (G.grad_accum_W (adagrad_step_result x u i j k st)) /\
  cells (Rle 1) (G.grad_accum_H (adagrad_step_result x u i j k st)).
Proof.
  intros (HW & HAW & HH & HAH) Hu Hi Hj Hk HcW HcH.
  unfold adagrad_step_result; cbn. split.
  - by apply (cells_ge_upd2 1 _ n K).
  - apply (cells_ge_upd2 1 _ m K); auto using rect_upd2.
    by apply (cells_ge_upd2 1 _ m K).
Qed.

Lemma adagrad_update_loop_accum n m K x u i j st c st' :
  adagrad_wf n m K st -> (u < n)%nat -> (i < m)%nat -> (j < m)%nat -> (c <= K)%nat ->
  cells (Rle 1) (G.grad_accum_W st) -> cells (Rle 1) (G.grad_accum_H st) ->
  for_range c (G.update_step x u i j) st = Ok st' ->
  adagrad_wf n m K st' /\
  cells (Rle 1) (G.grad_accum_W st') /\ cells (Rle 1) (G.grad_accum_H st').
Proof.
  intros Hwf Hu Hi Hj Hc HW HH. revert st'.
  induction c as [|c IH]; intros st' E.
  - injection E as <-. auto.
  - rewrite for_range_S in E. apply bind_Ok in E as (st1 & E1 & E2).
    destruct (IH ltac:(lia) _ E1) as (Hwf1 & HW1 & HH1).
    rewrite (adagrad_update_step_result n m K) in E2 by (auto; lia). injection E2 as <-.
    split; [by apply adagrad_step_result_wf|].
    apply (adagrad_step_result_accum n m K); auto; lia.
Qed.

Lemma adagrad_loss_accum n m K st u i j update st' l :
  adagrad_wf n m K st ->
  cells (Rle 1) (G.grad_accum_W st) -> cells (Rle 1) (G.grad_accum_H st) ->
  G.loss st u i j update = Ok (st', l) ->
  adagrad_wf n m K st' /\
  cells (Rle 1) (G.grad_accum_W st') /\ cells (Rle 1) (G.grad_accum_H st').
Proof.
  intros Hwf HW HH E.
  destruct (Nat.eq_dec (shape1 (G.W st)) 0%nat) as [HK|HK].
  - unfold G.loss in E. rewrite HK in E. unfold for_range in E. simpl in E.
    destruct update; simpl in E; injection E as <- _; auto.
  - pose proof Hwf as (HrW & _ & HrH & _).
    destruct (adagrad_loss_Ok_in_bounds n m K st u i j update _ HrW HrH ltac:(lia) E)
      as (Hu & Hi & Hj).
    unfold G.loss in E. apply bind_Ok in E as (acc & _ & E).
    destruct update; simpl in E.
    + apply bind_Ok in E as (st1 & E & [= <- _]).
      rewrite (rect_shape1 _ _ _ _ HrW Hu) in E.
      eapply (adagrad_update_loop_accum n m K _ u i j st K); eauto.
    + injection E as <- _. auto.
Qed.

Lemma rect_ones2 n K (a : list (list R)) :
  rect n K a -> G.ones2 (shape0 a) (shape1 a) = G.ones2 n K /\ rect n K (G.ones2 n K).
Proof.
  intros [Hn Hf]. unfold G.ones2, shape0. split.
  - destruct a as [|r a]; simpl in *; subst n; [reflexivity|].
    inversion Hf; subst. reflexivity.
  - split; [apply length_replicate|]. apply Forall_replicate, length_replicate.
Qed.

Lemma adagrad_init_wf n m K W0 H0 lr wd :
  rect n K W0 -> rect m K H0 -> adagrad_wf n m K (G.init W0 H0 lr wd).
Proof.
  intros HW HH. unfold adagrad_wf, G.init; cbn.
  destruct (rect_ones2 _ _ _ HW) as [-> ?], (rect_ones2 _ _ _ HH) as [-> ?]. auto 10.
Qed.

Lemma adagrad_reachable_accum n m K W0 H0 lr wd st :
  rect n K W0 -> rect m K H0 -> adagrad_reachable (G.init W0 H0 lr wd) st ->
  adagrad_wf n m K st /\
  cells (Rle 1) (G.grad_accum_W st) /\ cells (Rle 1) (G.grad_accum_H st).
Proof.
  intros HW HH Hr.
  induction Hr as [|st u i j update st' l Hr (IHw & IHW & IHH) E].
  - split; [by apply adagrad_init_wf|]. split; apply cells_replicate; lra.
  - eapply adagrad_loss_accum; eauto.
Qed.

(** ** The rows an update of [BprAdamUpdater] writes *)

Lemma step_result_rows x u i j k st :
  (forall r, r <> u -> row_same_W r st (step_result x u i j k st)) /\
  (forall r, r <> i -> r <> j -> row_same_H r st (step_result x u i j k st)).
Proof.
  unfold row_same_W, row_same_H, step_result; cbn. split.
  - intros r Hr. rewrite !upd2_lookup_ne by done. auto.
  - intros r Hi Hj. rewrite !upd2_lookup_ne by done. auto.
Qed.

Lemma update_loop_rows n m K x u i j st c st' :
  wf n m K st -> (u < n)%nat -> (i < m)%nat -> (j < m)%nat -> (c <= K)%nat ->
  for_range c (U.update_step x u i j) st = Ok st' ->
  wf n m K st' /\
  (forall r, r <> u -> row_same_W r st st') /\
  (forall r, r <> i -> r <> j -> row_same_H r st st').
Proof.
  intros Hwf Hu Hi Hj Hc. revert st'.
  induction c as [|c IH]; intros st' E.
  - injection E as <-. split; [exact Hwf|]. split; intros; repeat split.
  - rewrite for_range_S in E. apply bind_Ok in E as (st1 & E1 & E2).
    destruct (IH ltac:(lia) _ E1) as (Hwf1 & HW1 & HH1).
    rewrite (update_step_result n m K) in E2 by (auto; lia). injection E2 as <-.
    split; [by apply step_result_wf|].
    destruct (step_result_rows x u i j c st1) as [HW2 HH2].
    split.
    + intros r Hr. destruct (HW1 r Hr) as (a1 & a2 & a3), (HW2 r Hr) as (b1 & b2 & b3).
      repeat split; congruence.
    + intros r Hri Hrj.
      destruct (HH1 r Hri Hrj) as (a1 & a2 & a3), (HH2 r Hri Hrj) as (b1 & b2 & b3).
      repeat split; congruence.
Qed.

Lemma loss_rows n m K st u i j update st' l :
  wf n m K st -> U.loss st u i j update = Ok (st', l) ->
  (forall r, r <> u -> row_same_W r st st') /\
  (forall r, r <> i -> r <> j -> row_same_H r st st').
Proof.
  intros Hwf E.
  destruct (Nat.eq_dec (shape1 (U.W st)) 0%nat) as [HK|HK].
  - unfold U.loss in E. rewrite HK in E. unfold for_range in E. simpl in E.
    destruct update; simpl in E; injection E as <- _; split; intros; repeat split.
  - pose proof Hwf as (HrW & _ & _ & HrH & _).
    destruct (loss_Ok_in_bounds n m K st u i j update _ HrW HrH ltac:(lia) E) as (Hu & Hi & Hj).
    unfold U.loss in E. apply bind_Ok in E as (acc & _ & E).
    destruct update; simpl in E.
    + apply bind_Ok in E as (st1 & E & [= <- _]).
      rewrite (rect_shape1 _ _ _ _ HrW Hu) in E.
      eapply (update_loop_rows n m K _ u i j st K) in E; auto. tauto.
    + injection E as <- _. split; intros; repeat split.
Qed.

(** * The evaluation *)

Lemma for_seq_inv {S : Type} (P : nat -> S -> Prop) (a len : nat)
      (body : nat -> S -> outcome S) (s : S) :
  P a s ->
  (forall k s, (a <= k < a + len)%nat -> P k s -> exists s', body k s = Ok s' /\ P (Datatypes.S k) s') ->
  exists s', for_loop (seq a len) body s = Ok s' /\ P (a + len)%nat s'.
Proof.
  revert a s. induction len as [|len IH]; intros a s H0 Hstep.
  - exists s. rewrite Nat.add_0_r. auto.
  - simpl. destruct (Hstep a s ltac:(lia) H0) as (s1 & E1 & H1). rewrite E1. simpl.
    destruct (IH (Datatypes.S a) s1 H1) as (s' & E & H').
    { intros k s2 Hk. apply Hstep. lia. }
    exists s'. split; [exact E|]. by replace (a + Datatypes.S len)%nat with (Datatypes.S a + len)%nat by lia.
Qed.

Lemma for_range_inv {S : Type} (P : nat -> S -> Prop) (n : nat)
      (body : nat -> S -> outcome S) (s : S) :
  P 0%nat s ->
  (forall k s, (k < n)%nat -> P k s -> exists s', body k s = Ok s' /\ P (Datatypes.S k) s') ->
  exists s', for_range n body s = Ok s' /\ P n s'.
Proof.
  intros H0 Hstep. apply (for_seq_inv P 0 n body s H0).
  intros k s1 Hk. apply Hstep. lia.
Qed.

Lemma get2_value_at (X : matrix) i (Xi : vector) a :
  X !! i = Some Xi -> (a < length Xi)%nat -> get2 X i a = Ok (value_at Xi a).
Proof.
  intros E Ha. apply get2_Ok. exists Xi. split; [exact E|].
  unfold value_at. destruct (lookup_lt_is_Some_2 Xi a Ha) as [x ->]. reflexivity.
Qed.

Lemma hits_S (t : list nat) (Xi : vector) c a :
  t !! c = Some a -> hits t Xi (Datatypes.S c) = hits t Xi c ++ [value_at Xi a].
Proof. intros E. unfold hits. by rewrite (take_S_r _ _ _ E), map_app. Qed.

Lemma take_lookup_Some {A} (t : list A) k c a :
  (c < k)%nat -> t !! c = Some a -> take k t !! c = Some a.
Proof. intros Hc E. by rewrite lookup_take_lt. Qed.

Lemma get1_lookup {A} (l : list A) i x : l !! i = Some x -> get1 l i = Ok x.
Proof. apply get1_Ok. Qed.

Lemma get1_insert_eq {A} (l : list A) i x :
  (i < length l)%nat -> get1 (<[i := x]> l) i = Ok x.
Proof. intros Hi. apply get1_Ok. by apply list_lookup_insert_eq. Qed.

Lemma set1_lt {A} (l : list A) i x :
  (i < length l)%nat -> set1 l i x = Ok (<[i := x]> l).
Proof. intros Hi. apply set1_Ok. auto. Qed.

(** The inner loop of [recall] on row [i]. *)
Lemma recall_inner (tops : list (list nat)) (X : matrix) m i t Xi k (ret : vector) :
  tops !! i = Some t -> X !! i = Some Xi -> length Xi = m ->
  (k <= length t)%nat -> Forall (fun a => (a < m)%nat) (take k t) ->
  (i < length ret)%nat ->
  for_range k (fun j ret =>
             a <- get2 tops i j ;;
             x <- get2 X i a ;;
             r <- get1 ret i ;;
             set1 ret i (r + x)) ret
  = Ok (<[i := value_at ret i + sum (hits t Xi k)]> ret).
Proof.
  intros Et EX Hm Hk Hin Hi.
  set (body := fun (j : nat) (ret : vector) => _).
  destruct (for_range_inv
              (fun c ret' => ret' = <[i := value_at ret i + sum (hits t Xi c)]> ret)
              k body ret) as (ret' & E & ->); [| |exact E].
  - unfold hits. rewrite take_0. simpl. rewrite Rplus_0_r.
    unfold value_at. destruct (lookup_lt_is_Some_2 ret i Hi) as [r Hr]. rewrite Hr. simpl.
    by rewrite list_insert_id.
  - intros c ret1 Hc ->.
    destruct (lookup_lt_is_Some_2 t c ltac:(lia)) as [a Ha].
    assert (Ham : (a < m)%nat).
    { rewrite Forall_lookup in Hin. apply (Hin c). by apply take_lookup_Some. }
    eexists. split; [|reflexivity]. unfold body.
    rewrite (proj2 (get2_Ok tops i c a)) by eauto. cbn [bind].
    rewrite (get2_value_at X i Xi a) by (auto; lia). cbn [bind].
    rewrite get1_insert_eq by exact Hi. cbn [bind].
    rewrite set1_lt by (by rewrite length_insert).
    rewrite list_insert_insert_eq. do 2 f_equal.
    rewrite (hits_S t Xi c a Ha), sum_snoc. lra.
Qed.

Lemma recall_Ok (N m k : nat) (tops : list (list nat)) (X : matrix) :
  rect N m X -> top_lists N m k tops ->
  exists ret, Bpr.recall tops X k = Ok ret /\ length ret = N /\
    forall i t Xi, tops !! i = Some t -> X !! i = Some Xi ->
      ret !! i = Some (recall_row t Xi k).
Proof.
  intros [HN HX] [Ht Htop]. unfold Bpr.recall, shape0. rewrite HN.
  rewrite Forall_lookup in HX. rewrite Forall_lookup in Htop.
  set (body := fun (i : nat) (ret : vector) => _).
  destruct (for_range_inv
              (fun c (ret : vector) => length ret = N /\
                 (forall i, (c <= i < N)%nat -> ret !! i = Some 0) /\
                 (forall i t Xi, (i < c)%nat -> tops !! i = Some t -> X !! i = Some Xi ->
                    ret !! i = Some (recall_row t Xi k)))
              N body (zeros N)) as (ret & E & Hl & _ & Hdone).
  - unfold zeros. split; [apply length_replicate|]. split.
    + intros i Hi. apply lookup_replicate_2. lia.
    + intros i t Xi Hi. lia.
  - intros c ret Hc (Hl & Hrest & Hdone').
    destruct (lookup_lt_is_Some_2 X c ltac:(lia)) as [Xi EX].
    destruct (lookup_lt_is_Some_2 tops c ltac:(lia)) as [t Et].
    destruct (Htop _ _ Et) as (Hk & _ & Hin).
    pose proof (HX _ _ EX) as Hm.
    unfold body.
    rewrite (get1_lookup (map sum X) c (sum Xi)) by (by rewrite list_lookup_fmap, EX).
    cbn [bind].
    assert (Hstep : forall v, length (<[c := v]> ret) = N /\
              (forall i, (Datatypes.S c <= i < N)%nat -> <[c := v]> ret !! i = Some 0) /\
              (v = recall_row t Xi k ->
               forall i t0 Xi0, (i < Datatypes.S c)%nat -> tops !! i = Some t0 ->
                 X !! i = Some Xi0 -> <[c := v]> ret !! i = Some (recall_row t0 Xi0 k))).
    { intros v. split; [by rewrite length_insert|]. split.
      - intros i Hi. rewrite list_lookup_insert_ne by lia. apply Hrest. lia.
      - intros -> i t0 Xi0 Hi Et0 EX0. destruct (decide (i = c)) as [->|Hne].
        + rewrite list_lookup_insert_eq by lia. congruence.
        + rewrite list_lookup_insert_ne by lia. apply (Hdone' i); auto. lia. }
    destruct (Req_dec_T (sum Xi) 0) as [Hz|Hnz].
    + exists (<[c := 0]> ret). split; [apply set1_lt; lia|].
      destruct (Hstep 0) as (h1 & h2 & h3). split; [exact h1|]. split; [exact h2|].
      apply h3. unfold recall_row. by destruct (Req_dec_T (sum Xi) 0).
    + rewrite (recall_inner tops X m c t Xi k ret Et EX Hm Hk Hin) by lia. cbn [bind].
      rewrite get1_insert_eq by lia. cbn [bind].
      rewrite set1_lt by (rewrite length_insert; lia).
      eexists. split; [reflexivity|].
      rewrite list_insert_insert_eq.
      destruct (Hstep ((value_at ret c + sum (hits t Xi k)) / sum Xi)) as (h1 & h2 & h3).
      split; [exact h1|]. split; [exact h2|]. apply h3.
      unfold recall_row. destruct (Req_dec_T (sum Xi) 0); [contradiction|].
      unfold value_at. rewrite (Hrest c) by lia. simpl. f_equal. lra.
  - exists ret. split; [exact E|]. split; [exact Hl|].
    intros i t Xi Et EX. apply (Hdone i t Xi); auto.
    apply lookup_lt_Some in EX. lia.
Qed.

Lemma div_bounds (a b : R) : 0 <= a <= b -> 0 < b -> 0 <= a / b <= 1.
Proof.
  intros Ha Hb. pose proof (Rinv_0_lt_compat b Hb) as Hi. unfold Rdiv. split.
  - nra.
  - apply (Rmult_le_reg_r b); [lra|]. rewrite Rmult_assoc, Rinv_l by lra. lra.
Qed.

Lemma sum_nonneg (l : list R) : Forall (Rle 0) l -> 0 <= sum l.
Proof. unfold sum. induction 1 as [|x l Hx _ IH]; simpl; lra. Qed.

Lemma sum_submseteq (l1 l2 : list R) :
  l1 ⊆+ l2 -> Forall (Rle 0) l2 -> sum l1 <= sum l2.
Proof.
  unfold sum. induction 1 as [|x l1 l2 _ IH|x y l|x l1 l2 _ IH|l1 l2 l3 H12 IH1 H23 IH2];
    intros Hpos; simpl.
  - lra.
  - inversion Hpos; subst. specialize (IH ltac:(assumption)). lra.
  - lra.
  - inversion Hpos; subst. specialize (IH ltac:(assumption)). lra.
  - specialize (IH2 Hpos).
    assert (Forall (Rle 0) l2).
    { rewrite Forall_forall in Hpos. apply Forall_forall. intros x Hx.
      apply Hpos. by eapply elem_of_submseteq. }
    specialize (IH1 ltac:(assumption)). lra.
Qed.

Lemma map_value_at_seq (v : list R) : map (value_at v) (seq 0 (length v)) = v.
Proof.
  apply list_eq. intros i. rewrite list_lookup_fmap.
  destruct (v !! i) as [x|] eqn:E.
  - rewrite lookup_seq_lt by (by eapply lookup_lt_Some). simpl.
    unfold value_at. by rewrite E.
  - rewrite lookup_seq_ge by (by apply lookup_ge_None). reflexivity.
Qed.

Lemma hits_le_sum (t : list nat) (Xi : vector) k :
  Forall (Rle 0) Xi -> NoDup (take k t) ->
  Forall (fun a => (a < length Xi)%nat) (take k t) ->
  0 <= sum (hits t Xi k) <= sum Xi.
Proof.
  intros Hpos Hnd Hin. split.
  - apply sum_nonneg. unfold hits. apply Forall_fmap, Forall_forall. intros a Ha. simpl.
    unfold value_at. destruct (Xi !! a) as [x|] eqn:E; simpl; [|lra].
    rewrite Forall_lookup in Hpos. eauto.
  - rewrite <- (map_value_at_seq Xi) at 2. apply sum_submseteq.
    + unfold hits. apply fmap_submseteq. apply NoDup_submseteq; [exact Hnd|].
      intros a Ha. rewrite Forall_forall in Hin. apply elem_of_seq. specialize (Hin a Ha). lia.
    + by rewrite map_value_at_seq.
Qed.

Lemma recall_row_bounds (t : list nat) (Xi : vector) k :
  Forall (Rle 0) Xi -> NoDup (take k t) ->
  Forall (fun a => (a < length Xi)%nat) (take k t) ->
  0 <= recall_row t Xi k <= 1.
Proof.
  intros Hpos Hnd Hin. unfold recall_row.
  destruct (Req_dec_T (sum Xi) 0) as [Hz|Hnz]; [lra|].
  destruct (hits_le_sum t Xi k Hpos Hnd Hin) as [H0 H1].
  pose proof (sum_nonneg Xi Hpos) as Hs.
  apply div_bounds; lra.
Qed.

Lemma recall_bounds (N m k : nat) (tops : list (list nat)) (X : matrix) :
  rect N m X -> top_lists N m k tops -> cells (Rle 0) X ->
  exists ret, Bpr.recall tops X k = Ok ret /\ length ret = N /\
    (forall i t Xi, tops !! i = Some t -> X !! i = Some Xi ->
       ret !! i = Some (recall_row t Xi k)) /\
    Forall (fun r => 0 <= r <= 1) ret.
Proof.
  intros HX Htop Hpos.
  destruct (recall_Ok N m k tops X HX Htop) as (ret & E & Hl & Hrow).
  exists ret. split; [exact E|]. split; [exact Hl|]. split; [exact Hrow|].
  apply Forall_lookup. intros i r Hr.
  destruct HX as [HN HX], Htop as [Ht Htop].
  pose proof (lookup_lt_Some _ _ _ Hr) as Hi.
  destruct (lookup_lt_is_Some_2 X i ltac:(lia)) as [Xi EX].
  destruct (lookup_lt_is_Some_2 tops i ltac:(lia)) as [t Et].
  rewrite (Hrow i t Xi Et EX) in Hr. injection Hr as <-.
  rewrite Forall_lookup in HX. rewrite Forall_lookup in Htop. destruct (Htop _ _ Et) as (Hk & Hnd & Hin).
  apply recall_row_bounds; auto.
  - unfold cells in Hpos. rewrite Forall_lookup in Hpos. eauto.
  - by rewrite (HX _ _ EX).
Qed.

Lemma cells_weaken (P Q : R -> Prop) (a : matrix) :
  (forall x, P x -> Q x) -> cells P a -> cells Q a.
Proof.
  intros HPQ Ha. unfold cells in *.
  eapply Forall_impl; [exact Ha|]. intros r Hr.
  eapply Forall_impl; [exact Hr|]. exact HPQ.
Qed.

Lemma recall_binary (N m k : nat) (tops : list (list nat)) (X : matrix) :
  rect N m X -> top_lists N m k tops ->
  exists ret, Bpr.recall tops X k = Ok ret /\ length ret = N /\
    (forall i t Xi, tops !! i = Some t -> X !! i = Some Xi ->
       ret !! i = Some (recall_row t Xi k)) /\
    (cells (fun x => x = 0 \/ x = 1) X -> Forall (fun r => 0 <= r <= 1) ret).
Proof.
  intros HX Htop.
  destruct (recall_Ok N m k tops X HX Htop) as (ret & E & Hl & Hrow).
  exists ret. split; [exact E|]. split; [exact Hl|]. split; [exact Hrow|].
  intros Hbin.
  assert (Hpos : cells (Rle 0) X).
  { apply (cells_weaken _ _ _ (fun x (H : x = 0 \/ x = 1) =>
                                 match H with
                                 | or_introl e => eq_ind_r (Rle 0) (Rle_refl 0) e
                                 | or_intror e => eq_ind_r (Rle 0) Rle_0_1 e
                                 end) Hbin). }
  destruct (recall_bounds N m k tops X HX Htop Hpos) as (ret' & E' & _ & _ & Hb).
  rewrite E in E'. injection E' as <-. exact Hb.
Qed.

(** ** The lists [evaluate] builds *)

Lemma mean_bounds (v : vector) :
  v <> [] -> Forall (fun r => 0 <= r <= 1) v -> 0 <= mean v <= 1.
Proof.
  intros Hne Hv. unfold mean.
  assert (Hs : 0 <= sum v <= INR (length v)).
  { clear Hne. unfold sum. induction Hv as [|x l Hx _ IH]; [simpl; lra|].
    change (length (x :: l)) with (Datatypes.S (length l)). rewrite S_INR. simpl. lra. }
  assert (Hl : 0 < INR (length v)).
  { apply lt_0_INR. destruct v; [done|simpl; lia]. }
  apply div_bounds; lra.
Qed.

Lemma top10_spec argsort (v : vector) :
  sorts argsort ->
  NoDup (Bpr.top10 argsort v) /\ Forall (fun a => (a < length v)%nat) (Bpr.top10 argsort v) /\
  length (Bpr.top10 argsort v) = Nat.min 10 (length v).
Proof.
  intros Hsort. unfold Bpr.top10. pose proof (proj1 (Hsort v)) as Hp.
  assert (Hr : reverse (argsort v) ≡ₚ seq 0 (length v)) by (by rewrite reverse_Permutation).
  split; [|split].
  - apply (sublist_NoDup _ (reverse (argsort v))); [|apply sublist_take].
    rewrite Hr. apply NoDup_seq.
  - apply Forall_take. rewrite Hr. apply Forall_forall. intros a Ha.
    apply elem_of_seq in Ha. lia.
  - rewrite length_take. rewrite Hr, length_seq. reflexivity.
Qed.

Lemma dot_transposed_Ok n m K (W H : matrix) :
  rect n K W -> rect m K H ->
  dot_transposed W H = Ok (map (fun w => map (fun h => dot w h) H) W).
Proof.
  intros [_ HW] [_ HH]. unfold dot_transposed.
  destruct (decide _) as [|Hno]; [reflexivity|]. exfalso. apply Hno.
  apply Forall_forall. intros w Hw. apply Forall_forall. intros h Hh.
  rewrite Forall_forall in HW. rewrite Forall_forall in HH.
  rewrite (HW w Hw), (HH h Hh). reflexivity.
Qed.

Lemma top_lists_scores argsort n m (W H : matrix) :
  sorts argsort ->
  length W = n -> length H = m -> (10 <= m)%nat ->
  top_lists n m 10 (map (Bpr.top10 argsort) (map (fun w => map (fun h => dot w h) H) W)).
Proof.
  intros Hsort Hn Hm H10. split; [by rewrite !length_map|].
  apply Forall_fmap, Forall_fmap, Forall_forall. intros w _. simpl.
  destruct (top10_spec argsort (map (fun h => dot w h) H) Hsort) as (Hnd & Hin & Hl).
  rewrite length_map in Hin, Hl.
  rewrite take_ge by lia. split; [lia|]. split; [exact Hnd|]. by rewrite <- Hm.
Qed.

(** ** [ap] *)

Lemma ap_inner (tops : list (list nat)) (X : matrix) m i t Xi k (counter ret : vector) :
  tops !! i = Some t -> X !! i = Some Xi -> length Xi = m ->
  (k <= length t)%nat -> Forall (fun a => (a < m)%nat) (take k t) ->
  (i < length counter)%nat -> (i < length ret)%nat ->
  counter !! i = Some 0 -> ret !! i = Some 0 ->
  exists c r,
    for_range k (fun j (st : vector * vector) =>
            let counter := st.1 in
            let ret := st.2 in
            a <- get2 tops i j ;;
            rating <- get2 X i a ;;
            if Req_dec_T rating 1 then
              c <- get1 counter i ;;
              counter <- set1 counter i (c + 1) ;;
              r <- get1 ret i ;;
              ret <- set1 ret i (r + (c + 1) / (INR j + 1)) ;;
              Ok (counter, ret)
            else Ok (counter, ret)) (counter, ret)
    = Ok (<[i := c]> counter, <[i := r]> ret) /\ 0 <= r <= c /\ c <= INR k.
Proof.
  intros Et EX Hm Hk Hin Hic Hir Hc0 Hr0.
  set (body := fun (j : nat) (st : vector * vector) => _).
  destruct (for_range_inv
              (fun j (st : vector * vector) => exists c r,
                 st = (<[i := c]> counter, <[i := r]> ret) /\ 0 <= r <= c /\ c <= INR j)
              k body (counter, ret)) as (st & E & c & r & -> & Hb); [| |eauto].
  - exists 0, 0. rewrite !list_insert_id by assumption. simpl. split; [reflexivity|lra].
  - intros j st Hj (c & r & -> & Hrc & Hcj).
    destruct (lookup_lt_is_Some_2 t j ltac:(lia)) as [a Ha].
    assert (Ham : (a < m)%nat).
    { rewrite Forall_lookup in Hin. apply (Hin j). by apply take_lookup_Some. }
    unfold body. cbn [fst snd].
    rewrite (proj2 (get2_Ok tops i j a)) by eauto. cbn [bind].
    rewrite (get2_value_at X i Xi a) by (auto; lia). cbn [bind].
    rewrite S_INR.
    destruct (Req_dec_T (value_at Xi a) 1) as [_|_].
    + rewrite get1_insert_eq by exact Hic. cbn [bind].
      rewrite set1_lt by (by rewrite length_insert). cbn [bind].
      rewrite get1_insert_eq by exact Hir. cbn [bind].
      rewrite set1_lt by (by rewrite length_insert). cbn [bind].
      rewrite !list_insert_insert_eq.
      eexists. split; [reflexivity|]. do 2 eexists. split; [reflexivity|].
      pose proof (pos_INR j) as Hpj.
      assert (0 <= (c + 1) / (INR j + 1) <= 1) by (apply div_bounds; lra).
      lra.
    + eexists. split; [reflexivity|]. exists c, r. split; [reflexivity|]. lra.
Qed.

Lemma ap_bounds (N m k : nat) (tops : list (list nat)) (X : matrix) :
  rect N m X -> top_lists N m k tops ->
  exists ret, Bpr.ap tops X k = Ok ret /\ length ret = N /\
    Forall (fun r => 0 <= r <= 1) ret.
Proof.
  intros [HN HX] [Ht Htop]. unfold Bpr.ap, shape0. rewrite HN.
  rewrite Forall_lookup in HX. rewrite Forall_lookup in Htop.
  set (body := fun (i : nat) (st : vector * vector) => _).
  destruct (for_range_inv
              (fun c (st : vector * vector) =>
                 length st.1 = N /\ length st.2 = N /\
                 (forall i, (c <= i < N)%nat -> st.2 !! i = Some 0) /\
                 (forall i r, (i < c)%nat -> st.2 !! i = Some r -> 0 <= r <= 1))
              N body (zeros N, zeros N)) as (st & E & _ & Hl & _ & Hdone).
  - unfold zeros. cbn [fst snd]. rewrite length_replicate.
    split; [reflexivity|]. split; [reflexivity|]. split.
    + intros i Hi. apply lookup_replicate_2. lia.
    + intros i r Hi. lia.
  - intros c [counter ret] Hc (Hlc & Hlr & Hrest & Hdone'). cbn [fst snd] in *.
    destruct (lookup_lt_is_Some_2 X c ltac:(lia)) as [Xi EX].
    destruct (lookup_lt_is_Some_2 tops c ltac:(lia)) as [t Et].
    destruct (Htop _ _ Et) as (Hk & _ & Hin).
    pose proof (HX _ _ EX) as Hm.
    unfold body. cbn [fst snd].
    rewrite set1_lt by lia. cbn [bind].
    destruct (ap_inner tops X m c t Xi k (<[c := 0]> counter) ret Et EX Hm Hk Hin)
      as (cnt & r & E & Hrc & _).
    { rewrite length_insert. lia. }
    { lia. }
    { apply list_lookup_insert_eq. lia. }
    { apply Hrest. lia. }
    cbn [fst snd] in E. rewrite E. cbn [bind fst snd]. rewrite list_insert_insert_eq.
    rewrite get1_insert_eq by lia. cbn [bind].
    assert (Hstep : forall v, 0 <= v <= 1 ->
              length (<[c := v]> ret) = N /\
              (forall i, (Datatypes.S c <= i < N)%nat -> <[c := v]> ret !! i = Some 0) /\
              (forall i r0, (i < Datatypes.S c)%nat -> <[c := v]> ret !! i = Some r0 ->
                 0 <= r0 <= 1)).
    { intros v Hv. split; [by rewrite length_insert|]. split.
      - intros i Hi. rewrite list_lookup_insert_ne by lia. apply Hrest. lia.
      - intros i r0 Hi. destruct (decide (i = c)) as [->|Hne].
        + rewrite list_lookup_insert_eq by lia. intros [= <-]. exact Hv.
        + rewrite list_lookup_insert_ne by lia. apply Hdone'. lia. }
    destruct (Req_dec_T cnt 0) as [Hz|Hnz].
    + rewrite set1_lt by (rewrite length_insert; lia). cbn [bind].
      rewrite list_insert_insert_eq.
      eexists. split; [reflexivity|]. cbn [fst snd].
      split; [by rewrite length_insert|]. apply Hstep. lra.
    + rewrite get1_insert_eq by lia. cbn [bind].
      rewrite set1_lt by (rewrite length_insert; lia). cbn [bind].
      rewrite list_insert_insert_eq.
      eexists. split; [reflexivity|]. cbn [fst snd].
      split; [by rewrite length_insert|]. apply Hstep. apply div_bounds; lra.
  - rewrite E. cbn [bind]. exists st.2. split; [reflexivity|]. split; [exact Hl|].
    apply Forall_lookup. intros i r Hr. apply (Hdone i r); [|exact Hr].
    apply lookup_lt_Some in Hr. lia.
Qed.

(** ** [ndcg] and [evaluate] *)

Lemma ndcg_Ok (N m k : nat) (tops : list (list nat)) (X : matrix) :
  rect N m X -> top_lists N m k tops -> (1 <= k)%nat ->
  exists ret, Bpr.ndcg tops X k = Ok ret /\ length ret = N.
Proof.
  intros [HN HX] [Ht Htop] Hk1. unfold Bpr.ndcg, shape0. rewrite HN.
  rewrite Forall_lookup in HX. rewrite Forall_lookup in Htop.
  set (body := fun (i : nat) (st : vector * vector) => _).
  destruct (for_range_inv
              (fun (c : nat) (st : vector * vector) => length st.1 = N /\ length st.2 = N)
              N body (zeros N, zeros N)) as (st & E & _ & Hl).
  - unfold zeros. cbn [fst snd]. by rewrite length_replicate.
  - intros c [tmp ret] Hc (Hlt & Hlr). cbn [fst snd] in *.
    destruct (lookup_lt_is_Some_2 X c ltac:(lia)) as [Xi EX].
    destruct (lookup_lt_is_Some_2 tops c ltac:(lia)) as [t Et].
    destruct (Htop _ _ Et) as (Hk & _ & Hin).
    pose proof (HX _ _ EX) as Hm. rewrite Forall_lookup in Hin.
    assert (Hacc : forall j, (j < k)%nat -> exists a,
              get2 tops c j = Ok a /\ get2 X c a = Ok (value_at Xi a)).
    { intros j Hj. destruct (lookup_lt_is_Some_2 t j ltac:(lia)) as [a Ha].
      exists a. split; [apply get2_Ok; eauto|].
      apply (get2_value_at X c Xi a EX). rewrite Hm. apply (Hin j).
      by apply take_lookup_Some. }
    unfold body. cbn [fst snd].
    rewrite (get1_lookup (map sum X) c (sum Xi)) by (by rewrite list_lookup_fmap, EX).
    cbn [bind].
    destruct (Req_dec_T (sum Xi) 0) as [Hz|Hnz].
    + rewrite set1_lt by lia. cbn [bind]. eexists. split; [reflexivity|].
      cbn [fst snd]. by rewrite length_insert.
    + rewrite set1_lt by lia. cbn [bind].
      match goal with |- context [for_loop (seq 1 ?len) ?b (<[c:=1]> tmp)] =>
        destruct (for_seq_inv (fun (_ : nat) (tmp' : vector) => length tmp' = N)
                    1 len b (<[c:=1]> tmp)) as (tmp1 & E1 & Hl1)
      end.
      { by rewrite length_insert. }
      { intros j tmp' _ Hl'. destruct (lookup_lt_is_Some_2 tmp' c ltac:(lia)) as [x Hx].
        rewrite (get1_lookup _ _ _ Hx). cbn [bind]. rewrite set1_lt by lia.
        eexists. split; [reflexivity|]. by rewrite length_insert. }
      rewrite E1. cbn [bind].
      destruct (Hacc 0%nat ltac:(lia)) as (a0 & Ea0 & Ex0). rewrite Ea0. cbn [bind].
      rewrite Ex0. cbn [bind]. rewrite set1_lt by lia. cbn [bind].
      match goal with |- context [for_loop (seq 1 ?len) ?b (<[c:=?v]> ret)] =>
        destruct (for_seq_inv (fun (_ : nat) (ret' : vector) => length ret' = N)
                    1 len b (<[c:=v]> ret)) as (ret1 & E2 & Hl2)
      end.
      { by rewrite length_insert. }
      { intros j ret' Hj Hl'. destruct (Hacc j ltac:(lia)) as (a & Ea & Ex).
        rewrite Ea. cbn [bind]. rewrite Ex. cbn [bind].
        destruct (lookup_lt_is_Some_2 ret' c ltac:(lia)) as [x Hx].
        rewrite (get1_lookup _ _ _ Hx). cbn [bind]. rewrite set1_lt by lia.
        eexists. split; [reflexivity|]. by rewrite length_insert. }
      rewrite E2. cbn [bind].
      destruct (lookup_lt_is_Some_2 ret1 c ltac:(lia)) as [x Hx].
      destruct (lookup_lt_is_Some_2 tmp1 c ltac:(lia)) as [y Hy].
      rewrite (get1_lookup _ _ _ Hx). cbn [bind].
      rewrite (get1_lookup _ _ _ Hy). cbn [bind].
      rewrite set1_lt by lia. cbn [bind].
      eexists. split; [reflexivity|]. cbn [fst snd]. by rewrite length_insert.
  - rewrite E. cbn [bind]. exists st.2. auto.
Qed.

(** ** Fewer items than the length of the lists *)

Lemma get1_no_raise {A} (l : list A) i e : get1 l i <> Raise e.
Proof. unfold get1. case_match; discriminate. Qed.

Lemma set1_no_raise {A} (l : list A) i x e : set1 l i x <> Raise e.
Proof. unfold set1. case_match; discriminate. Qed.

Ltac no_raise :=
  repeat first
    [ discriminate
    | apply get1_no_raise | apply set1_no_raise | apply get2_no_raise | apply set2_no_raise
    | apply for_loop_no_raise; intros ? ? ?
    | apply bind_no_raise; [intros ?|intros ? ?]
    | match goal with |- context [if ?b then _ else _] => destruct b end ].

Lemma recall_no_raise tops X k e : Bpr.recall tops X k <> Raise e.
Proof. unfold Bpr.recall, for_range. no_raise. Qed.

Lemma ndcg_no_raise tops X k e : Bpr.ndcg tops X k <> Raise e.
Proof. unfold Bpr.ndcg, for_range. no_raise. Qed.

Lemma ap_short_list (N m k : nat) (tops : list (list nat)) (X : matrix) t :
  rect N m X -> (0 < N)%nat -> tops !! 0%nat = Some t ->
  (length t < k)%nat -> Forall (fun a => (a < m)%nat) t ->
  Bpr.ap tops X k = Fault.
Proof.
  intros [HN HX] HN0 Et Hk Hin. unfold Bpr.ap, shape0. rewrite HN.
  destruct N as [|N]; [lia|].
  destruct (lookup_lt_is_Some_2 X 0%nat ltac:(lia)) as [Xi EX].
  rewrite Forall_lookup in HX. pose proof (HX _ _ EX) as Hm.
  unfold for_range. cbn [seq for_loop fst snd].
  rewrite set1_lt by (unfold zeros; rewrite length_replicate; lia). cbn [bind].
  destruct (ap_inner tops X m 0 t Xi (length t) (<[0%nat := 0]> (zeros (Datatypes.S N)))
              (zeros (Datatypes.S N)) Et EX Hm (Nat.le_refl _))
    as (c & r & E & _).
  { by rewrite firstn_all. }
  { rewrite length_insert. unfold zeros. rewrite length_replicate. lia. }
  { unfold zeros. rewrite length_replicate. lia. }
  { reflexivity. }
  { reflexivity. }
  unfold for_range in *. cbn [fst snd] in E.
  replace (seq 0 k) with (seq 0 (length t) ++ seq (length t) (Datatypes.S (k - length t - 1))).
  2:{ rewrite <- seq_app. f_equal. lia. }
  rewrite for_loop_app, E. cbn [bind seq for_loop fst snd].
  assert (Ef : get2 tops 0 (length t) = Fault).
  { unfold get2. rewrite (get1_lookup _ _ _ Et). cbn [bind]. unfold get1.
    by rewrite (proj2 (lookup_ge_None t (length t))). }
  rewrite Ef. reflexivity.
Qed.

Lemma evaluate_few_items argsort n m K (W H X : matrix) (stores : Bpr.metrics) :
  sorts argsort ->
  rect n K W -> rect m K H -> rect n m X -> (0 < n)%nat -> (m < 10)%nat ->
  Bpr.evaluate argsort W H X stores = Fault.
Proof.
  intros Hsort HW HH HX Hn Hm. unfold Bpr.evaluate.
  rewrite (dot_transposed_Ok n m K W H HW HH). cbn [bind].
  set (tops := map (Bpr.top10 argsort) _).
  destruct (lookup_lt_is_Some_2 W 0%nat ltac:(destruct HW; lia)) as [w Ew].
  assert (Et : tops !! 0%nat = Some (Bpr.top10 argsort (map (fun h => dot w h) H))).
  { unfold tops. by rewrite !list_lookup_fmap, Ew. }
  destruct (top10_spec argsort (map (fun h => dot w h) H) Hsort) as (_ & Hin & Hl).
  rewrite length_map in Hin, Hl. destruct HH as [HlH _]. rewrite HlH in Hin, Hl.
  assert (Ea : Bpr.ap tops X 10 = Fault).
  { apply (ap_short_list n m 10 tops X _ HX Hn Et); [lia|exact Hin]. }
  destruct (Bpr.recall tops X 10) as [r|e|] eqn:Er; cbn [bind];
    [|by destruct (recall_no_raise tops X 10 e)|reflexivity].
  destruct (Bpr.ndcg tops X 10) as [nd|e|] eqn:End; cbn [bind];
    [|by destruct (ndcg_no_raise tops X 10 e)|reflexivity].
  rewrite Ea. reflexivity.
Qed.

(** * The validation pass *)

Lemma call_loss_without_update u i j st :
  (U.call_loss u i j false st).1 = st.
Proof.
  unfold U.call_loss, U.loss.
  destruct (for_range _ _ _) as [acc|e|]; reflexivity.
Qed.

Lemma sample_loss_without_update users positives negatives iteration l loss st :
  (Bpr.sample_loss users positives negatives iteration false l loss st).1 = st.
Proof.
  unfold Bpr.sample_loss, pbind, lift.
  destruct (get1 users l) as [u|e|]; [|reflexivity..].
  destruct (get1 positives l) as [i|e|]; [|reflexivity..].
  destruct (get2 negatives l iteration) as [j|e|]; [|reflexivity..].
  pose proof (call_loss_without_update u i j st) as E.
  destruct (U.call_loss u i j false st) as [st' [r|e|]]; simpl in E; subst st'; reflexivity.
Qed.

Lemma validation_samples_frame users positives negatives iteration ks loss st :
  (pfor_loop ks (Bpr.sample_loss users positives negatives iteration false) loss st).1 = st.
Proof.
  revert loss st. induction ks as [|k ks IH]; intros loss st; [reflexivity|].
  simpl. unfold pbind.
  pose proof (sample_loss_without_update users positives negatives iteration k loss st) as E.
  destruct (Bpr.sample_loss users positives negatives iteration false k loss st)
    as [st' [loss'|e|]]; simpl in E; subst st'; [apply IH|reflexivity..].
Qed.

Lemma validation_pass_frame users_valid positives_valid negatives_valid iteration s st :
  (Bpr.validation_pass users_valid positives_valid negatives_valid iteration s st).1 = st.
Proof.
  unfold Bpr.validation_pass, pbind, lift, pret, pfor_range.
  pose proof (validation_samples_frame users_valid positives_valid negatives_valid iteration
                (seq 0 (length users_valid)) s.1 st) as E.
  destruct (pfor_loop _ _ _ st) as [st' [loss'|e|]]; simpl in E; subst st'; [|reflexivity..].
  destruct (Bpr.accumulate _ _ _ _) as [m1|e|]; [|reflexivity..].
  destruct (Bpr.divide _ _ _) as [m2|e|]; reflexivity.
Qed.

Lemma accumulate_sum key (n : nat) (loss : list R) (m : gmap string R) x :
  m !! key = Some x -> (n <= length loss)%nat ->
  Bpr.accumulate key n loss m = Ok (<[key := x + sum (take n loss)]> m).
Proof.
  intros Hx Hn. unfold Bpr.accumulate. induction n as [|n IH].
  - unfold for_range. cbn [seq for_loop take]. unfold sum. cbn [foldr]. rewrite Rplus_0_r.
    by rewrite insert_id.
  - rewrite for_range_S, IH by lia. cbn [bind].
    destruct (lookup_lt_is_Some_2 loss n) as [y Hy]; [lia|].
    rewrite (get1_lookup loss n y Hy). cbn [bind].
    rewrite lookup_insert_eq. cbn [default]. rewrite insert_insert_eq.
    rewrite (take_S_r _ _ _ Hy), sum_snoc. do 2 f_equal. unfold Datatypes.id. lra.
Qed.

Lemma divide_value key (n : nat) (m : gmap string R) x :
  m !! key = Some x -> n <> 0%nat -> Bpr.divide key n m = Ok (<[key := x / INR n]> m).
Proof.
  intros Hx Hn. unfold Bpr.divide, checked_div. destruct (decide (n = 0%nat)); [done|].
  cbn [bind]. by rewrite Hx.
Qed.

Lemma validation_samples n m K users positives negatives iteration N loss st :
  wf n m K st -> samples_in_range n m users positives negatives iteration N ->
  (N <= length loss)%nat ->
  exists loss',
    pfor_range N (Bpr.sample_loss users positives negatives iteration false) loss st
    = (st, Ok loss') /\
    length loss' = length loss /\
    (forall l u i j, (l < N)%nat -> get1 users l = Ok u -> get1 positives l = Ok i ->
       get2 negatives l iteration = Ok j -> loss' !! l = Some (bpr_loss st u i j)) /\
    (forall l, (N <= l)%nat -> loss' !! l = loss !! l).
Proof.
  intros Hwf Hs. pose proof Hwf as (HW & _ & _ & HH & _).
  induction N as [|N IH]; intros HN.
  - exists loss. split; [reflexivity|]. split; [reflexivity|]. split; [intros; lia|auto].
  - destruct IH as (loss1 & E & Hl1 & Hdone & Hrest); [intros l Hl; apply Hs; lia|lia|].
    destruct (Hs N ltac:(lia)) as (u & i & j & Eu & Ei & Ej & Hu & Hi & Hj).
    rewrite pfor_range_S. unfold pbind. rewrite E.
    rewrite (sample_loss_unfold _ _ _ _ _ _ _ _ u i j Eu Ei Ej).
    destruct (loss_without_update_eq n m K st u i j HW HH Hu Hi Hj) as [E2 _].
    rewrite E2. rewrite set1_lt by lia.
    eexists. split; [reflexivity|]. split; [by rewrite length_insert|]. split.
    + intros l u' i' j' Hl Eu' Ei' Ej'. destruct (decide (l = N)) as [->|Hne].
      * rewrite list_lookup_insert_eq by lia. congruence.
      * rewrite list_lookup_insert_ne by done. apply Hdone; auto. lia.
    + intros l Hl. rewrite list_lookup_insert_ne by lia. apply Hrest. lia.
Qed.

Lemma validation_pass_mean n m K users_valid positives_valid negatives_valid iteration
      (loss : vector) (mt : Bpr.metrics) st :
  wf n m K st -> users_valid <> [] ->
  samples_in_range n m users_valid positives_valid negatives_valid iteration
    (length users_valid) ->
  (length users_valid <= length loss)%nat ->
  exists losses,
    Bpr.validation_pass users_valid positives_valid negatives_valid iteration (loss, mt) st
    = (st, Ok (losses ++ drop (length users_valid) loss, <["val_loss" := mean losses]> mt)) /\
    length losses = length users_valid /\
    forall l u i j, get1 users_valid l = Ok u -> get1 positives_valid l = Ok i ->
      get2 negatives_valid l iteration = Ok j -> losses !! l = Some (bpr_loss st u i j).
Proof.
  intros Hwf Hne Hs Hl.
  destruct (validation_samples n m K users_valid positives_valid negatives_valid iteration
              (length users_valid) loss st Hwf Hs Hl) as (loss' & E & Hl' & Hdone & Hrest).
  exists (take (length users_valid) loss').
  assert (Hlen : length (take (length users_valid) loss') = length users_valid).
  { rewrite length_take. lia. }
  split; [|split; [exact Hlen|]].
  - unfold Bpr.validation_pass. cbn [fst snd]. unfold pbind at 1. rewrite E.
    unfold pbind at 1, lift at 1.
    rewrite (accumulate_sum "val_loss" _ loss' _ 0) by (rewrite ?lookup_insert_eq; auto; lia).
    unfold pbind, lift, pret.
    rewrite (divide_value "val_loss" _ _ (0 + sum (take (length users_valid) loss')))
      by (rewrite ?lookup_insert_eq; auto; by destruct users_valid).
    rewrite !insert_insert_eq. do 3 f_equal.
    + apply list_eq. intros l. destruct (decide (l < length users_valid)%nat) as [Hlt|Hge].
      * rewrite lookup_app_l by lia. by rewrite lookup_take_lt.
      * rewrite lookup_app_r by lia. rewrite Hlen, lookup_drop.
        rewrite Hrest by lia. f_equal. lia.
    + unfold mean. rewrite Hlen. f_equal. lra.
  - intros l u i j Eu Ei Ej.
    assert (Hlt : (l < length users_valid)%nat).
    { apply get1_Ok in Eu. by eapply lookup_lt_Some. }
    rewrite lookup_take_lt by exact Hlt. by apply (Hdone l u i j).
Qed.

(** * Training on well-formed input *)

Lemma epoch_reports argsort n m K users positives negatives iteration loss mt history st :
  wf n m K st -> users <> [] ->
  samples_in_range n m users positives negatives iteration (length users) ->
  length loss = length users ->
  exists st' loss' mt',
    Bpr.epoch argsort users positives negatives None None iteration (loss, mt, history) st
    = (st', Ok (loss', mt', history ++ [mt'])) /\
    wf n m K st' /\ same_hyper st st' /\ length loss' = length users /\
    reports_loss mt'.
Proof.
  intros Hwf Hne Hs Hl. unfold Bpr.epoch. cbn [fst snd].
  destruct (sample_pass_Ok n m K users positives negatives iteration true (length users)
              loss st Hwf Hs ltac:(lia)) as (st' & loss' & E & Hwf' & Hh & Hl' & _).
  unfold pbind at 1. rewrite E.
  unfold pbind at 1, lift at 1.
  rewrite (accumulate_sum "loss" (length users) loss' _ 0);
    [|apply lookup_insert_eq|lia].
  unfold pbind at 1, lift at 1.
  rewrite (divide_value "loss" _ _ (0 + sum (take (length users) loss')));
    [|apply lookup_insert_eq|by destruct users].
  eexists st', loss', _. split; [reflexivity|]. split; [done|]. split; [done|].
  split; [lia|]. eexists. apply lookup_insert_eq.
Qed.

Lemma epochs_report argsort n m K users positives negatives T loss mt history st :
  wf n m K st -> users <> [] ->
  (forall it, (it < T)%nat ->
     samples_in_range n m users positives negatives it (length users)) ->
  length loss = length users ->
  Forall reports_loss history ->
  exists st' r,
    pfor_range T (Bpr.epoch argsort users positives negatives None None) (loss, mt, history) st
    = (st', Ok r) /\
    wf n m K st' /\ same_hyper st st' /\ length r.1.1 = length users /\
    length r.2 = (length history + T)%nat /\ Forall reports_loss r.2.
Proof.
  intros Hwf Hne Hs Hl Hhist. induction T as [|T IH].
  - exists st, (loss, mt, history). split; [reflexivity|]. cbn. split; [done|].
    split; [repeat split|]. split; [done|]. split; [lia|done].
  - destruct IH as (st1 & [[loss1 mt1] h1] & E & Hwf1 & Hh & Hl1 & Hh1 & Hp1);
      [intros; apply Hs; lia|].
    cbn in Hl1, Hh1, Hp1.
    destruct (epoch_reports argsort n m K users positives negatives T loss1 mt1 h1 st1 Hwf1 Hne
                (Hs T ltac:(lia)) Hl1) as (st2 & loss2 & mt2 & E2 & Hwf2 & Hh2 & Hl2 & Hp2).
    exists st2, (loss2, mt2, h1 ++ [mt2]).
    rewrite pfor_range_S. unfold pbind. rewrite E, E2.
    split; [reflexivity|]. cbn. split; [done|]. split; [by eapply same_hyper_trans|].
    split; [done|]. split; [rewrite length_app; simpl; lia|].
    apply Forall_app. split; [done|]. by constructor.
Qed.

Lemma sampled_negatives_in_range rand n m users positives (X : list (list R)) iterations negs :
  rect n m X -> length positives = length users ->
  Forall (fun u => (u < n)%nat) users -> Forall (fun i => (i < m)%nat) positives ->
  (forall u Xu, u ∈ users -> X !! u = Some Xu -> exists x, x ∈ Xu /\ x <> 1) ->
  (0 <= iterations)%Z ->
  Bpr.sample_negatives rand 0 users X iterations
    (replicate (length users) (replicate (Z.to_nat iterations) 0%nat)) = Ok negs ->
  forall it, (it < Z.to_nat iterations)%nat ->
    samples_in_range n m users positives negs it (length users).
Proof.
  intros HX Hlp Hu Hp Hcand Hit E0.
  pose proof HX as [HXn HXf].
  assert (HF : Forall (fun u => (u < length X)%nat) users) by (by rewrite HXn).
  destruct (sample_negatives_spec rand 0 users X iterations
              (replicate (length users) (replicate (Z.to_nat iterations) 0%nat))
              Hit ltac:(by rewrite length_replicate) HF Hcand) as (negs' & E & Hln & Hnegs).
  rewrite E0 in E. injection E as <-.
  intros it Hlt l Hl.
  destruct (lookup_lt_is_Some_2 users l Hl) as [u Hul].
  destruct (lookup_lt_is_Some_2 positives l ltac:(lia)) as [i Hil].
  rewrite Forall_lookup in Hu. rewrite Forall_lookup in Hp.
  destruct (rect_lookup _ _ _ u HX (Hu l u Hul)) as (Xu & HXu & HlXu).
  destruct (Hnegs l u Xu Hul HXu) as (_ & Hspec & _ & samples & Hsl & Hlen & Hdraw).
  assert (Hcne : Bpr.negative_candidates Xu <> []).
  { intros Ec. destruct (Hcand u Xu ltac:(by eapply list_elem_of_lookup_2) HXu)
      as (x & Hin & Hx).
    apply list_elem_of_lookup_1 in Hin as [j Hj].
    assert (Hc : j ∈ Bpr.negative_candidates Xu) by (apply Hspec; eauto).
    rewrite Ec in Hc. inversion Hc. }
  assert (Hidx : (rand (0 + l)%nat it `mod` length (Bpr.negative_candidates Xu)
                  < length (Bpr.negative_candidates Xu))%nat).
  { apply Nat.mod_upper_bound. destruct (Bpr.negative_candidates Xu); [done|simpl; lia]. }
  destruct (lookup_lt_is_Some_2 _ _ Hidx) as [j Hj].
  exists u, i, j. rewrite !get1_Ok, get2_Ok.
  split; [done|]. split; [done|].
  split; [exists samples; split; [done|]; rewrite (Hdraw it Hlt); exact Hj|].
  split; [eauto|]. split; [eauto|].
  assert (Hjc : j ∈ Bpr.negative_candidates Xu) by (by eapply list_elem_of_lookup_2).
  apply Hspec in Hjc as (x & Hx & _). apply lookup_lt_Some in Hx. lia.
Qed.

Lemma fit_bpr_trains argsort rand n m K users positives (X : list (list R)) W H
        iterations lr wd nt verbose :
  rect n m X -> rect n K W -> rect m K H ->
  users <> [] -> length positives = length users ->
  Forall (fun u => (u < n)%nat) users -> Forall (fun i => (i < m)%nat) positives ->
  (forall u Xu, u ∈ users -> X !! u = Some Xu -> exists x, x ∈ Xu /\ x <> 1) ->
  (0 <= iterations)%Z ->
  exists st history,
    Bpr.fit_bpr argsort rand users positives X None None W H iterations lr wd nt verbose
    = (st, Ok history) /\
    length history = Z.to_nat iterations /\
    Forall reports_loss history /\
    rect n K (U.W st) /\ rect m K (U.H st).
Proof.
  intros HX HW HH Hne Hlp Hu Hp Hcand Hit.
  pose proof HX as [HXn HXf].
  assert (HF : Forall (fun u => (u < length X)%nat) users) by (by rewrite HXn).
  destruct (sample_negatives_spec rand 0 users X iterations
              (replicate (length users) (replicate (Z.to_nat iterations) 0%nat))
              Hit ltac:(by rewrite length_replicate) HF Hcand) as (negs & E & _ & _).
  pose proof (sampled_negatives_in_range rand n m users positives X iterations negs
                HX Hlp Hu Hp Hcand Hit E) as Hs.
  destruct (epochs_report argsort n m K users positives negs (Z.to_nat iterations)
              (zeros (length users)) ∅ [] (U.init W H lr wd)
              (init_wf n m K W H lr wd HW HH) Hne Hs ltac:(apply length_replicate)
              ltac:(constructor))
    as (st' & r & Er & Hwf' & _ & _ & Hh & Hpos).
  exists st', r.2. unfold Bpr.fit_bpr.
  unfold pbind at 1, lift at 1. rewrite int_zeros2_Ok by lia.
  unfold pbind at 1, lift at 1. rewrite E.
  unfold pbind at 1, pret at 1. unfold pbind at 1. rewrite Er.
  split; [reflexivity|]. split; [simpl in Hh; lia|]. split; [exact Hpos|].
  destruct Hwf' as (? & _ & _ & ? & _). auto.
Qed.

(** ** Test data with fewer than ten items *)

Lemma epoch_test_few_items argsort n m K users positives negatives X_test iteration loss mt
      history st :
  sorts argsort ->
  wf n m K st -> users <> [] ->
  samples_in_range n m users positives negatives iteration (length users) ->
  length loss = length users ->
  rect n m X_test -> (0 < n)%nat -> (m < 10)%nat ->
  exists st' loss',
    pfor_range (length users) (Bpr.sample_loss users positives negatives iteration true) loss st
    = (st', Ok loss') /\
    wf n m K st' /\
    (forall stores, Bpr.evaluate argsort (U.W st') (U.H st') X_test stores = Fault) /\
    Bpr.epoch argsort users positives negatives None (Some X_test) iteration
      (loss, mt, history) st
    = (st', Fault).
Proof.
  intros Hsort Hwf Hne Hs Hl HX Hn Hm.
  destruct (sample_pass_Ok n m K users positives negatives iteration true (length users)
              loss st Hwf Hs ltac:(lia)) as (st' & loss' & E & Hwf' & _ & Hl' & _).
  exists st', loss'. split; [exact E|]. split; [exact Hwf'|].
  assert (Hev : forall stores,
            Bpr.evaluate argsort (U.W st') (U.H st') X_test stores = Fault).
  { intros stores. destruct Hwf' as (HW & _ & _ & HH & _).
    exact (evaluate_few_items argsort n m K _ _ X_test stores Hsort HW HH HX Hn Hm). }
  split; [exact Hev|].
  unfold Bpr.epoch. cbn [fst snd].
  unfold pbind at 1. rewrite E.
  destruct (accumulate_Ok "loss" (length users) loss' (<["loss":=0]> mt) ltac:(lia)) as [m1 E1].
  unfold pbind at 1, lift at 1. rewrite E1.
  destruct (divide_Ok "loss" (length users) m1) as [m2 E2].
  { destruct users; [done|simpl; lia]. }
  unfold pbind at 1, lift at 1. rewrite E2.
  unfold pbind at 1, pret at 1. unfold pbind at 1. cbn [fst snd].
  rewrite Hev. reflexivity.
Qed.

Lemma fit_bpr_test_few_items argsort rand n m K users positives (X X_test : list (list R)) W H
        iterations lr wd nt verbose :
  sorts argsort ->
  rect n m X -> rect n K W -> rect m K H -> rect n m X_test ->
  users <> [] -> length positives = length users ->
  Forall (fun u => (u < n)%nat) users -> Forall (fun i => (i < m)%nat) positives ->
  (forall u Xu, u ∈ users -> X !! u = Some Xu -> exists x, x ∈ Xu /\ x <> 1) ->
  (0 < iterations)%Z -> (m < 10)%nat ->
  exists negatives st1 loss1,
    Bpr.sample_negatives rand 0 users X iterations
      (replicate (length users) (replicate (Z.to_nat iterations) 0%nat)) = Ok negatives /\
    pfor_range (length users) (Bpr.sample_loss users positives negatives 0 true)
      (zeros (length users)) (U.init W H lr wd)
    = (st1, Ok loss1) /\
    (forall stores, Bpr.evaluate argsort (U.W st1) (U.H st1) X_test stores = Fault) /\
    Bpr.fit_bpr argsort rand users positives X None (Some X_test) W H iterations lr wd nt verbose
    = (st1, Fault).
Proof.
  intros Hsort HX HW HH HXt Hne Hlp Hu Hp Hcand Hit Hm.
  pose proof HX as [HXn HXf].
  assert (HF : Forall (fun u => (u < length X)%nat) users) by (by rewrite HXn).
  destruct (sample_negatives_spec rand 0 users X iterations
              (replicate (length users) (replicate (Z.to_nat iterations) 0%nat))
              ltac:(lia) ltac:(by rewrite length_replicate) HF Hcand) as (negs & E & _ & _).
  pose proof (sampled_negatives_in_range rand n m users positives X iterations negs
                HX Hlp Hu Hp Hcand ltac:(lia) E) as Hs.
  assert (Hn : (0 < n)%nat).
  { destruct users as [|u users]; [done|]. inversion Hu; subst. lia. }
  destruct (epoch_test_few_items argsort n m K users positives negs X_test 0
              (zeros (length users)) ∅ [] (U.init W H lr wd) Hsort
              (init_wf n m K W H lr wd HW HH) Hne (Hs 0%nat ltac:(lia))
              ltac:(apply length_replicate) HXt Hn Hm)
    as (st1 & loss1 & Et & _ & Hev & Ee).
  exists negs, st1, loss1. split; [exact E|]. split; [exact Et|]. split; [exact Hev|].
  unfold Bpr.fit_bpr.
  unfold pbind at 1, lift at 1. rewrite int_zeros2_Ok by lia.
  unfold pbind at 1, lift at 1. rewrite E.
  unfold pbind at 1, pret at 1. unfold pbind at 1.
  destruct (Z.to_nat iterations) as [|T] eqn:ET; [lia|].
  rewrite pfor_range_first. unfold pbind at 1. rewrite Ee. reflexivity.
Qed.

(** ** Training with and without validation data *)

Lemma same_but_val_loss_insert key x mt mt' :
  same_but_val_loss mt mt' -> same_but_val_loss (<[key := x]> mt) (<[key := x]> mt').
Proof.
  intros Hs k Hk. destruct (decide (k = key)) as [->|Hne].
  - by rewrite !lookup_insert_eq.
  - rewrite !lookup_insert_ne by done. by apply Hs.
Qed.

Lemma same_but_val_loss_set x mt mt' :
  same_but_val_loss mt mt' -> same_but_val_loss (<["val_loss" := x]> mt) mt'.
Proof. intros Hs k Hk. rewrite lookup_insert_ne by done. by apply Hs. Qed.

(** The pass over the training samples writes every entry of a buffer of
    the length of the training set: what the buffer held before does not
    matter. *)
Lemma training_pass_overwrites users positives negatives iteration update c
      (loss loss2 : vector) st st' l1 :
  length loss = length loss2 ->
  pfor_range c (Bpr.sample_loss users positives negatives iteration update) loss st
  = (st', Ok l1) ->
  exists l2,
    pfor_range c (Bpr.sample_loss users positives negatives iteration update) loss2 st
    = (st', Ok l2) /\
    length l1 = length loss /\ length l2 = length loss /\
    forall i, (i < c)%nat -> l1 !! i = l2 !! i.
Proof.
  intros Hlen. revert st' l1. induction c as [|c IH]; intros st' l1 E.
  - injection E as <- <-. exists loss2. split; [reflexivity|]. split; [done|].
    split; [done|]. intros i Hi. lia.
  - rewrite pfor_range_S in E. apply pbind_Ok in E as (st1 & l1c & E1 & E2).
    destruct (IH _ _ E1) as (l2c & E1' & Hl1 & Hl2 & Heq).
    rewrite pfor_range_S. unfold pbind at 1. rewrite E1'.
    unfold Bpr.sample_loss, pbind, lift in E2 |- *.
    destruct (get1 users c) as [u|e|]; try discriminate.
    destruct (get1 positives c) as [i|e|]; try discriminate.
    destruct (get2 negatives c iteration) as [j|e|]; try discriminate.
    destruct (U.call_loss u i j update st1) as [st2 [r|e|]]; try discriminate.
    destruct (set1 l1c c r) as [l1'|e|] eqn:Es; try discriminate.
    injection E2 as <- <-. apply set1_Ok in Es as [Hc ->].
    rewrite set1_lt by lia. eexists. split; [reflexivity|].
    rewrite !length_insert. split; [done|]. split; [done|].
    intros k Hk. destruct (decide (k = c)) as [->|Hne].
    + rewrite !list_lookup_insert_eq by lia. reflexivity.
    + rewrite !list_lookup_insert_ne by done. apply Heq. lia.
Qed.

Lemma training_pass_same_buffer users positives negatives iteration update
      (loss loss2 : vector) st st' l1 :
  length loss = length users -> length loss2 = length users ->
  pfor_range (length users) (Bpr.sample_loss users positives negatives iteration update) loss st
  = (st', Ok l1) ->
  pfor_range (length users) (Bpr.sample_loss users positives negatives iteration update) loss2 st
  = (st', Ok l1) /\ length l1 = length users.
Proof.
  intros Hl Hl2 E.
  destruct (training_pass_overwrites users positives negatives iteration update (length users)
              loss loss2 st st' l1 ltac:(lia) E) as (l2 & E2 & Hl1' & Hl2' & Heq).
  assert (l1 = l2) as ->.
  { apply list_eq. intros i. destruct (decide (i < length users)%nat) as [Hi|Hi].
    - by apply Heq.
    - rewrite !(proj2 (lookup_ge_None _ _)) by lia. reflexivity. }
  split; [exact E2|lia].
Qed.

Lemma accumulate_Ok_sum key (n : nat) (loss : list R) (m m' : gmap string R) x :
  m !! key = Some x -> Bpr.accumulate key n loss m = Ok m' ->
  (n <= length loss)%nat /\ m' = <[key := x + sum (take n loss)]> m.
Proof.
  intros Hx E.
  assert (Hn : (n <= length loss)%nat).
  { destruct n as [|n]; [lia|]. unfold Bpr.accumulate in E. rewrite for_range_S in E.
    apply bind_Ok in E as (m1 & _ & E). apply bind_Ok in E as (y & Ey & _).
    apply get1_Ok, lookup_lt_Some in Ey. lia. }
  split; [exact Hn|]. rewrite (accumulate_sum key n loss m x Hx Hn) in E. congruence.
Qed.

Lemma divide_Ok_value key (n : nat) (m m' : gmap string R) x :
  m !! key = Some x -> Bpr.divide key n m = Ok m' ->
  n <> 0%nat /\ m' = <[key := x / INR n]> m.
Proof.
  intros Hx E. unfold Bpr.divide, checked_div in E.
  destruct (decide (n = 0%nat)) as [->|Hn]; [discriminate|].
  cbn [bind] in E. rewrite Hx in E. split; [exact Hn|]. injection E as <-. reflexivity.
Qed.

Lemma validation_pass_Ok_metrics users_valid positives_valid negatives_valid iteration
      loss mt st st' loss' mt' :
  Bpr.validation_pass users_valid positives_valid negatives_valid iteration (loss, mt) st
  = (st', Ok (loss', mt')) ->
  st' = st /\ length loss' = length loss /\ same_but_val_loss mt' mt.
Proof.
  intros E.
  pose proof (validation_pass_frame users_valid positives_valid negatives_valid iteration
                (loss, mt) st) as Hst. rewrite E in Hst. cbn [fst] in Hst. subst st'.
  split; [reflexivity|].
  unfold Bpr.validation_pass in E. cbn [fst snd] in E.
  apply pbind_Ok in E as (s1 & loss1 & E1 & E).
  apply pbind_Ok in E as (s2 & m1 & Ea & E). apply lift_Ok in Ea as [-> Ea].
  apply pbind_Ok in E as (s3 & m2 & Ed & E). apply lift_Ok in Ed as [-> Ed].
  unfold pret in E. injection E as _ <- <-.
  pose proof (sample_pass_cases users_valid positives_valid negatives_valid iteration false
                (length users_valid) loss st) as Hc.
  cbv zeta in Hc. rewrite E1 in Hc. cbn [snd] in Hc.
  destruct Hc as [(l' & El & Hl & _)|Ef]; [|discriminate].
  assert (Hll : l' = loss1) by congruence. subst l'. clear El. split; [exact Hl|].
  destruct (accumulate_Ok_sum "val_loss" _ _ _ _ 0 (lookup_insert_eq _ _ _) Ea) as [_ ->].
  destruct (divide_Ok_value "val_loss" _ _ _ _ (lookup_insert_eq _ _ _) Ed) as [_ ->].
  intros key Hk. by rewrite !lookup_insert_ne by done.
Qed.

Lemma evaluate_stores argsort W H X (stores stores2 res : Bpr.metrics) :
  Bpr.evaluate argsort W H X stores = Ok res -> same_but_val_loss stores stores2 ->
  exists res2, Bpr.evaluate argsort W H X stores2 = Ok res2 /\ same_but_val_loss res res2.
Proof.
  intros E Hs. unfold Bpr.evaluate in *.
  destruct (dot_transposed W H) as [scores|e|]; try discriminate. cbn [bind] in *.
  destruct (Bpr.recall _ X 10) as [r|e|]; try discriminate. cbn [bind] in *.
  destruct (Bpr.ndcg _ X 10) as [nd|e|]; try discriminate. cbn [bind] in *.
  destruct (Bpr.ap _ X 10) as [a|e|]; try discriminate. cbn [bind] in *.
  injection E as <-. eexists. split; [reflexivity|].
  by repeat apply same_but_val_loss_insert.
Qed.

Lemma epoch_without_validation argsort users positives negatives valid X_test iteration
      (loss loss2 : vector) (mt mt2 : Bpr.metrics) (h h2 : list Bpr.metrics)
      st st' loss' mt' h' :
  Bpr.epoch argsort users positives negatives (Some valid) X_test iteration (loss, mt, h) st
  = (st', Ok (loss', mt', h')) ->
  length loss = length users -> length loss2 = length users ->
  same_but_val_loss mt mt2 -> Forall2 same_but_val_loss h h2 ->
  exists loss2' mt2' h2',
    Bpr.epoch argsort users positives negatives None X_test iteration (loss2, mt2, h2) st
    = (st', Ok (loss2', mt2', h2')) /\
    length loss' = length users /\ length loss2' = length users /\
    same_but_val_loss mt' mt2' /\ Forall2 same_but_val_loss h' h2'.
Proof.
  intros E Hl Hl2 Hmt Hh. unfold Bpr.epoch in E |- *. cbn [fst snd] in E |- *.
  apply pbind_Ok in E as (s1 & loss_a & Et & E).
  apply pbind_Ok in E as (s2 & m1 & Ea & E). apply lift_Ok in Ea as [-> Ea].
  apply pbind_Ok in E as (s3 & m2 & Ed & E). apply lift_Ok in Ed as [-> Ed].
  apply pbind_Ok in E as (s4 & [loss_v m_v] & Ev & E).
  apply pbind_Ok in E as (s5 & m3 & Ee & E).
  unfold pret in E. injection E as <- <- <- <-.
  destruct valid as [[users_valid positives_valid] negatives_valid].
  apply validation_pass_Ok_metrics in Ev as (-> & Hlv & Hmv).
  destruct (training_pass_same_buffer users positives negatives iteration true loss loss2
              st s1 loss_a Hl Hl2 Et) as [Et2 Hla].
  destruct (accumulate_Ok_sum "loss" _ _ _ _ 0 (lookup_insert_eq _ _ _) Ea) as [Hn ->].
  destruct (divide_Ok_value "loss" _ _ _ _ (lookup_insert_eq _ _ _) Ed) as [Hn0 ->].
  unfold pbind at 1. rewrite Et2.
  unfold pbind at 1, lift at 1.
  rewrite (accumulate_sum "loss" _ loss_a _ 0 (lookup_insert_eq _ _ _) Hn).
  unfold pbind at 1, lift at 1.
  rewrite (divide_value "loss" _ _ _ (lookup_insert_eq _ _ _) Hn0).
  unfold pbind at 1, pret at 1.
  assert (Hm2 : same_but_val_loss m_v
            (<["loss" := (0 + sum (take (length users) loss_a)) / INR (length users)]>
               (<["loss" := 0 + sum (take (length users) loss_a)]> (<["loss" := 0]> mt2)))).
  { intros key Hk. rewrite (Hmv key Hk).
    by repeat apply same_but_val_loss_insert. }
  cbn [fst snd] in Ee |- *.
  destruct X_test as [X_test|].
  - injection Ee as -> Ee.
    destruct (evaluate_stores argsort _ _ _ _ _ _ Ee Hm2) as (res2 & Ee2 & Hres).
    unfold pbind at 1. rewrite Ee2. unfold pret.
    eexists _, _, _. split; [reflexivity|]. split; [lia|]. split; [lia|].
    split; [exact Hres|]. apply Forall2_app; [exact Hh|]. by constructor.
  - unfold pret in Ee. injection Ee as -> ->. unfold pbind, pret.
    eexists _, _, _. split; [reflexivity|]. split; [lia|]. split; [lia|].
    split; [exact Hm2|]. apply Forall2_app; [exact Hh|]. by constructor.
Qed.

Lemma epochs_without_validation argsort users positives negatives valid X_test T
      (loss loss2 : vector) (mt mt2 : Bpr.metrics) (h h2 : list Bpr.metrics) st st' r :
  pfor_range T (Bpr.epoch argsort users positives negatives (Some valid) X_test) (loss, mt, h) st
  = (st', Ok r) ->
  length loss = length users -> length loss2 = length users ->
  same_but_val_loss mt mt2 -> Forall2 same_but_val_loss h h2 ->
  exists r2,
    pfor_range T (Bpr.epoch argsort users positives negatives None X_test) (loss2, mt2, h2) st
    = (st', Ok r2) /\
    length r.1.1 = length users /\ length r2.1.1 = length users /\
    same_but_val_loss r.1.2 r2.1.2 /\ Forall2 same_but_val_loss r.2 r2.2.
Proof.
  intros E Hl Hl2 Hmt Hh. revert st' r E. induction T as [|T IH]; intros st' r E.
  - injection E as <- <-. exists (loss2, mt2, h2). split; [reflexivity|]. cbn. auto.
  - rewrite pfor_range_S in E. apply pbind_Ok in E as (s1 & [[loss1 mt1] h1] & E1 & E2).
    destruct (IH _ _ E1) as ([[loss1' mt1'] h1'] & E1' & Hla & Hlb & Hm & Hhh).
    cbn [fst snd] in *. destruct r as [[loss' mt'] h'].
    destruct (epoch_without_validation argsort users positives negatives valid X_test T
                loss1 loss1' mt1 mt1' h1 h1' s1 st' loss' mt' h' E2 Hla Hlb Hm Hhh)
      as (l2 & m2 & hh2 & E2' & ? & ? & ? & ?).
    exists (l2, m2, hh2). rewrite pfor_range_S. unfold pbind. rewrite E1', E2'. cbn. auto.
Qed.

Lemma fit_bpr_without_validation argsort rand users positives X users_valid positives_valid X_valid
      X_test W H iterations lr wd nt verbose st history :
  Bpr.fit_bpr argsort rand users positives X (Some (users_valid, positives_valid, X_valid)) X_test
    W H iterations lr wd nt verbose = (st, Ok history) ->
  exists history2,
    Bpr.fit_bpr argsort rand users positives X None X_test W H iterations lr wd nt verbose
    = (st, Ok history2) /\
    Forall2 same_but_val_loss history history2.
Proof.
  intros E. unfold Bpr.fit_bpr in E |- *.
  apply pbind_Ok in E as (s1 & negs0 & E0 & E). apply lift_Ok in E0 as [-> E0].
  apply pbind_Ok in E as (s2 & negs & En & E). apply lift_Ok in En as [-> En].
  apply pbind_Ok in E as (s3 & valid & Ev & E).
  apply pbind_Ok in Ev as (s4 & nv0 & Ev0 & Ev). apply lift_Ok in Ev0 as [-> Ev0].
  apply pbind_Ok in Ev as (s5 & nv & Ev1 & Ev). apply lift_Ok in Ev1 as [-> Ev1].
  unfold pret in Ev. injection Ev as <- <-.
  apply pbind_Ok in E as (s6 & r & Er & E). unfold pret in E. injection E as <- <-.
  destruct (epochs_without_validation argsort users positives negs _ X_test (Z.to_nat iterations)
              (zeros (length users)) (zeros (length users)) ∅ ∅ [] [] _ _ _ Er)
    as (r2 & Er2 & _ & _ & _ & Hh).
  - apply length_replicate.
  - apply length_replicate.
  - intros key _. reflexivity.
  - constructor.
  - exists r2.2.
    unfold pbind at 1, lift at 1. rewrite E0.
    unfold pbind at 1, lift at 1. rewrite En.
    unfold pbind at 1, pret at 1. unfold pbind at 1. rewrite Er2.
    split; [reflexivity|exact Hh].
Qed.

Lemma sampled_negatives_in_range_from rand call0 n m users positives (X : list (list R))
      iterations negs :
  rect n m X -> length positives = length users ->
  Forall (fun u => (u < n)%nat) users -> Forall (fun i => (i < m)%nat) positives ->
  (forall u Xu, u ∈ users -> X !! u = Some Xu -> exists x, x ∈ Xu /\ x <> 1) ->
  (0 <= iterations)%Z ->
  Bpr.sample_negatives rand call0 users X iterations
    (replicate (length users) (replicate (Z.to_nat iterations) 0%nat)) = Ok negs ->
  forall it, (it < Z.to_nat iterations)%nat ->
    samples_in_range n m users positives negs it (length users).
Proof.
  intros HX Hlp Hu Hp Hcand Hit E0.
  pose proof HX as [HXn HXf].
  assert (HF : Forall (fun u => (u < length X)%nat) users) by (by rewrite HXn).
  destruct (sample_negatives_spec rand call0 users X iterations
              (replicate (length users) (replicate (Z.to_nat iterations) 0%nat))
              Hit ltac:(by rewrite length_replicate) HF Hcand) as (negs' & E & Hln & Hnegs).
  rewrite E0 in E. injection E as <-.
  intros it Hlt l Hl.
  destruct (lookup_lt_is_Some_2 users l Hl) as [u Hul].
  destruct (lookup_lt_is_Some_2 positives l ltac:(lia)) as [i Hil].
  rewrite Forall_lookup in Hu. rewrite Forall_lookup in Hp.
  destruct (rect_lookup _ _ _ u HX (Hu l u Hul)) as (Xu & HXu & HlXu).
  destruct (Hnegs l u Xu Hul HXu) as (_ & Hspec & _ & samples & Hsl & Hlen & Hdraw).
  assert (Hcne : Bpr.negative_candidates Xu <> []).
  { intros Ec. destruct (Hcand u Xu ltac:(by eapply list_elem_of_lookup_2) HXu)
      as (x & Hin & Hx).
    apply list_elem_of_lookup_1 in Hin as [j Hj].
    assert (Hc : j ∈ Bpr.negative_candidates Xu) by (apply Hspec; eauto).
    rewrite Ec in Hc. inversion Hc. }
  assert (Hidx : (rand (call0 + l)%nat it `mod` length (Bpr.negative_candidates Xu)
                  < length (Bpr.negative_candidates Xu))%nat).
  { apply Nat.mod_upper_bound. destruct (Bpr.negative_candidates Xu); [done|simpl; lia]. }
  destruct (lookup_lt_is_Some_2 _ _ Hidx) as [j Hj].
  exists u, i, j. rewrite !get1_Ok, get2_Ok.
  split; [done|]. split; [done|].
  split; [exists samples; split; [done|]; rewrite (Hdraw it Hlt); exact Hj|].
  split; [eauto|]. split; [eauto|].
  assert (Hjc : j ∈ Bpr.negative_candidates Xu) by (by eapply list_elem_of_lookup_2).
  apply Hspec in Hjc as (x & Hx & _). apply lookup_lt_Some in Hx. lia.
Qed.

Lemma epoch_valid_reports argsort n m K users positives negatives users_valid positives_valid
      negatives_valid iteration loss mt history st :
  wf n m K st -> users <> [] ->
  samples_in_range n m users positives negatives iteration (length users) ->
  users_valid <> [] ->
  samples_in_range n m users_valid positives_valid negatives_valid iteration
    (length users_valid) ->
  (length users_valid <= length users)%nat ->
  length loss = length users ->
  exists st' loss' mt',
    Bpr.epoch argsort users positives negatives
      (Some (users_valid, positives_valid, negatives_valid)) None iteration
      (loss, mt, history) st
    = (st', Ok (loss', mt', history ++ [mt'])) /\
    wf n m K st' /\ same_hyper st st' /\ length loss' = length users /\
    reports_both_losses mt'.
Proof.
  intros Hwf Hne Hs Hnev Hsv Hlv Hl.
  destruct (epoch_reports argsort n m K users positives negatives iteration loss mt history st
              Hwf Hne Hs Hl) as (st' & loss1 & mt1 & E & Hwf' & Hh & Hl1 & Hpos).
  unfold Bpr.epoch in E |- *. cbn [fst snd] in E |- *.
  apply pbind_Ok in E as (s1 & loss_a & Et & E).
  apply pbind_Ok in E as (s2 & m1 & Ea & E). apply lift_Ok in Ea as [-> Ea].
  apply pbind_Ok in E as (s3 & m2 & Ed & E). apply lift_Ok in Ed as [-> Ed].
  unfold pbind, pret in E. injection E as <- <- <- _.
  unfold pbind at 1. rewrite Et.
  unfold pbind at 1, lift at 1. rewrite Ea.
  unfold pbind at 1, lift at 1. rewrite Ed.
  destruct (validation_pass_mean n m K users_valid positives_valid negatives_valid iteration
              loss_a m2 s1 Hwf' Hnev Hsv ltac:(lia)) as (losses & Ev & Hll & Hlosses).
  unfold pbind at 1. rewrite Ev. unfold pbind, pret. cbn [fst snd].
  eexists _, _, _. split; [reflexivity|]. split; [exact Hwf'|]. split; [exact Hh|].
  split; [rewrite length_app, length_drop; lia|].
  split.
  - destruct Hpos as (x & Hx). exists x. by rewrite lookup_insert_ne.
  - eexists. apply lookup_insert_eq.
Qed.

Lemma epochs_valid_report argsort n m K users positives negatives users_valid positives_valid
      negatives_valid T loss mt history st :
  wf n m K st -> users <> [] ->
  (forall it, (it < T)%nat ->
     samples_in_range n m users positives negatives it (length users)) ->
  users_valid <> [] ->
  (forall it, (it < T)%nat ->
     samples_in_range n m users_valid positives_valid negatives_valid it
       (length users_valid)) ->
  (length users_valid <= length users)%nat ->
  length loss = length users ->
  Forall reports_both_losses history ->
  exists st' r,
    pfor_range T (Bpr.epoch argsort users positives negatives
                    (Some (users_valid, positives_valid, negatives_valid)) None)
      (loss, mt, history) st = (st', Ok r) /\
    wf n m K st' /\ same_hyper st st' /\ length r.1.1 = length users /\
    length r.2 = (length history + T)%nat /\ Forall reports_both_losses r.2.
Proof.
  intros Hwf Hne Hs Hnev Hsv Hlv Hl Hhist. induction T as [|T IH].
  - exists st, (loss, mt, history). split; [reflexivity|]. cbn. split; [done|].
    split; [repeat split|]. split; [done|]. split; [lia|done].
  - destruct IH as (st1 & [[loss1 mt1] h1] & E & Hwf1 & Hh & Hl1 & Hh1 & Hp1);
      [intros; apply Hs; lia|intros; apply Hsv; lia|].
    cbn in Hl1, Hh1, Hp1.
    destruct (epoch_valid_reports argsort n m K users positives negatives users_valid
        positives_valid
                negatives_valid T loss1 mt1 h1 st1 Hwf1 Hne (Hs T ltac:(lia)) Hnev
                (Hsv T ltac:(lia)) Hlv Hl1)
      as (st2 & loss2 & mt2 & E2 & Hwf2 & Hh2 & Hl2 & Hp2).
    exists st2, (loss2, mt2, h1 ++ [mt2]).
    rewrite pfor_range_S. unfold pbind. rewrite E, E2.
    split; [reflexivity|]. cbn. split; [done|]. split; [by eapply same_hyper_trans|].
    split; [done|]. split; [rewrite length_app; simpl; lia|].
    apply Forall_app. split; [done|]. by constructor.
Qed.

Lemma fit_bpr_trains_valid argsort rand n m K users positives (X : list (list R))
      users_valid positives_valid (X_valid : list (list R)) W H
      iterations lr wd nt verbose :
  rect n m X -> rect n K W -> rect m K H ->
  users <> [] -> length positives = length users ->
  Forall (fun u => (u < n)%nat) users -> Forall (fun i => (i < m)%nat) positives ->
  (forall u Xu, u ∈ users -> X !! u = Some Xu -> exists x, x ∈ Xu /\ x <> 1) ->
  rect n m X_valid ->
  users_valid <> [] -> length positives_valid = length users_valid ->
  Forall (fun u => (u < n)%nat) users_valid ->
  Forall (fun i => (i < m)%nat) positives_valid ->
  (forall u Xu, u ∈ users_valid -> X_valid !! u = Some Xu -> exists x, x ∈ Xu /\ x <> 1) ->
  (length users_valid <= length users)%nat ->
  (0 <= iterations)%Z ->
  exists st history,
    Bpr.fit_bpr argsort rand users positives X (Some (users_valid, positives_valid, X_valid)) None
      W H iterations lr wd nt verbose = (st, Ok history) /\
    length history = Z.to_nat iterations /\
    Forall reports_both_losses history /\
    rect n K (U.W st) /\ rect m K (U.H st).
Proof.
  intros HX HW HH Hne Hlp Hu Hp Hcand HXv Hnev Hlpv Huv Hpv Hcandv Hlv Hit.
  assert (HF : Forall (fun u => (u < length X)%nat) users) by (by rewrite (proj1 HX)).
  assert (HFv : Forall (fun u => (u < length X_valid)%nat) users_valid)
    by (by rewrite (proj1 HXv)).
  destruct (sample_negatives_spec rand 0 users X iterations
              (replicate (length users) (replicate (Z.to_nat iterations) 0%nat))
              Hit ltac:(by rewrite length_replicate) HF Hcand) as (negs & E & _ & _).
  destruct (sample_negatives_spec rand (length users) users_valid X_valid iterations
              (replicate (length users_valid) (replicate (Z.to_nat iterations) 0%nat))
              Hit ltac:(by rewrite length_replicate) HFv Hcandv) as (negsv & Ev & _ & _).
  pose proof (sampled_negatives_in_range_from rand 0 n m users positives X iterations negs
                HX Hlp Hu Hp Hcand Hit E) as Hs.
  pose proof (sampled_negatives_in_range_from rand (length users) n m users_valid
                positives_valid X_valid iterations negsv HXv Hlpv Huv Hpv Hcandv Hit Ev) as Hsv.
  destruct (epochs_valid_report argsort n m K users positives negs users_valid positives_valid negsv
              (Z.to_nat iterations) (zeros (length users)) ∅ [] (U.init W H lr wd)
              (init_wf n m K W H lr wd HW HH) Hne Hs Hnev Hsv Hlv
              ltac:(apply length_replicate) ltac:(constructor))
    as (st' & r & Er & Hwf' & _ & _ & Hh & Hpos).
  exists st', r.2. unfold Bpr.fit_bpr.
  unfold pbind, lift, pret.
  rewrite int_zeros2_Ok by lia. cbv beta iota. rewrite E. cbv beta iota.
  rewrite int_zeros2_Ok by lia. cbv beta iota. rewrite Ev. cbv beta iota.
  rewrite Er.
  split; [reflexivity|]. split; [simpl in Hh; lia|]. split; [exact Hpos|].
  destruct Hwf' as (? & _ & _ & ? & _). auto.
Qed.

(** ** The number of iterations *)

Lemma fit_bpr_negative_iterations argsort rand users positives X valid X_test W H iterations
      lr wd nt verbose :
  (iterations < 0)%Z ->
  Bpr.fit_bpr argsort rand users positives X valid X_test W H iterations lr wd nt verbose
  = (U.init W H lr wd, Raise ValueError).
Proof.
  intros Hit. unfold Bpr.fit_bpr, pbind, lift, int_zeros2.
  destruct (Z.ltb_spec iterations 0); [reflexivity|lia].
Qed.

Lemma sample_negatives_none rand call0 users (X : list (list R)) negs0 :
  Forall (fun u => (u < length X)%nat) users -> length negs0 = length users ->
  exists negs, Bpr.sample_negatives rand call0 users X 0 negs0 = Ok negs.
Proof.
  intros Hu Hl. rewrite sample_negatives_fill.
  destruct (fill_loop_Ok (negatives_of rand call0 users X 0) (length users) negs0)
    as (negs & E & _); [lia| |eauto].
  intros l Hlt. unfold negatives_of.
  destruct (lookup_lt_is_Some_2 users l Hlt) as [u Hul].
  rewrite (proj2 (get1_Ok users l u) Hul). cbn [bind].
  rewrite Forall_lookup in Hu.
  destruct (lookup_lt_is_Some_2 X u (Hu l u Hul)) as [Xu HXu].
  unfold index_row. rewrite HXu. cbn [bind]. rewrite random_choice_none. eauto.
Qed.

Lemma fit_bpr_no_iterations argsort rand users positives (X : list (list R)) X_test W H
      lr wd nt verbose :
  Forall (fun u => (u < length X)%nat) users ->
  Bpr.fit_bpr argsort rand users positives X None X_test W H 0 lr wd nt verbose
  = (U.init W H lr wd, Ok []).
Proof.
  intros Hu. unfold Bpr.fit_bpr.
  destruct (sample_negatives_none rand 0 users X
              (replicate (length users) (replicate (Z.to_nat 0) 0%nat)) Hu
              ltac:(apply length_replicate)) as (negs & E).
  unfold pbind, lift, pret. rewrite int_zeros2_Ok by lia. cbv beta iota.
  rewrite E. reflexivity.
Qed.

Lemma fit_glove_no_iterations model GloVeModel forward backward
      central_words context_words counts cW cb xW xb iterations lr x_max alpha wd nt verbose :
  (iterations <= 0)%Z ->
  Fastmf.fit_glove model GloVeModel forward backward central_words context_words counts
    cW cb xW xb iterations lr x_max alpha wd nt verbose
  = (GloVeModel cW xW cb xb x_max alpha lr nt, Ok tt) /\
  Cymf._fit_glove model GloVeModel forward backward central_words context_words counts
    cW cb xW xb iterations lr x_max alpha nt verbose
  = (GloVeModel cW xW cb xb x_max alpha lr nt, Ok tt).
Proof.
  intros Hit. unfold Fastmf.fit_glove, Cymf._fit_glove.
  replace (Z.to_nat iterations) with 0%nat by lia. split; reflexivity.
Qed.

(** * [read_text] *)

Lemma Counter_lookup_from (words : list string) (c0 : gmap string nat) (w : string) :
  is_Some (foldl (fun count w => <[w := S (default 0%nat (count !! w))]> count) c0 words !! w)
  <-> is_Some (c0 !! w) \/ w ∈ words.
Proof.
  revert c0. induction words as [|w' words IH]; intros c0; simpl.
  - rewrite elem_of_nil. tauto.
  - rewrite IH, elem_of_cons. destruct (decide (w = w')) as [->|Hne].
    + rewrite lookup_insert_eq. split; [auto|]. intros _. left. eauto.
    + rewrite lookup_insert_ne by done. split; [tauto|]. intros [?|[?|?]]; tauto.
Qed.

Lemma Counter_lookup (words : list string) (w : string) :
  is_Some (RT.Counter words !! w) <-> w ∈ words.
Proof.
  unfold RT.Counter. rewrite Counter_lookup_from, lookup_empty.
  split; [intros [[? [=]]|?]; done|auto].
Qed.

Lemma first_missing_cons count w words :
  first_missing count (w :: words) =
  if decide (count !! w = None) then Some w else first_missing count words.
Proof.
  unfold first_missing. cbn [list_find]. destruct (decide (count !! w = None)); [reflexivity|].
  destruct (list_find _ words) as [[i y]|]; reflexivity.
Qed.

Lemma indexed_fresh count min_count v :
  indexed count min_count v -> RT.i2w v !! size (RT.w2i v) = None.
Proof.
  intros (_ & Hdom & _). apply eq_None_not_Some. rewrite Hdom. lia.
Qed.

Lemma indexed_insert count min_count v w :
  indexed count min_count v -> RT.w2i v !! w = None -> frequent count min_count w = true ->
  indexed count min_count
    (RT.mk_vocabulary (<[w := size (RT.w2i v)]> (RT.w2i v))
       (<[size (RT.w2i v) := w]> (RT.i2w v)) (RT.tmp v ++ [size (RT.w2i v)])).
Proof.
  intros Hv Hw Hf. pose proof (indexed_fresh _ _ _ Hv) as Hfresh.
  destruct Hv as (Hinv & Hdom & Hfreq).
  split; [|split]; cbn [RT.w2i RT.i2w].
  - intros w' i. destruct (decide (w' = w)) as [->|Hne].
    + rewrite lookup_insert_eq. destruct (decide (i = size (RT.w2i v))) as [->|Hni].
      * rewrite lookup_insert_eq. tauto.
      * rewrite lookup_insert_ne by done. split; [congruence|].
        intros Hi. apply Hinv in Hi. congruence.
    + rewrite lookup_insert_ne by done. destruct (decide (i = size (RT.w2i v))) as [->|Hni].
      * rewrite lookup_insert_eq. split; [|congruence].
        intros Hi. apply Hinv in Hi. congruence.
      * rewrite lookup_insert_ne by done. apply Hinv.
  - intros i. rewrite map_size_insert_None by exact Hw.
    destruct (decide (i = size (RT.w2i v))) as [->|Hni].
    + rewrite lookup_insert_eq. split; [lia|eauto].
    + rewrite lookup_insert_ne by done. rewrite Hdom. lia.
  - intros w'. destruct (decide (w' = w)) as [->|Hne]; [auto|].
    rewrite lookup_insert_ne by done. apply Hfreq.
Qed.

(** The step of the loop over the words of a line. *)
Lemma add_word_spec count min_count w v :
  indexed count min_count v ->
  match count !! w with
  | None => RT.add_word count min_count w v = RT.KeyError w
  | Some _ =>
    exists v', RT.add_word count min_count w v = RT.Read v' /\
      indexed count min_count v' /\ RT.w2i v ⊆ RT.w2i v' /\
      (forall w', is_Some (RT.w2i v' !! w') <->
         is_Some (RT.w2i v !! w') \/ (w' = w /\ frequent count min_count w = true)) /\
      exists new, RT.tmp v' = RT.tmp v ++ new /\
        decodes (RT.w2i v') new (filter (fun w => frequent count min_count w = true) [w])
  end.
Proof.
  intros Hv. pose proof Hv as (Hinv & Hdom & Hfreq).
  unfold RT.add_word, RT.getitem.
  destruct (count !! w) as [c|] eqn:Ec.
  - assert (Hfw : frequent count min_count w = (min_count <=? Z.of_nat c)%Z).
    { unfold frequent. by rewrite Ec. }
    rewrite filter_cons, filter_nil.
    destruct (decide (RT.w2i v !! w = None)) as [Hw|Hw]; cbn [RT.and_then].
    + destruct (min_count <=? Z.of_nat c)%Z eqn:Hc.
      * eexists. split; [reflexivity|]. split; [by apply indexed_insert|].
        cbn [RT.w2i RT.tmp]. split; [by apply insert_subseteq|]. split.
        { intros w'. destruct (decide (w' = w)) as [->|Hne].
          - rewrite lookup_insert_eq. split; [auto|eauto].
          - rewrite lookup_insert_ne by done. split; [auto|]. intros [?|[? _]]; done. }
        exists [size (RT.w2i v)]. split; [reflexivity|].
        rewrite decide_True by exact Hfw. constructor; [apply lookup_insert_eq|constructor].
      * cbn [RT.and_then]. exists v. split; [reflexivity|]. split; [exact Hv|].
        split; [done|]. split.
        { intros w'. split; [auto|]. intros [?|[_ ?]]; [done|congruence]. }
        exists []. split; [by rewrite app_nil_r|].
        rewrite decide_False by congruence. constructor.
    + cbn [RT.and_then]. destruct (RT.w2i v !! w) as [i|] eqn:Ei; [|done].
      assert (Hc : (min_count <=? Z.of_nat c)%Z = true).
      { rewrite <- Hfw. apply Hfreq. eauto. }
      rewrite Hc. cbn [RT.and_then]. eexists. split; [reflexivity|].
      split; [exact Hv|]. cbn [RT.w2i RT.tmp]. split; [done|]. split.
      { intros w'. split; [auto|]. intros [?|[-> _]]; [done|eauto]. }
      exists [i]. split; [reflexivity|].
      rewrite decide_True by congruence. constructor; [exact Ei|constructor].
  - destruct (decide (RT.w2i v !! w = None)) as [Hw|Hw]; [reflexivity|].
    exfalso. assert (Hs : is_Some (RT.w2i v !! w)) by (by destruct (RT.w2i v !! w); eauto).
    apply Hfreq in Hs. unfold frequent in Hs. rewrite Ec in Hs. discriminate.
Qed.

Lemma first_missing_app count l1 l2 :
  first_missing count (l1 ++ l2) =
  match first_missing count l1 with
  | Some w => Some w
  | None => first_missing count l2
  end.
Proof.
  induction l1 as [|w l1 IH]; [reflexivity|].
  cbn [app]. rewrite !first_missing_cons. destruct (decide (count !! w = None)); auto.
Qed.

Lemma first_missing_None count words :
  first_missing count words = None <-> forall w, w ∈ words -> is_Some (count !! w).
Proof.
  induction words as [|w words IH].
  - split; [intros _ w Hw; inversion Hw|reflexivity].
  - rewrite first_missing_cons. destruct (decide (count !! w = None)) as [Hn|Hs].
    + split; [discriminate|]. intros Hall. destruct (Hall w) as [c Hc]; [left|congruence].
    + rewrite IH. split.
      * intros Hall w' Hw'. apply elem_of_cons in Hw' as [->|Hw']; [|by apply Hall].
        by destruct (count !! w); eauto.
      * intros Hall w' Hw'. apply Hall. by right.
Qed.

Lemma first_missing_Some count words w :
  first_missing count words = Some w -> w ∈ words /\ count !! w = None.
Proof.
  induction words as [|w' words IH]; [discriminate|].
  rewrite first_missing_cons. destruct (decide (count !! w' = None)) as [Hn|Hs].
  - intros [= <-]. split; [left|exact Hn].
  - intros E. destruct (IH E). split; [by right|done].
Qed.

Lemma decodes_weaken (d d' : gmap string nat) indices words :
  d ⊆ d' -> decodes d indices words -> decodes d' indices words.
Proof.
  intros Hsub Hd. unfold decodes in *. eapply Forall2_impl; [exact Hd|].
  intros i w Hi. exact (lookup_weaken _ _ _ _ Hi Hsub).
Qed.

Lemma add_words_spec count min_count words v :
  indexed count min_count v ->
  match first_missing count words with
  | Some w => RT.for_each words (RT.add_word count min_count) v = RT.KeyError w
  | None =>
    exists v', RT.for_each words (RT.add_word count min_count) v = RT.Read v' /\
      indexed count min_count v' /\ RT.w2i v ⊆ RT.w2i v' /\
      (forall w', is_Some (RT.w2i v' !! w') <->
         is_Some (RT.w2i v !! w') \/ (w' ∈ words /\ frequent count min_count w' = true)) /\
      exists new, RT.tmp v' = RT.tmp v ++ new /\
        decodes (RT.w2i v') new (filter (fun w => frequent count min_count w = true) words)
  end.
Proof.
  revert v. induction words as [|w words IH]; intros v Hv.
  - cbn. exists v. split; [reflexivity|]. split; [exact Hv|]. split; [done|]. split.
    + intros w'. rewrite elem_of_nil. tauto.
    + exists []. split; [by rewrite app_nil_r|constructor].
  - rewrite first_missing_cons. cbn [RT.for_each].
    pose proof (add_word_spec count min_count w v Hv) as Hw.
    destruct (count !! w) as [c|] eqn:Ec.
    + rewrite decide_False by congruence.
      destruct Hw as (v1 & E1 & Hv1 & Hsub1 & Hdom1 & new1 & Et1 & Hd1).
      rewrite E1. cbn [RT.and_then]. specialize (IH v1 Hv1).
      destruct (first_missing count words) as [w0|]; [exact IH|].
      destruct IH as (v2 & E2 & Hv2 & Hsub2 & Hdom2 & new2 & Et2 & Hd2).
      exists v2. split; [exact E2|]. split; [exact Hv2|].
      split; [by etrans|]. split.
      * intros w'. rewrite Hdom2, Hdom1, elem_of_cons. split.
        -- intros [[?|[-> ?]]|[? ?]]; auto.
        -- intros [?|[[->|?] ?]]; auto.
      * exists (new1 ++ new2). split; [by rewrite Et2, Et1, app_assoc|].
        change (w :: words) with ([w] ++ words). rewrite filter_app.
        apply Forall2_app; [|exact Hd2]. by eapply decodes_weaken.
    + rewrite decide_True by done. rewrite Hw. reflexivity.
Qed.

Lemma add_line_unfold count min_count line v x :
  RT.add_line count min_count line (v, x) =
  RT.and_then
    (RT.for_each (RT.split RT.space line) (RT.add_word count min_count)
       (RT.mk_vocabulary (RT.w2i v) (RT.i2w v) []))
    (fun v' => RT.Read (v', x ++ [RT.tmp v'])).
Proof. reflexivity. Qed.

Lemma add_lines_spec count min_count lines v x :
  indexed count min_count v ->
  match first_missing count (concat (map (RT.split RT.space) lines)) with
  | Some w => RT.for_each lines (RT.add_line count min_count) (v, x) = RT.KeyError w
  | None =>
    exists v' x',
      RT.for_each lines (RT.add_line count min_count) (v, x) = RT.Read (v', x ++ x') /\
      indexed count min_count v' /\ RT.w2i v ⊆ RT.w2i v' /\
      (forall w', is_Some (RT.w2i v' !! w') <->
         is_Some (RT.w2i v !! w') \/
         (w' ∈ concat (map (RT.split RT.space) lines) /\ frequent count min_count w' = true)) /\
      Forall2 (decodes (RT.w2i v')) x'
        (map (filter (fun w => frequent count min_count w = true))
             (map (RT.split RT.space) lines))
  end.
Proof.
  revert v x. induction lines as [|line lines IH]; intros v x Hv.
  - cbn. exists v, []. rewrite app_nil_r. split; [reflexivity|]. split; [exact Hv|].
    split; [done|]. split; [|constructor].
    intros w'. rewrite elem_of_nil. tauto.
  - cbn [map concat RT.for_each]. rewrite first_missing_app.
    rewrite (add_line_unfold count min_count line v x).
    pose proof (add_words_spec count min_count (RT.split RT.space line)
                  (RT.mk_vocabulary (RT.w2i v) (RT.i2w v) []) Hv) as Hw.
    destruct (first_missing count (RT.split RT.space line)) as [w0|].
    + rewrite Hw. reflexivity.
    + destruct Hw as (v1 & E1 & Hv1 & Hsub1 & Hdom1 & new1 & Et1 & Hd1).
      cbn [RT.w2i RT.tmp app] in Hsub1, Hdom1, Et1.
      rewrite E1. cbn [RT.and_then]. specialize (IH v1 (x ++ [RT.tmp v1]) Hv1).
      destruct (first_missing count (concat (map (RT.split RT.space) lines))) as [w0|];
        [exact IH|].
      destruct IH as (v2 & x2 & E2 & Hv2 & Hsub2 & Hdom2 & Hd2).
      exists v2, (RT.tmp v1 :: x2). split; [by rewrite E2, <- app_assoc|].
      split; [exact Hv2|]. split; [by etrans|]. split.
      * intros w'. rewrite Hdom2, Hdom1, elem_of_app. split.
        -- intros [[?|[? ?]]|[? ?]]; auto.
        -- intros [?|[[?|?] ?]]; auto.
      * constructor; [|exact Hd2]. rewrite Et1. by eapply decodes_weaken.
Qed.

Lemma indexed_empty count min_count : indexed count min_count (RT.mk_vocabulary ∅ ∅ []).
Proof.
  split; [|split]; cbn.
  - intros w i. rewrite !lookup_empty. split; discriminate.
  - intros i. rewrite lookup_empty, map_size_empty. split; [intros [? [=]]|lia].
  - intros w. rewrite lookup_empty. intros [? [=]].
Qed.

Lemma index_words_spec raw min_count :
  match first_missing (word_count raw) (concat (line_words raw)) with
  | Some w => RT.index_words raw min_count = RT.KeyError w
  | None =>
    exists v x,
      RT.index_words raw min_count = RT.Read (v, x) /\
      indexed (word_count raw) min_count v /\
      (forall w, is_Some (RT.w2i v !! w) <->
         w ∈ concat (line_words raw) /\ frequent (word_count raw) min_count w = true) /\
      Forall2 (decodes (RT.w2i v)) x
        (map (filter (fun w => frequent (word_count raw) min_count w = true)) (line_words raw))
  end.
Proof.
  unfold RT.index_words, line_words. fold (word_count raw).
  pose proof (add_lines_spec (word_count raw) min_count (RT.split RT.newline raw)
                (RT.mk_vocabulary ∅ ∅ []) [] (indexed_empty _ _)) as Hs.
  destruct (first_missing _ _) as [w|]; [exact Hs|].
  destruct Hs as (v & x & E & Hv & _ & Hdom & Hd).
  exists v, x. split; [exact E|]. split; [exact Hv|]. split; [|exact Hd].
  intros w. rewrite Hdom. cbn [RT.w2i]. rewrite lookup_empty. split; [|auto].
  intros [[? [=]]|?]. done.
Qed.

Lemma split_not_nil sep s : RT.split sep s <> [].
Proof.
  destruct s as [|c s]; cbn; [done|].
  destruct (Ascii.eqb c sep); [done|]. destruct (RT.split sep s); done.
Qed.

Lemma split_one_line s :
  RT.split RT.newline s = [s] -> RT.replace_newlines s = s.
Proof.
  induction s as [|c s IH]; [reflexivity|]. cbn.
  destruct (Ascii.eqb c RT.newline) eqn:Ec.
  - intros E. discriminate E.
  - destruct (RT.split RT.newline s) as [|w ws] eqn:Es;
      [by destruct (split_not_nil RT.newline s)|].
    intros [= -> ->]. by rewrite IH.
Qed.

Lemma split_trailing sep s :
  RT.split sep (String.append s (String sep EmptyString)) = RT.split sep s ++ [EmptyString].
Proof.
  induction s as [|c s IH].
  - change (RT.split sep (String sep EmptyString) = [EmptyString; EmptyString]).
    cbn [RT.split]. by rewrite Ascii.eqb_refl.
  - change (RT.split sep (String c (String.append s (String sep EmptyString)))
            = RT.split sep (String c s) ++ [EmptyString]).
    cbn [RT.split]. rewrite IH. destruct (Ascii.eqb c sep); [reflexivity|].
    destruct (RT.split sep s) as [|w ws] eqn:Es; [by destruct (split_not_nil sep s)|].
    reflexivity.
Qed.

Lemma index_words_one_line raw min_count :
  RT.split RT.newline raw = [raw] ->
  exists v x, RT.index_words raw min_count = RT.Read (v, x) /\
    indexed (word_count raw) min_count v /\
    (forall w, is_Some (RT.w2i v !! w) <->
       w ∈ RT.split RT.space raw /\ frequent (word_count raw) min_count w = true) /\
    exists indices, x = [indices] /\
      decodes (RT.w2i v) indices
        (filter (fun w => frequent (word_count raw) min_count w = true)
                (RT.split RT.space raw)).
Proof.
  intros Hone. pose proof (index_words_spec raw min_count) as Hs.
  assert (Hl : line_words raw = [RT.split RT.space raw]).
  { unfold line_words. by rewrite Hone. }
  rewrite Hl in Hs. cbn [concat map] in Hs. rewrite app_nil_r in Hs.
  assert (Hm : first_missing (word_count raw) (RT.split RT.space raw) = None).
  { apply first_missing_None. intros w Hw. unfold word_count.
    rewrite (split_one_line raw Hone). by apply Counter_lookup. }
  rewrite Hm in Hs. destruct Hs as (v & x & E & Hv & Hdom & Hd).
  exists v, x. split; [exact E|]. split; [exact Hv|]. split; [exact Hdom|].
  inversion Hd as [|indices ? x' ? Hd1 Hd2]; subst. inversion Hd2; subst. eauto.
Qed.

Lemma index_words_trailing_newline s min_count :
  let raw := String.append s (String RT.newline EmptyString) in
  EmptyString ∉ RT.split RT.space (RT.replace_newlines raw) ->
  exists key, RT.index_words raw min_count = RT.KeyError key /\
    key ∈ concat (line_words raw) /\ key ∉ RT.split RT.space (RT.replace_newlines raw).
Proof.
  intros raw Hno. pose proof (index_words_spec raw min_count) as Hs.
  destruct (first_missing (word_count raw) (concat (line_words raw))) as [w|] eqn:Ef.
  - exists w. split; [exact Hs|]. apply first_missing_Some in Ef as [Hin Hn].
    split; [exact Hin|]. intros Hw. apply Counter_lookup in Hw.
    unfold word_count in Hn. rewrite Hn in Hw. by destruct Hw.
  - exfalso. apply Hno. apply Counter_lookup.
    apply (proj1 (first_missing_None _ _) Ef).
    unfold line_words, raw. rewrite split_trailing, map_app, concat_app.
    apply elem_of_app. right. cbn. left.
Qed.

(** ** The co-occurrences *)

Lemma for_each_app {A S} (l1 l2 : list A) (body : A -> S -> RT.reading S) (s : S) :
  RT.for_each (l1 ++ l2) body s = RT.and_then (RT.for_each l1 body s) (RT.for_each l2 body).
Proof.
  revert s. induction l1 as [|a l1 IH]; intros s; cbn; [reflexivity|].
  destruct (body a s); cbn; auto.
Qed.

Lemma for_each_map {A B S} (f : A -> B) (l : list A) (body : B -> S -> RT.reading S) (s : S) :
  RT.for_each (map f l) body s = RT.for_each l (fun a => body (f a)) s.
Proof.
  revert s. induction l as [|a l IH]; intros s; cbn; [reflexivity|].
  destruct (body (f a) s); cbn; auto.
Qed.

Lemma for_each_ext {A S} (l : list A) (body1 body2 : A -> S -> RT.reading S) (s : S) :
  (forall a s, a ∈ l -> body1 a s = body2 a s) ->
  RT.for_each l body1 s = RT.for_each l body2 s.
Proof.
  revert s. induction l as [|a l IH]; intros s Hb; cbn; [reflexivity|].
  rewrite Hb by left. destruct (body2 a s); cbn; [|reflexivity..].
  apply IH. intros a' s' Ha'. apply Hb. by right.
Qed.

Lemma for_each_flat_map {A B S} (f : A -> list B) (l : list A)
      (body : B -> S -> RT.reading S) (s : S) :
  RT.for_each (flat_map f l) body s = RT.for_each l (fun a => RT.for_each (f a) body) s.
Proof.
  revert s. induction l as [|a l IH]; intros s; cbn [flat_map RT.for_each]; [reflexivity|].
  rewrite for_each_app. destruct (RT.for_each (f a) body s); cbn; auto.
Qed.

Lemma window_positions_spec window_size len j k :
  (j, k) ∈ window_positions window_size len ->
  (k < j < len)%nat.
Proof.
  unfold window_positions. rewrite list_elem_of_In, in_flat_map.
  intros (j' & Hj' & Hin). apply list_elem_of_In in Hj'. apply list_elem_of_In in Hin.
  cbv zeta in Hin.
  apply elem_of_seq in Hj'. apply list_elem_of_fmap in Hin as (k' & [= -> ->] & Hk').
  apply elem_of_seq in Hk'. lia.
Qed.

(** The three loops call the body on the words at the positions of
    [window_positions]. *)
Lemma for_each_context_positions {S} window_size (x : list (list nat))
      (body : nat -> nat -> Z -> S -> RT.reading S) (s : S) :
  RT.for_each_context window_size x body s =
  RT.for_each x (fun line =>
    RT.for_each (window_positions window_size (length line)) (fun p =>
      body (default 0%nat (line !! p.1)) (default 0%nat (line !! p.2))
           (RT.iabs (RT.wrap_int (Z.of_nat p.1 - Z.of_nat p.2))))) s.
Proof.
  unfold RT.for_each_context. apply for_each_ext. intros line s1 _.
  unfold window_positions. rewrite for_each_flat_map.
  apply for_each_ext. intros j s2 Hj. apply elem_of_seq in Hj.
  rewrite for_each_map. apply for_each_ext. intros k s3 Hk. apply elem_of_seq in Hk.
  cbn [fst snd].
  destruct (lookup_lt_is_Some_2 line j ltac:(lia)) as [xj Hxj].
  destruct (lookup_lt_is_Some_2 line k ltac:(lia)) as [xk Hxk].
  rewrite (get1_lookup line j xj Hxj), (get1_lookup line k xk Hxk), Hxj, Hxk.
  reflexivity.
Qed.

Lemma for_each_context_events {S} window_size (x : list (list nat))
      (body : nat -> nat -> Z -> S -> RT.reading S) (s : S) :
  RT.for_each_context window_size x body s =
  RT.for_each (events window_size x) (fun e => body e.1.1 e.1.2 e.2) s.
Proof.
  rewrite for_each_context_positions. unfold events. rewrite for_each_flat_map.
  apply for_each_ext. intros line s1 _. unfold line_events. by rewrite for_each_map.
Qed.

Lemma sum_app (l1 l2 : list R) : sum (l1 ++ l2) = sum l1 + sum l2.
Proof. unfold sum. induction l1 as [|x l1 IH]; simpl; [lra|]. rewrite IH. lra. Qed.

Lemma sum_map_zero {A} (f : A -> R) (l : list A) :
  (forall x, x ∈ l -> f x = 0) -> sum (map f l) = 0.
Proof.
  unfold sum. induction l as [|x l IH]; intros Hf; simpl; [reflexivity|].
  rewrite Hf by left. rewrite IH; [lra|]. intros y Hy. apply Hf. by right.
Qed.

Lemma sum_map_ext {A} (f g : A -> R) (l : list A) :
  (forall x, x ∈ l -> f x = g x) -> sum (map f l) = sum (map g l).
Proof.
  unfold sum. induction l as [|x l IH]; intros Hf; simpl; [reflexivity|].
  rewrite Hf by left. rewrite IH; [lra|]. intros y Hy. apply Hf. by right.
Qed.

Lemma sum_flat_map {A B} (f : B -> R) (g : A -> list B) (l : list A) :
  sum (map f (flat_map g l)) = sum (map (fun a => sum (map f (g a))) l).
Proof.
  induction l as [|a l IH]; [reflexivity|].
  cbn [flat_map map]. rewrite map_app, sum_app, IH. reflexivity.
Qed.

Lemma sum_map_map {A B} (f : B -> R) (g : A -> B) (l : list A) :
  sum (map f (map g l)) = sum (map (fun a => f (g a)) l).
Proof. by rewrite map_map. Qed.

Lemma sum_Permutation (l1 l2 : list R) : l1 ≡ₚ l2 -> sum l1 = sum l2.
Proof.
  unfold sum. induction 1 as [|x l1 l2 _ IH|x y l|l1 l2 l3 _ IH1 _ IH2]; simpl; lra.
Qed.

(** ** The array of the [try] block *)

Lemma add_dense_fold (V : nat) (evs : list (nat * nat * Z)) (m : matrix) :
  rect V V m -> Forall (fun e => (e.1.1 < V)%nat /\ (e.1.2 < V)%nat) evs ->
  exists m', RT.for_each evs (fun e => RT.add_dense e.1.1 e.1.2 e.2) m = RT.Read m' /\
    rect V V m' /\
    forall a b, cell m' a b = cell m a b + events_weight evs a b.
Proof.
  intros Hm Hin. revert m Hm. induction Hin as [|[[ea eb] d] evs [Ha Hb] _ IH]; intros m Hm.
  - exists m. split; [reflexivity|]. split; [exact Hm|].
    intros a b. unfold events_weight, sum. simpl. lra.
  - cbn [fst snd] in *. cbn [RT.for_each fst snd]. unfold RT.add_dense at 1.
    rewrite (get2_cell V V m ea eb Hm Ha Hb). cbn [RT.unchecked RT.and_then].
    rewrite (set2_upd2 V V m ea eb _ Hm Ha Hb). cbn [RT.unchecked RT.and_then].
    destruct (IH _ (rect_upd2 V V m ea eb (cell m ea eb + 1 / IZR d) Hm))
      as (m' & E & Hm' & Hcell).
    exists m'. split; [exact E|]. split; [exact Hm'|].
    intros a b. rewrite Hcell. unfold events_weight. cbn [map fst snd].
    change (sum (?x :: ?l)) with (x + sum l).
    destruct (decide ((ea, eb) = (a, b))) as [[= <- <-]|Hne].
    + rewrite (cell_upd2_eq V V) by assumption. lra.
    + rewrite cell_upd2_ne by congruence. lra.
Qed.

(** ** The map of the handler *)

Lemma wrap_int_small (z : Z) : (- 2 ^ 31 <= z < 2 ^ 31)%Z -> RT.wrap_int z = z.
Proof.
  intros Hz. unfold RT.wrap_int, RT.wrap.
  change (32 - 1)%Z with 31%Z. rewrite Z.mod_small; lia.
Qed.

Lemma wrap_long_small (z : Z) : (- 2 ^ 63 <= z < 2 ^ 63)%Z -> RT.wrap_long z = z.
Proof.
  intros Hz. unfold RT.wrap_long, RT.wrap.
  change (64 - 1)%Z with 63%Z. rewrite Z.mod_small; lia.
Qed.

Lemma key_small (V a b : nat) :
  (Z.of_nat V < 2 ^ 31)%Z -> (a < V)%nat -> (b < V)%nat ->
  RT.wrap_long (Z.of_nat a + RT.wrap_long (Z.of_nat b * Z.of_nat V))
  = (Z.of_nat a + Z.of_nat b * Z.of_nat V)%Z.
Proof.
  intros HV Ha Hb.
  assert (H1 : (0 <= Z.of_nat b * Z.of_nat V < 2 ^ 31 * 2 ^ 31)%Z) by nia.
  change (2 ^ 31 * 2 ^ 31)%Z with (2 ^ 62)%Z in H1.
  rewrite (wrap_long_small (Z.of_nat b * Z.of_nat V)) by lia.
  apply wrap_long_small. lia.
Qed.

Lemma key_inj (V a b a' b' : nat) :
  (a < V)%nat -> (a' < V)%nat ->
  (Z.of_nat a + Z.of_nat b * Z.of_nat V = Z.of_nat a' + Z.of_nat b' * Z.of_nat V)%Z ->
  a = a' /\ b = b'.
Proof.
  intros Ha Ha' E.
  assert (Hb : b = b').
  { destruct (Nat.lt_trichotomy b b') as [Hlt|[Heq|Hgt]]; [exfalso|done|exfalso].
    - assert (Z.of_nat b + 1 <= Z.of_nat b')%Z by lia. nia.
    - assert (Z.of_nat b' + 1 <= Z.of_nat b)%Z by lia. nia. }
  subst b'. split; [lia|done].
Qed.

Lemma key_decode (V a b : nat) :
  (a < V)%nat ->
  Z.rem (Z.of_nat a + Z.of_nat b * Z.of_nat V) (Z.of_nat V) = Z.of_nat a /\
  Z.quot (Z.of_nat a + Z.of_nat b * Z.of_nat V) (Z.of_nat V) = Z.of_nat b.
Proof.
  intros Ha.
  rewrite Z.rem_mod_nonneg, Z.quot_div_nonneg by nia.
  rewrite Z.mod_add, Z.div_add by lia.
  rewrite Z.mod_small, Z.div_small by lia. lia.
Qed.

Lemma add_sparse_fold (V : nat) (evs : list (nat * nat * Z)) (sm : gmap Z R) :
  (Z.of_nat V < 2 ^ 31)%Z -> encoded V sm ->
  Forall (fun e => (e.1.1 < V)%nat /\ (e.1.2 < V)%nat) evs ->
  exists sm',
    RT.for_each evs (fun e => RT.add_sparse (Z.of_nat V) e.1.1 e.1.2 e.2) sm = RT.Read sm' /\
    encoded V sm' /\
    forall a b, (a < V)%nat -> (b < V)%nat ->
      default 0 (sm' !! (Z.of_nat a + Z.of_nat b * Z.of_nat V)%Z)
      = default 0 (sm !! (Z.of_nat a + Z.of_nat b * Z.of_nat V)%Z) + events_weight evs a b.
Proof.
  intros HV Hsm Hin. revert sm Hsm.
  induction Hin as [|[[ea eb] d] evs [Ha Hb] _ IH]; intros sm Hsm.
  - exists sm. split; [reflexivity|]. split; [exact Hsm|].
    intros a b _ _. unfold events_weight, sum. simpl. lra.
  - cbn [fst snd] in *. cbn [RT.for_each fst snd]. unfold RT.add_sparse at 1.
    rewrite (key_small V ea eb HV Ha Hb). cbn [RT.and_then].
    set (key := (Z.of_nat ea + Z.of_nat eb * Z.of_nat V)%Z).
    destruct (IH (<[key := default 0 (sm !! key) + 1 / IZR d]> sm)) as (sm' & E & Hsm' & Hval).
    { intros k v. destruct (decide (k = key)) as [->|Hne].
      - intros _. exists ea, eb. auto.
      - rewrite lookup_insert_ne by done. apply Hsm. }
    exists sm'. split; [exact E|]. split; [exact Hsm'|].
    intros a b Ha' Hb'. rewrite (Hval a b Ha' Hb'). unfold events_weight. cbn [map fst snd].
    change (sum (?x :: ?l)) with (x + sum l).
    destruct (decide ((ea, eb) = (a, b))) as [[= <- <-]|Hne].
    + fold key. rewrite lookup_insert_eq.
      change (default 0 (Some ?y)) with y. lra.
    + rewrite lookup_insert_ne; [lra|]. unfold key. intros Ek.
      apply key_inj in Ek as [-> ->]; [done|lia..].
Qed.

Lemma coordinates_entry (V : nat) (sm : gmap Z R) :
  encoded V sm ->
  Forall (fun e => (0 <= e.1.1 < Z.of_nat V)%Z /\ (0 <= e.1.2 < Z.of_nat V)%Z)
         (RT.coordinates (Z.of_nat V) sm) /\
  forall a b, (a < V)%nat -> (b < V)%nat ->
    entry (RT.Coordinates (RT.coordinates (Z.of_nat V) sm) V) a b
    = default 0 (sm !! (Z.of_nat a + Z.of_nat b * Z.of_nat V)%Z).
Proof.
  unfold entry, RT.coordinates.
  induction sm as [|k v sm Hk Hfresh IH] using map_first_key_ind; intros Henc.
  - rewrite map_to_list_empty. split; [constructor|].
    intros a b _ _. rewrite lookup_empty. reflexivity.
  - rewrite (map_to_list_insert_first_key sm k v Hk Hfresh). cbn [map fst snd].
    destruct (Henc k v (lookup_insert_eq sm k v)) as (ka & kb & Hka & Hkb & ->).
    destruct (key_decode V ka kb Hka) as [Er Eq]. rewrite Er, Eq.
    destruct IH as [IHin IHval].
    { intros k' v' Hk'. apply (Henc k' v'). rewrite lookup_insert_ne; [exact Hk'|].
      intros <-. congruence. }
    split; [constructor; [cbn; lia|exact IHin]|].
    intros a b Ha Hb. change (sum (?x :: ?l)) with (x + sum l).
    rewrite (IHval a b Ha Hb).
    destruct (decide ((Z.of_nat ka, Z.of_nat kb) = (Z.of_nat a, Z.of_nat b))) as [[= E1 E2]|Hne].
    + apply Nat2Z.inj in E1, E2. subst. rewrite lookup_insert_eq, Hk.
      change (default 0 (Some ?y)) with y. change (default 0 None) with 0. cbn [snd]. lra.
    + rewrite lookup_insert_ne; [lra|]. intros Ek.
      apply key_inj in Ek as [-> ->]; [done|lia..].
Qed.

(** ** The entries as sums over the positions of the lines *)

Lemma sum_seq_window (f : nat -> R) (first j len : nat) :
  (first <= j <= len)%nat ->
  (forall k, (k < first \/ j <= k)%nat -> f k = 0) ->
  sum (map f (seq 0 len)) = sum (map f (seq first (j - first))).
Proof.
  intros Hj Hz.
  replace len with (first + ((j - first) + (len - j)))%nat at 1 by lia.
  rewrite !seq_app, !map_app, !sum_app. cbn [Nat.add].
  rewrite (sum_map_zero f (seq 0 first)).
  2:{ intros k Hk. apply elem_of_seq in Hk. apply Hz. lia. }
  rewrite (sum_map_zero f (seq (first + (j - first)) (len - j))).
  2:{ intros k Hk. apply elem_of_seq in Hk. apply Hz. lia. }
  lra.
Qed.

Lemma window_first (window_size : Z) (j : nat) :
  (0 <= window_size < 2 ^ 31)%Z -> (Z.of_nat j < 2 ^ 31)%Z ->
  Z.to_nat (RT.imax 0 (RT.wrap_int (Z.of_nat j - window_size))) = (j - Z.to_nat window_size)%nat.
Proof.
  intros Hw Hj. rewrite wrap_int_small by lia. unfold RT.imax.
  destruct (Z.gtb_spec 0 (Z.of_nat j - window_size)); lia.
Qed.

Lemma distance (j k : nat) :
  (k < j)%nat -> (Z.of_nat j < 2 ^ 31)%Z ->
  IZR (RT.iabs (RT.wrap_int (Z.of_nat j - Z.of_nat k))) = INR (j - k).
Proof.
  intros Hk Hj. rewrite wrap_int_small by lia. unfold RT.iabs.
  destruct (Z.ltb_spec (Z.of_nat j - Z.of_nat k) 0); [lia|].
  rewrite INR_IZR_INZ. f_equal. lia.
Qed.

Lemma line_events_weight (window_size : Z) (line : list nat) (a b : nat) :
  (0 <= window_size < 2 ^ 31)%Z -> (Z.of_nat (length line) < 2 ^ 31)%Z ->
  events_weight (line_events window_size line) a b
  = line_weight (Z.to_nat window_size) line a b.
Proof.
  intros Hw Hlen. unfold events_weight, line_events, line_weight, window_positions.
  rewrite sum_map_map, sum_flat_map. apply sum_map_ext. intros j Hj.
  apply elem_of_seq in Hj. cbv zeta. rewrite sum_map_map. cbn [fst snd].
  rewrite (window_first window_size j Hw) by lia.
  rewrite (sum_seq_window (pair_weight (Z.to_nat window_size) line a b j)
             (j - Z.to_nat window_size) j (length line)); [|lia|].
  2:{ intros k Hk. unfold pair_weight. destruct (decide _) as [Hp|_]; [lia|reflexivity]. }
  apply sum_map_ext. intros k Hk. apply elem_of_seq in Hk.
  destruct (lookup_lt_is_Some_2 line j ltac:(lia)) as [xj Hxj].
  destruct (lookup_lt_is_Some_2 line k ltac:(lia)) as [xk Hxk].
  rewrite Hxj, Hxk. cbn [default]. unfold Datatypes.id. rewrite distance by lia.
  unfold pair_weight. rewrite Hxj, Hxk.
  repeat case_decide; try reflexivity; exfalso.
  - match goal with
    | He : (xj, xk) = (a, b), Hn : ~ _ |- _ =>
        injection He as -> ->; apply Hn; split; [lia|]; split; [lia|done]
    end.
  - match goal with
    | Hne : (xj, xk) <> (a, b), Hc : _ /\ _ |- _ =>
        destruct Hc as (_ & _ & [= ->] & [= ->]); by apply Hne
    end.
Qed.

Lemma events_cooccurrence (window_size : Z) (x : list (list nat)) (a b : nat) :
  (0 <= window_size < 2 ^ 31)%Z ->
  Forall (fun line => (Z.of_nat (length line) < 2 ^ 31)%Z) x ->
  events_weight (events window_size x) a b = cooccurrence (Z.to_nat window_size) x a b.
Proof.
  intros Hw Hx. unfold events, cooccurrence.
  unfold events_weight at 1. rewrite sum_flat_map. apply sum_map_ext.
  intros line Hline. rewrite Forall_forall in Hx.
  apply (line_events_weight window_size line a b Hw (Hx line Hline)).
Qed.

Lemma events_in_range (V : nat) (window_size : Z) (x : list (list nat)) :
  Forall (Forall (fun i => (i < V)%nat)) x ->
  Forall (fun e => (e.1.1 < V)%nat /\ (e.1.2 < V)%nat) (events window_size x).
Proof.
  intros Hx. unfold events. apply Forall_flat_map.
  eapply Forall_impl; [exact Hx|]. intros line Hline. cbn beta.
  unfold line_events. apply Forall_forall. intros e He.
  apply list_elem_of_fmap in He as ([j k] & -> & Hp). cbn [fst snd].
  apply window_positions_spec in Hp.
  destruct (lookup_lt_is_Some_2 line j ltac:(lia)) as [xj Hxj].
  destruct (lookup_lt_is_Some_2 line k ltac:(lia)) as [xk Hxk].
  rewrite Hxj, Hxk. cbn [default]. unfold Datatypes.id.
  rewrite Forall_lookup in Hline. eauto.
Qed.

(** ** The two versions of [read_text] *)

Lemma cell_zeros2 (n k a b : nat) : cell (zeros2 n k) a b = 0.
Proof.
  unfold cell, zeros2. destruct (decide (a < n)%nat) as [Ha|Ha].
  - rewrite lookup_replicate_2 by exact Ha. cbn [mbind option_bind].
    destruct (decide (b < k)%nat) as [Hb|Hb].
    + by rewrite lookup_replicate_2.
    + rewrite (proj2 (lookup_ge_None _ _)); [reflexivity|]. rewrite length_replicate. lia.
  - rewrite (proj2 (lookup_ge_None _ _)); [reflexivity|]. rewrite length_replicate. lia.
Qed.

Lemma rect_zeros2_square (n k : nat) : rect n k (zeros2 n k).
Proof.
  split; [apply length_replicate|]. apply Forall_replicate, length_replicate.
Qed.

Lemma events_weight_outside (V : nat) (evs : list (nat * nat * Z)) (a b : nat) :
  Forall (fun e => (e.1.1 < V)%nat /\ (e.1.2 < V)%nat) evs ->
  ~ ((a < V)%nat /\ (b < V)%nat) -> events_weight evs a b = 0.
Proof.
  intros Hin Hab. unfold events_weight. apply sum_map_zero. intros [[ea eb] d] He.
  rewrite Forall_forall in Hin. specialize (Hin _ He). cbn [fst snd] in *.
  case_decide; [|reflexivity]. simplify_eq. lia.
Qed.

Lemma entry_outside (V : nat) (entries : list (Z * Z * R)) (a b : nat) :
  Forall (fun e => (0 <= e.1.1 < Z.of_nat V)%Z /\ (0 <= e.1.2 < Z.of_nat V)%Z) entries ->
  ~ ((a < V)%nat /\ (b < V)%nat) -> entry (RT.Coordinates entries V) a b = 0.
Proof.
  intros Hin Hab. unfold entry. apply sum_map_zero. intros [[ea eb] d] He.
  rewrite Forall_forall in Hin. specialize (Hin _ He). cbn [fst snd] in *.
  case_decide; [|reflexivity]. simplify_eq. lia.
Qed.

Lemma count_dense_spec (V : nat) (window_size : Z) (x : list (list nat)) :
  (0 <= window_size < 2 ^ 31)%Z ->
  Forall (fun line => (Z.of_nat (length line) < 2 ^ 31)%Z) x ->
  Forall (Forall (fun i => (i < V)%nat)) x ->
  exists matrix,
    RT.for_each_context window_size x RT.add_dense (zeros2 V V) = RT.Read matrix /\
    rect V V matrix /\
    forall a b, cell matrix a b = cooccurrence (Z.to_nat window_size) x a b.
Proof.
  intros Hw Hlen Hx. rewrite for_each_context_events.
  destruct (add_dense_fold V (events window_size x) (zeros2 V V) (rect_zeros2_square V V)
              (events_in_range V window_size x Hx)) as (m & E & Hm & Hcell).
  exists m. split; [exact E|]. split; [exact Hm|].
  intros a b. rewrite Hcell, cell_zeros2, (events_cooccurrence window_size x a b Hw Hlen). lra.
Qed.

Lemma count_sparse_spec (V : nat) (window_size : Z) (x : list (list nat)) :
  (0 <= window_size < 2 ^ 31)%Z -> (Z.of_nat V < 2 ^ 31)%Z ->
  Forall (fun line => (Z.of_nat (length line) < 2 ^ 31)%Z) x ->
  Forall (Forall (fun i => (i < V)%nat)) x ->
  exists c,
    RT.count_sparse window_size x V = RT.Read c /\ square_of V c /\
    forall a b, entry c a b = cooccurrence (Z.to_nat window_size) x a b.
Proof.
  intros Hw HV Hlen Hx. unfold RT.count_sparse. rewrite for_each_context_events.
  pose proof (events_in_range V window_size x Hx) as Hev.
  destruct (add_sparse_fold V (events window_size x) ∅ HV) as (sm & E & Hsm & Hval);
    [intros k v; rewrite lookup_empty; discriminate|exact Hev|].
  rewrite E. cbn [RT.and_then].
  destruct (coordinates_entry V sm Hsm) as [Hin Hentry].
  eexists. split; [reflexivity|]. split; [split; [reflexivity|exact Hin]|].
  intros a b. rewrite <- (events_cooccurrence window_size x a b Hw Hlen).
  destruct (decide ((a < V)%nat /\ (b < V)%nat)) as [[Ha Hb]|Hout].
  - rewrite (Hentry a b Ha Hb), (Hval a b Ha Hb), lookup_empty.
    change (default 0 None) with 0. lra.
  - rewrite (entry_outside V _ a b Hin Hout). symmetry.
    by apply (events_weight_outside V).
Qed.

Lemma decodes_in_range count min_count v indices words :
  indexed count min_count v -> decodes (RT.w2i v) indices words ->
  Forall (fun i => (i < size (RT.w2i v))%nat) indices.
Proof.
  intros (Hinv & Hdom & _) Hd. unfold decodes in Hd.
  induction Hd as [|i w indices words Hi _ IH]; constructor; [|exact IH].
  apply Hdom. apply Hinv in Hi. eauto.
Qed.

Lemma indexed_lines_in_range count min_count v x wordss :
  indexed count min_count v -> Forall2 (decodes (RT.w2i v)) x wordss ->
  Forall (Forall (fun i => (i < size (RT.w2i v))%nat)) x.
Proof.
  intros Hv Hd. induction Hd as [|indices words x wordss Hi _ IH]; constructor; [|exact IH].
  by eapply decodes_in_range.
Qed.

Lemma index_words_in_range raw min_count v x :
  RT.index_words raw min_count = RT.Read (v, x) ->
  Forall (Forall (fun i => (i < size (RT.w2i v))%nat)) x.
Proof.
  intros E. pose proof (index_words_spec raw min_count) as Hs.
  destruct (first_missing _ _) as [w|]; [congruence|].
  destruct Hs as (v' & x' & E' & Hv & _ & Hd). rewrite E in E'. injection E' as <- <-.
  by eapply indexed_lines_in_range.
Qed.

Lemma read_text_counts zeros_fits csr_matrix_fits raw min_count window_size v x :
  RT.index_words raw min_count = RT.Read (v, x) ->
  (0 <= window_size < 2 ^ 31)%Z -> (Z.of_nat (size (RT.w2i v)) < 2 ^ 31)%Z ->
  Forall (fun line => (Z.of_nat (length line) < 2 ^ 31)%Z) x ->
  (exists c, RT.read_text zeros_fits csr_matrix_fits raw min_count window_size
             = RT.Read (c, RT.i2w v) /\
     square_of (size (RT.w2i v)) c /\
     forall a b, entry c a b = cooccurrence (Z.to_nat window_size) x a b) /\
  (exists c, RT.cymf_read_text raw min_count window_size = RT.Read (c, RT.i2w v) /\
     square_of (size (RT.w2i v)) c /\
     forall a b, entry c a b = cooccurrence (Z.to_nat window_size) x a b).
Proof.
  intros E Hw HV Hlen. pose proof (index_words_in_range raw min_count v x E) as Hx.
  destruct (count_sparse_spec _ window_size x Hw HV Hlen Hx) as (cs & Es & Hsq & Hent).
  destruct (count_dense_spec _ window_size x Hw Hlen Hx) as (m & Em & Hm & Hcell).
  split.
  - unfold RT.read_text. rewrite E. cbn [RT.and_then fst snd].
    destruct (zeros_fits _).
    + rewrite Em. cbn [RT.and_then]. destruct (csr_matrix_fits _).
      * exists (RT.Dense m). split; [reflexivity|]. split; [exact Hm|exact Hcell].
      * rewrite Es. cbn [RT.and_then]. eauto.
    + rewrite Es. cbn [RT.and_then]. eauto.
  - unfold RT.cymf_read_text. rewrite E. cbn [RT.and_then fst snd].
    rewrite Es. cbn [RT.and_then]. eauto.
Qed.

Lemma add_sparse_fold_Read (V : Z) (evs : list (nat * nat * Z)) (sm : gmap Z R) :
  exists sm', RT.for_each evs (fun e => RT.add_sparse V e.1.1 e.1.2 e.2) sm = RT.Read sm'.
Proof.
  revert sm. induction evs as [|e evs IH]; intros sm; [by exists sm|].
  cbn [RT.for_each]. unfold RT.add_sparse at 1. cbn [RT.and_then]. apply IH.
Qed.

Lemma read_text_Read zeros_fits csr_matrix_fits raw min_count window_size v x :
  RT.index_words raw min_count = RT.Read (v, x) ->
  (exists c, RT.read_text zeros_fits csr_matrix_fits raw min_count window_size
             = RT.Read (c, RT.i2w v)) /\
  (exists c, RT.cymf_read_text raw min_count window_size = RT.Read (c, RT.i2w v)).
Proof.
  intros E. pose proof (index_words_in_range raw min_count v x E) as Hx.
  destruct (add_sparse_fold_Read (Z.of_nat (size (RT.w2i v))) (events window_size x) ∅)
    as (sm & Es).
  destruct (add_dense_fold _ (events window_size x) _
              (rect_zeros2_square (size (RT.w2i v)) (size (RT.w2i v)))
              (events_in_range _ window_size x Hx)) as (m & Em & _).
  assert (Ec : exists c, RT.count_sparse window_size x (size (RT.w2i v)) = RT.Read c).
  { unfold RT.count_sparse. rewrite for_each_context_events, Es. cbn [RT.and_then]. eauto. }
  destruct Ec as (cs & Ec).
  split.
  - unfold RT.read_text. rewrite E. cbn [RT.and_then fst snd].
    destruct (zeros_fits _).
    + rewrite for_each_context_events, Em. cbn [RT.and_then]. destruct (csr_matrix_fits _).
      * eauto.
      * rewrite Ec. cbn [RT.and_then]. eauto.
    + rewrite Ec. cbn [RT.and_then]. eauto.
  - unfold RT.cymf_read_text. rewrite E. cbn [RT.and_then fst snd].
    rewrite Ec. cbn [RT.and_then]. eauto.
Qed.

Lemma read_text_KeyError zeros_fits csr_matrix_fits raw min_count window_size key :
  RT.index_words raw min_count = RT.KeyError key ->
  RT.read_text zeros_fits csr_matrix_fits raw min_count window_size = RT.KeyError key /\
  RT.cymf_read_text raw min_count window_size = RT.KeyError key.
Proof.
  intros E. unfold RT.read_text, RT.cymf_read_text. rewrite E. auto.
Qed.

Lemma read_text_in_bounds zeros_fits csr_matrix_fits raw min_count window_size :
  RT.read_text zeros_fits csr_matrix_fits raw min_count window_size <> RT.OutOfBounds /\
  RT.cymf_read_text raw min_count window_size <> RT.OutOfBounds.
Proof.
  pose proof (index_words_spec raw min_count) as Hs.
  destruct (first_missing _ _) as [w|].
  - destruct (read_text_KeyError zeros_fits csr_matrix_fits raw min_count window_size w Hs)
      as [-> ->]. split; discriminate.
  - destruct Hs as (v & x & E & _).
    destruct (read_text_Read zeros_fits csr_matrix_fits raw min_count window_size v x E)
      as [(c1 & ->) (c2 & ->)]. split; discriminate.
Qed.

(** ** [ndcg] *)

Lemma for_loop_accumulate (ks : list nat) (body : nat -> vector -> outcome vector)
      (g : nat -> R) (i : nat) (buf : vector) :
  (i < length buf)%nat ->
  (forall j buf', j ∈ ks -> (i < length buf')%nat ->
     body j buf' = Ok (<[i := value_at buf' i + g j]> buf')) ->
  for_loop ks body buf = Ok (<[i := value_at buf i + sum (map g ks)]> buf).
Proof.
  revert buf. induction ks as [|j ks IH]; intros buf Hi Hb.
  - cbn. unfold sum. cbn. rewrite Rplus_0_r.
    destruct (lookup_lt_is_Some_2 buf i Hi) as [x Hx]. unfold value_at. rewrite Hx. cbn.
    by rewrite list_insert_id.
  - cbn [for_loop]. rewrite Hb by (done || left). cbn [bind].
    rewrite IH.
    + rewrite list_insert_insert_eq. do 2 f_equal.
      unfold value_at at 1. rewrite list_lookup_insert_eq by exact Hi. cbn [map].
      change (sum (?x :: ?l)) with (x + sum l). cbn. lra.
    + by rewrite length_insert.
    + intros j' buf' Hj' Hi'. apply Hb; [by right|exact Hi'].
Qed.

Lemma value_at_insert (l : vector) i x :
  (i < length l)%nat -> value_at (<[i := x]> l) i = x.
Proof. intros Hi. unfold value_at. by rewrite list_lookup_insert_eq. Qed.

Lemma ndcg_rows (N m k : nat) (tops : list (list nat)) (X : matrix) :
  rect N m X -> top_lists N m k tops -> (1 <= k)%nat ->
  exists ret, Bpr.ndcg tops X k = Ok ret /\ length ret = N /\
    forall i t Xi, tops !! i = Some t -> X !! i = Some Xi ->
      ret !! i = Some (ndcg_row t Xi k).
Proof.
  intros [HN HX] [Ht Htop] Hk1. unfold Bpr.ndcg, shape0. rewrite HN.
  rewrite Forall_lookup in HX. rewrite Forall_lookup in Htop.
  set (body := fun (i : nat) (st : vector * vector) => _).
  destruct (for_range_inv
              (fun (c : nat) (st : vector * vector) =>
                 length st.1 = N /\ length st.2 = N /\
                 (forall i, (c <= i < N)%nat -> st.1 !! i = Some 0 /\ st.2 !! i = Some 0) /\
                 (forall i t Xi, (i < c)%nat -> tops !! i = Some t -> X !! i = Some Xi ->
                    st.2 !! i = Some (ndcg_row t Xi k)))
              N body (zeros N, zeros N)) as (st & E & _ & Hl & _ & Hdone).
  - unfold zeros. cbn [fst snd]. rewrite length_replicate.
    split; [reflexivity|]. split; [reflexivity|]. split.
    + intros i Hi. split; apply lookup_replicate_2; lia.
    + intros i t Xi Hi. lia.
  - intros c [tmp ret] Hc (Hlt & Hlr & Hrest & Hdone'). cbn [fst snd] in *.
    destruct (lookup_lt_is_Some_2 X c ltac:(lia)) as [Xi EX].
    destruct (lookup_lt_is_Some_2 tops c ltac:(lia)) as [t Et].
    destruct (Htop _ _ Et) as (Hk & _ & Hin).
    pose proof (HX _ _ EX) as Hm. rewrite Forall_lookup in Hin.
    destruct (Hrest c ltac:(lia)) as [Htc Hrc].
    assert (Hacc : forall j, (j < k)%nat ->
              get2 tops c j = Ok (default 0%nat (t !! j)) /\
              get2 X c (default 0%nat (t !! j))
              = Ok (value_at Xi (default 0%nat (t !! j)))).
    { intros j Hj. destruct (lookup_lt_is_Some_2 t j ltac:(lia)) as [a Ha].
      rewrite Ha. cbn [default]. split; [apply get2_Ok; eauto|].
      apply (get2_value_at X c Xi a EX). rewrite Hm. apply (Hin j).
      by apply take_lookup_Some. }
    assert (Hstep : forall (tmp' : vector) v, length tmp' = N ->
              (forall i, (Datatypes.S c <= i < N)%nat -> tmp' !! i = Some 0) ->
              v = ndcg_row t Xi k ->
              length tmp' = N /\ length (<[c := v]> ret) = N /\
              (forall i, (Datatypes.S c <= i < N)%nat ->
                 tmp' !! i = Some 0 /\ <[c := v]> ret !! i = Some 0) /\
              (forall i t0 Xi0, (i < Datatypes.S c)%nat -> tops !! i = Some t0 ->
                 X !! i = Some Xi0 -> <[c := v]> ret !! i = Some (ndcg_row t0 Xi0 k))).
    { intros tmp' v Hl' Ht' ->. split; [exact Hl'|]. split; [by rewrite length_insert|]. split.
      - intros i Hi. split; [by apply Ht'|].
        rewrite list_lookup_insert_ne by lia. apply Hrest. lia.
      - intros i t0 Xi0 Hi Et0 EX0. destruct (decide (i = c)) as [->|Hne].
        + rewrite list_lookup_insert_eq by lia. congruence.
        + rewrite list_lookup_insert_ne by lia. apply (Hdone' i); auto. lia. }
    unfold body. cbn [fst snd].
    rewrite (get1_lookup (map sum X) c (sum Xi)) by (by rewrite list_lookup_fmap, EX).
    cbn [bind].
    destruct (Req_dec_T (sum Xi) 0) as [Hz|Hnz].
    + rewrite set1_lt by lia. cbn [bind]. eexists. split; [reflexivity|].
      cbn [fst snd]. apply Hstep; [exact Hlt|intros i Hi; apply Hrest; lia|].
      unfold ndcg_row. by destruct (Req_dec_T (sum Xi) 0).
    + rewrite set1_lt by lia. cbn [bind].
      rewrite (for_loop_accumulate _ _ (fun j => 1 / Bpr.log2 (INR j + 1)) c).
      2:{ rewrite length_insert. lia. }
      2:{ intros j buf' _ Hb. destruct (lookup_lt_is_Some_2 buf' c Hb) as [x Hx].
          rewrite (get1_lookup _ _ _ Hx). cbn [bind]. rewrite set1_lt by exact Hb.
          unfold value_at. rewrite Hx. reflexivity. }
      cbn [bind]. rewrite list_insert_insert_eq.
      destruct (Hacc 0%nat ltac:(lia)) as (Ea0 & Ex0). rewrite Ea0. cbn [bind].
      rewrite Ex0. cbn [bind]. rewrite set1_lt by lia. cbn [bind].
      rewrite (for_loop_accumulate _ _
                 (fun j => value_at Xi (default 0%nat (t !! j)) / Bpr.log2 (INR j + 1)) c).
      2:{ rewrite length_insert. lia. }
      2:{ intros j buf' Hj Hb. apply elem_of_seq in Hj.
          destruct (Hacc j ltac:(lia)) as (Ea & Ex). rewrite Ea. cbn [bind].
          rewrite Ex. cbn [bind].
          destruct (lookup_lt_is_Some_2 buf' c Hb) as [x Hx].
          rewrite (get1_lookup _ _ _ Hx). cbn [bind]. rewrite set1_lt by exact Hb.
          unfold value_at at 2. rewrite Hx. reflexivity. }
      cbn [bind]. rewrite list_insert_insert_eq.
      rewrite get1_insert_eq by lia. cbn [bind].
      rewrite get1_insert_eq by lia. cbn [bind].
      rewrite set1_lt by (rewrite length_insert; lia). cbn [bind].
      rewrite list_insert_insert_eq.
      eexists. split; [reflexivity|]. cbn [fst snd].
      apply Hstep.
      * by rewrite length_insert.
      * intros i Hi. rewrite list_lookup_insert_ne by lia. apply Hrest. lia.
      * unfold ndcg_row. destruct (Req_dec_T (sum Xi) 0); [contradiction|].
        unfold dcg, ideal_dcg. rewrite !value_at_insert by lia. reflexivity.
  - rewrite E. cbn [bind]. exists st.2. split; [reflexivity|]. split; [exact Hl|].
    intros i t Xi Et EX. apply (Hdone i t Xi); auto.
    apply lookup_lt_Some in EX. lia.
Qed.

Lemma log2_ge_1 (j : nat) : (1 <= j)%nat -> 1 <= Bpr.log2 (INR j + 1).
Proof.
  intros Hj. unfold Bpr.log2.
  assert (H2 : 0 < ln 2) by (pose proof ln_lt_2; lra).
  assert (Hle : ln 2 <= ln (INR j + 1)).
  { assert (Hj1 : 1 <= INR j) by (change 1 with (INR 1); by apply le_INR).
    destruct (Req_dec_T (INR j + 1) 2) as [->|Hne]; [lra|].
    left. apply ln_increasing; lra. }
  apply (Rmult_le_reg_r (ln 2)); [exact H2|].
  unfold Rdiv. rewrite Rmult_assoc, Rinv_l by lra. lra.
Qed.

Lemma log2_mono (a b : nat) :
  (1 <= a <= b)%nat -> Bpr.log2 (INR a + 1) <= Bpr.log2 (INR b + 1).
Proof.
  intros [Ha Hab]. unfold Bpr.log2.
  assert (H2 : 0 < ln 2) by (pose proof ln_lt_2; lra).
  assert (Hi : INR a <= INR b) by (by apply le_INR).
  assert (Ha0 : 0 <= INR a) by apply pos_INR.
  assert (Hle : ln (INR a + 1) <= ln (INR b + 1)).
  { destruct (Req_dec_T (INR a) (INR b)) as [->|Hne]; [lra|].
    left. apply ln_increasing; lra. }
  unfold Rdiv. apply Rmult_le_compat_r; [|exact Hle].
  left. by apply Rinv_0_lt_compat.
Qed.

Lemma discount_pos (j : nat) : 0 < discount j <= 1.
Proof.
  destruct j as [|j]; cbn [discount]; [lra|].
  pose proof (log2_ge_1 (S j) ltac:(lia)) as Hl.
  assert (Hi : 0 < / Bpr.log2 (INR (S j) + 1)) by (apply Rinv_0_lt_compat; lra).
  unfold Rdiv. rewrite Rmult_1_l. split; [exact Hi|].
  apply (Rmult_le_reg_r (Bpr.log2 (INR (S j) + 1))); [lra|]. rewrite Rinv_l by lra. lra.
Qed.

Lemma discount_decreasing (a b : nat) : (a <= b)%nat -> discount b <= discount a.
Proof.
  intros Hab. destruct a as [|a].
  - destruct (discount_pos b) as [_ H1]. exact H1.
  - destruct b as [|b]; [lia|]. cbn [discount].
    pose proof (log2_ge_1 (S a) ltac:(lia)) as Ha.
    pose proof (log2_mono (S a) (S b) ltac:(lia)) as Hm.
    unfold Rdiv. rewrite !Rmult_1_l. apply Rinv_le_contravar; lra.
Qed.

Lemma sum_seq_S (f : nat -> R) (n : nat) :
  sum (map f (seq 0 (S n))) = sum (map f (seq 0 n)) + f n.
Proof. rewrite seq_S, map_app. cbn [map]. apply sum_snoc. Qed.

Lemma sum_seq_mono (f : nat -> R) (a b : nat) :
  (a <= b)%nat -> (forall j, 0 <= f j) ->
  sum (map f (seq 0 a)) <= sum (map f (seq 0 b)).
Proof.
  intros Hab Hf. induction Hab as [|b Hab IH]; [lra|].
  rewrite sum_seq_S. pose proof (Hf b). lra.
Qed.

(** The gain of a list with [h] hits is at most the gain of a list that
    has its [h] hits at the front. *)
Lemma gain_le_front (x : nat -> R) (k : nat) :
  (forall j, x j = 0 \/ x j = 1) ->
  exists h, (h <= k)%nat /\ INR h = sum (map x (seq 0 k)) /\
    0 <= sum (map (fun j => x j * discount j) (seq 0 k))
      <= sum (map discount (seq 0 h)).
Proof.
  intros Hx. induction k as [|k (h & Hh & Hc & Hg)].
  - exists 0%nat. cbn. unfold sum. cbn. split; [lia|]. split; [reflexivity|lra].
  - rewrite !sum_seq_S. destruct (Hx k) as [E|E]; rewrite E.
    + exists h. split; [lia|]. split; [lra|lra].
    + exists (S h). split; [lia|]. rewrite S_INR, sum_seq_S.
      pose proof (discount_decreasing h k Hh). pose proof (discount_pos k). lra.
Qed.

Lemma take_as_seq (t : list nat) (k : nat) :
  (k <= length t)%nat -> take k t = map (fun j => default 0%nat (t !! j)) (seq 0 k).
Proof.
  intros Hk. apply list_eq. intros i. rewrite list_lookup_fmap.
  destruct (decide (i < k)%nat) as [Hi|Hi].
  - rewrite lookup_take_lt, lookup_seq_lt by lia. cbn.
    destruct (lookup_lt_is_Some_2 t i ltac:(lia)) as [a ->]. reflexivity.
  - rewrite lookup_take_ge, lookup_seq_ge by lia. reflexivity.
Qed.

Lemma dcg_as_sum (top : list nat) (Xi : vector) (k : nat) :
  (1 <= k)%nat ->
  dcg top Xi k
  = sum (map (fun j => value_at Xi (default 0%nat (top !! j)) * discount j) (seq 0 k)).
Proof.
  intros Hk. unfold dcg. destruct k as [|k]; [lia|].
  cbn [seq map]. change (sum (?x :: ?l)) with (x + sum l).
  replace (S k - 1)%nat with k by lia. cbn [discount]. rewrite Rmult_1_r. f_equal.
  apply sum_map_ext. intros j Hj. apply elem_of_seq in Hj.
  destruct j as [|j]; [lia|]. cbn [discount]. unfold Rdiv. lra.
Qed.

Lemma ideal_dcg_as_sum (s : R) (k : nat) :
  ideal_dcg s k
  = sum (map discount (seq 0 (S (Z.to_nat (Int_part (Rmin s (INR k))) - 1)))).
Proof.
  unfold ideal_dcg. cbn [seq map]. change (sum (?x :: ?l)) with (x + sum l).
  cbn [discount]. f_equal. apply sum_map_ext. intros j Hj. apply elem_of_seq in Hj.
  destruct j as [|j]; [lia|]. reflexivity.
Qed.

Lemma hits_at_most (h k : nat) (s : R) :
  (h <= k)%nat -> INR h <= s ->
  (h <= S (Z.to_nat (Int_part (Rmin s (INR k))) - 1))%nat.
Proof.
  intros Hk Hs.
  assert (Hm : INR h <= Rmin s (INR k)).
  { apply Rmin_glb; [exact Hs|by apply le_INR]. }
  destruct (base_Int_part (Rmin s (INR k))) as [_ Hb].
  assert (Hz : (Z.of_nat h < Int_part (Rmin s (INR k)) + 1)%Z).
  { apply lt_IZR. rewrite plus_IZR, <- INR_IZR_INZ. lra. }
  lia.
Qed.

Lemma ndcg_row_bounds (t : list nat) (Xi : vector) (k : nat) :
  (1 <= k <= length t)%nat ->
  Forall (fun x => x = 0 \/ x = 1) Xi -> NoDup (take k t) ->
  Forall (fun a => (a < length Xi)%nat) (take k t) ->
  0 <= ndcg_row t Xi k <= 1.
Proof.
  intros [Hk1 Hk] Hbin Hnd Hin. unfold ndcg_row.
  destruct (Req_dec_T (sum Xi) 0) as [Hz|Hnz]; [lra|].
  assert (Hx : forall j, value_at Xi (default 0%nat (t !! j)) = 0 \/
                         value_at Xi (default 0%nat (t !! j)) = 1).
  { intros j. unfold value_at. destruct (Xi !! _) as [x|] eqn:E; cbn; [|auto].
    rewrite Forall_lookup in Hbin. eauto. }
  destruct (gain_le_front (fun j => value_at Xi (default 0%nat (t !! j))) k Hx)
    as (h & Hh & Hc & Hg0 & Hg).
  assert (Hpos : Forall (Rle 0) Xi).
  { eapply Forall_impl; [exact Hbin|]. intros x [->| ->]; simpl; lra. }
  destruct (hits_le_sum t Xi k Hpos Hnd Hin) as [_ Hs].
  assert (Hhs : INR h <= sum Xi).
  { rewrite Hc. unfold hits in Hs. rewrite (take_as_seq t k Hk), map_map in Hs. exact Hs. }
  pose proof (hits_at_most h k (sum Xi) Hh Hhs) as Hle.
  rewrite (dcg_as_sum t Xi k Hk1), ideal_dcg_as_sum.
  pose proof (sum_seq_mono discount h _ Hle (fun j => Rlt_le _ _ (proj1 (discount_pos j))))
    as Hmono.
  assert (H1 : 1 <= sum (map discount
                 (seq 0 (S (Z.to_nat (Int_part (Rmin (sum Xi) (INR k))) - 1))))).
  { assert (Hone : sum (map discount (seq 0 1)) = 1) by (unfold sum; cbn; lra).
    rewrite <- Hone at 1. apply sum_seq_mono; [lia|].
    intros j. left. apply discount_pos. }
  apply div_bounds; lra.
Qed.

Lemma ndcg_bounds (N m k : nat) (tops : list (list nat)) (X : matrix) :
  rect N m X -> top_lists N m k tops -> (1 <= k)%nat ->
  cells (fun x => x = 0 \/ x = 1) X ->
  exists ret, Bpr.ndcg tops X k = Ok ret /\ length ret = N /\
    (forall i t Xi, tops !! i = Some t -> X !! i = Some Xi ->
       ret !! i = Some (ndcg_row t Xi k)) /\
    Forall (fun r => 0 <= r <= 1) ret.
Proof.
  intros HX Htop Hk1 Hbin.
  destruct (ndcg_rows N m k tops X HX Htop Hk1) as (ret & E & Hl & Hrow).
  exists ret. split; [exact E|]. split; [exact Hl|]. split; [exact Hrow|].
  apply Forall_lookup. intros i r Hr.
  destruct HX as [HN HX], Htop as [Ht Htop].
  pose proof (lookup_lt_Some _ _ _ Hr) as Hi.
  destruct (lookup_lt_is_Some_2 X i ltac:(lia)) as [Xi EX].
  destruct (lookup_lt_is_Some_2 tops i ltac:(lia)) as [t Et].
  rewrite (Hrow i t Xi Et EX) in Hr. injection Hr as <-.
  rewrite Forall_lookup in HX. rewrite Forall_lookup in Htop.
  destruct (Htop _ _ Et) as (Hk & Hnd & Hin).
  apply ndcg_row_bounds; auto.
  - unfold cells in Hbin. rewrite Forall_lookup in Hbin. eauto.
  - by rewrite (HX _ _ EX).
Qed.

Lemma evaluate_metrics argsort n m K (W H X : matrix) (stores : Bpr.metrics) :
  sorts argsort ->
  rect n K W -> rect m K H -> rect n m X -> (10 <= m)%nat ->
  exists r nd a,
    Bpr.evaluate argsort W H X stores
    = Ok (<["MAP@10" := mean a]> (<["nDCG@10" := mean nd]> (<["Reacall@10" := mean r]> stores))) /\
    length r = n /\ length nd = n /\ length a = n /\
    Forall (fun x => 0 <= x <= 1) a /\
    (cells (fun x => x = 0 \/ x = 1) X ->
     Forall (fun x => 0 <= x <= 1) r /\ Forall (fun x => 0 <= x <= 1) nd).
Proof.
  intros Hsort HW HH HX H10. unfold Bpr.evaluate.
  rewrite (dot_transposed_Ok n m K W H HW HH). cbn [bind].
  pose proof (top_lists_scores argsort n m W H Hsort (proj1 HW) (proj1 HH) H10) as Htop.
  destruct (recall_binary n m 10 _ X HX Htop) as (r & Er & Hlr & _ & Hbr).
  destruct (ndcg_rows n m 10 _ X HX Htop ltac:(lia)) as (nd & End & Hlnd & _).
  destruct (ap_bounds n m 10 _ X HX Htop) as (a & Ea & Hla & Hba).
  rewrite Er. cbn [bind]. rewrite End. cbn [bind]. rewrite Ea. cbn [bind].
  exists r, nd, a. split; [reflexivity|]. split; [exact Hlr|]. split; [exact Hlnd|].
  split; [exact Hla|]. split; [exact Hba|].
  intros Hbin. split; [by apply Hbr|].
  destruct (ndcg_bounds n m 10 _ X HX Htop ltac:(lia) Hbin) as (nd' & End' & _ & _ & Hb).
  rewrite End in End'. injection End' as <-. exact Hb.
Qed.

(** ** More validation samples than entries of the buffer *)




(** * The claims *)

(** ** C1: validation of the input matrix *)

(** Sibling path: [GloVe.fit] of [cymf] rejects [None] with a [ValueError]
    and every object that is not a [lil_matrix], [csr_matrix] or
    [csc_matrix] with a [TypeError], and leaves the object as it was. *)
Lemma cymf_fit_validates model GloVeModel forward backward cW cb xW cpucount rnd samples
      X num_epochs num_threads verbose self :
  isinstance_lil_csr_csc X = false ->
  exists e, (e = ValueError \/ e = TypeError) /\
    Cymf.GloVe_fit model GloVeModel forward backward cW cb xW cpucount rnd samples
      X num_epochs num_threads verbose self = (self, Raise e).
Proof.
  intros HX. rewrite cymf_fit_rejects by exact HX.
  destruct (is_None X); eauto.
Qed.

(** C1.  [GloVe.fit] of [fastmf] has no check of the type of [X]: called on a
    dense two-dimensional array it allocates the four parameter arrays and
    assigns [self.W] and [self.bias], which did not exist before the call;
    whatever the library calls and the training do afterwards, the two
    attributes are set when the call ends. *)
Theorem fastmf_fit_allocates_before_any_check model GloVeModel forward backward cW cb xW
        cpu rnd samples r c num_iterations num_threads verbose k lr alpha x_max wd :
  let self := Fastmf.GloVe.init k lr alpha x_max wd in
  let result := Fastmf.GloVe_fit model GloVeModel forward backward cW cb xW cpu rnd samples
                  (ndarray [r; c]) num_iterations num_threads verbose self in
  Fastmf.GloVe.W self = None /\ Fastmf.GloVe.bias self = None /\
  (exists a, Fastmf.GloVe.W result.1 = Some a) /\
  (exists b, Fastmf.GloVe.bias result.1 = Some b) /\
  (Fastmf.allocate rnd (ndarray [r; c]) self).2
  = Ok (Fastmf.initial_matrix rnd 0 r k, Fastmf.initial_vector rnd 1 r k,
        Fastmf.initial_matrix rnd 2 c k, Fastmf.initial_vector rnd 3 r k).
Proof.
  intros self result. split; [reflexivity|]. split; [reflexivity|].
  split; [|split; [|reflexivity]]; subst result; unfold Fastmf.GloVe_fit;
    unfold pbind at 1; cbn [Fastmf.allocate];
    change (Fastmf.allocate rnd (ndarray [r; c]) self) with
      (Fastmf.GloVe.set_bias (Fastmf.initial_vector rnd 1 r k)
         (Fastmf.GloVe.set_W (Fastmf.initial_matrix rnd 0 r k) self),
       @Ok (list (list R) * list R * list (list R) * list R)
         (Fastmf.initial_matrix rnd 0 r k, Fastmf.initial_vector rnd 1 r k,
          Fastmf.initial_matrix rnd 2 c k, Fastmf.initial_vector rnd 3 r k));
    cbv beta iota; unfold pbind at 1, lift at 1;
    destruct (samples (ndarray [r; c])) as [smp| |]; try (cbn; eauto; fail);
    unfold pbind at 1; cbn [fst snd];
    destruct (Fastmf.fit_glove _ _ _ _ _ _ _ _ _ _ _ _ _ _ _ _ _ _) as [md [[]| |]];
    cbn [fst snd]; try (cbn; eauto; fail);
    unfold Fastmf.average, pbind, lift, modify;
    destruct (add _ _); cbn; eauto.
Qed.

(** ** C2: the negative samples *)

(** C2, as amended.  When every training user has an entry different from 1
    in its row, the precomputation returns, for every sample and every
    planned epoch, the candidate selected by the number the generator drew,
    reduced modulo the number of candidates; the candidates of a row are its
    positions [j] with [X[u, j] <> 1], each listed once, so a uniform draw
    of the position is a uniform draw from that set; for a row with entries
    0 and 1 only they are exactly the zero entries. *)
Theorem negatives_drawn_from_entries_other_than_one
        rand call0 users (X : list (list R)) iterations (negs0 : list (list nat)) :
  (0 <= iterations)%Z -> length negs0 = length users ->
  Forall (fun u => (u < length X)%nat) users ->
  (forall u Xu, u ∈ users -> X !! u = Some Xu -> exists x, x ∈ Xu /\ x <> 1) ->
  exists negs,
    Bpr.sample_negatives rand call0 users X iterations negs0 = Ok negs /\
    length negs = length users /\
    forall l u Xu, users !! l = Some u -> X !! u = Some Xu ->
      NoDup (Bpr.negative_candidates Xu) /\
      (forall j, j ∈ Bpr.negative_candidates Xu <-> exists x, Xu !! j = Some x /\ x <> 1) /\
      (Forall (fun x => x = 0 \/ x = 1) Xu ->
       forall j, j ∈ Bpr.negative_candidates Xu <-> Xu !! j = Some 0) /\
      exists samples, negs !! l = Some samples /\
        length samples = Z.to_nat iterations /\
        forall t, (t < Z.to_nat iterations)%nat ->
          samples !! t =
          Bpr.negative_candidates Xu
            !! (rand (call0 + l)%nat t `mod` length (Bpr.negative_candidates Xu))%nat.
Proof. apply sample_negatives_spec. Qed.

Lemma negatives_drawn_witness :
  exists negs,
    Bpr.sample_negatives (fun _ _ => 0%nat) 0 [0%nat] [[1; 0]] 1 [[0%nat]] = Ok negs /\
    length negs = 1%nat.
Proof.
  destruct (negatives_drawn_from_entries_other_than_one
              (fun _ _ => 0%nat) 0 [0%nat] [[1; 0]] 1 [[0%nat]]) as (negs & E & Hl & _).
  - lia.
  - reflexivity.
  - repeat constructor.
  - intros u Xu Hu HX. apply list_elem_of_singleton in Hu. subst u.
    injection HX as <-. exists 0. split; [set_solver|lra].
  - exists negs. split; [exact E|exact Hl].
Defined.

(** C2, counterexample.  In the row [2, 0, 1] the user has interacted with
    item 0, whose entry is 2; item 0 is a candidate, and it is the negative
    drawn when the generator selects the first candidate. *)
Lemma negative_sample_of_interacted_item :
  Bpr.sample_negatives (fun _ _ => 0%nat) 0 [0%nat] [[2; 0; 1]] 1 [[0%nat]] = Ok [[0%nat]] /\
  cell [[2; 0; 1]] 0 0 <> 0.
Proof.
  split.
  - unfold Bpr.sample_negatives, for_range. simpl.
    unfold Bpr.random_choice, Bpr.negative_candidates, sub_scalar, nonzero. simpl.
    destruct (Req_dec_T (2 - 1) 0) as [E|_]; [lra|].
    destruct (Req_dec_T (0 - 1) 0) as [E|_]; [lra|].
    destruct (Req_dec_T (1 - 1) 0) as [_|E]; [|lra].
    reflexivity.
  - unfold cell. simpl. lra.
Qed.

(** ** C3: the update rule of [BprAdamUpdater] *)

(** C3.  The updater starts with all four accumulators at zero and with
    [beta1 = 0.9], [beta2 = 0.999], [epsilon = 1e-8].  After any number of
    calls of [loss], a call with [update = true] and indices inside the
    arrays returns, and for every coordinate [k] it has applied
    [M = beta1*M + (1-beta1)*g], [V = beta2*V + (1-beta2)*g^2],
    [param -= alpha * (M/(1-beta1)) / (sqrt(V/(1-beta2)) + epsilon)] to
    [W[u, k]] and, when [i <> j], to [H[i, k]] and [H[j, k]].  The
    denominators are the constants [1 - 0.9] and [1 - 0.999] at every call;
    they differ from [1 - beta^t] for every [t >= 2]. *)
Theorem adam_update_constant_denominators n m K W0 H0 lr wd st u i j :
  rect n K W0 -> rect m K H0 ->
  reachable (U.init W0 H0 lr wd) st ->
  (u < n)%nat -> (i < m)%nat -> (j < m)%nat ->
  (U.M_W (U.init W0 H0 lr wd) = zeros2 n K /\ U.V_W (U.init W0 H0 lr wd) = zeros2 n K /\
   U.M_H (U.init W0 H0 lr wd) = zeros2 m K /\ U.V_H (U.init W0 H0 lr wd) = zeros2 m K) /\
  (U.alpha st = lr /\ U.beta1 st = 0.9 /\ U.beta2 st = 0.999 /\ U.epsilon st = 1e-8) /\
  (forall t : nat, (2 <= t)%nat ->
     1 - U.beta1 st <> 1 - U.beta1 st ^ t /\ 1 - U.beta2 st <> 1 - U.beta2 st ^ t) /\
  exists st' l,
    U.loss st u i j true = Ok (st', l) /\
    forall k, (k < K)%nat ->
      let x := 1 / (1 + exp (bpr_score st u i j)) in
      adam_like_update lr 0.9 0.999 1e-8 (grad_wuk x u i j k st)
        (cell (U.W st) u k) (cell (U.M_W st) u k) (cell (U.V_W st) u k)
        (cell (U.W st') u k) (cell (U.M_W st') u k) (cell (U.V_W st') u k) /\
      (i <> j ->
       adam_like_update lr 0.9 0.999 1e-8 (grad_hik x u i j k st)
         (cell (U.H st) i k) (cell (U.M_H st) i k) (cell (U.V_H st) i k)
         (cell (U.H st') i k) (cell (U.M_H st') i k) (cell (U.V_H st') i k) /\
       adam_like_update lr 0.9 0.999 1e-8 (grad_hjk x u i j k st)
         (cell (U.H st) j k) (cell (U.M_H st) j k) (cell (U.V_H st) j k)
         (cell (U.H st') j k) (cell (U.M_H st') j k) (cell (U.V_H st') j k)).
Proof.
  intros HW HH Hr Hu Hi Hj.
  destruct (reachable_inv n m K _ st (init_wf n m K W0 H0 lr wd HW HH) Hr)
    as [Hwf (Ha & Hb1 & Hb2 & He & Hwd)].
  cbn in Ha, Hb1, Hb2, He, Hwd.
  split.
  { cbn. destruct (rect_zeros2 _ _ _ HW) as [-> _], (rect_zeros2 _ _ _ HH) as [-> _]. auto. }
  split; [auto|].
  split.
  { intros t Ht. rewrite Hb1, Hb2.
    pose proof (pow_lt_self 0.9 t ltac:(lra) Ht).
    pose proof (pow_lt_self 0.999 t ltac:(lra) Ht). split; lra. }
  pose proof Hwf as (HWs & _ & _ & HHs & _).
  destruct (update_loop n m K (1 / (1 + exp (bpr_score st u i j))) u i j st K
              Hwf Hu Hi Hj (Nat.le_refl K)) as (st' & E & _ & _ & Hpost & _).
  exists st', (bpr_loss st u i j). split.
  - unfold U.loss. rewrite (forward_full n m K) by assumption. cbn.
    rewrite (rect_shape1 _ _ _ _ HWs Hu). fold (bpr_score st u i j). rewrite E. reflexivity.
  - intros k Hk. specialize (Hpost k Hk). unfold coord_post in Hpost.
    rewrite Ha, Hb1, Hb2, He in Hpost. exact Hpost.
Qed.

Lemma adam_update_witness :
  exists st' l,
    U.loss (U.init [[1]] [[1]; [0]] 0.01 0.01) 0 0 1 true = Ok (st', l).
Proof.
  destruct (adam_update_constant_denominators 1 2 1 [[1]] [[1]; [0]] 0.01 0.01
              (U.init [[1]] [[1]; [0]] 0.01 0.01) 0 0 1) as (_ & _ & _ & st' & l & E & _).
  - split; [reflexivity|repeat constructor].
  - split; [reflexivity|repeat constructor].
  - apply reach_init.
  - lia.
  - lia.
  - lia.
  - exists st', l. exact E.
Defined.

(** ** C4: the loss without update *)

(** C4.  On an updater whose arrays [W] and [H] have the same number of
    columns, and for indices inside the arrays, [loss] with [update = false]
    returns [-log(1 / (1 + e^(-x)))
    + weight_decay * (|W[u]|^2 + |H[i]|^2 + |H[j]|^2)] for
    [x = dot(W[u], H[i] - H[j])], the logistic function written out, and
    the updater it was called on: [W], [H] and the four accumulators are
    unchanged. *)
Theorem loss_without_update n m K st u i j :
  rect n K (U.W st) -> rect m K (U.H st) ->
  (u < n)%nat -> (i < m)%nat -> (j < m)%nat ->
  U.loss st u i j false
  = Ok (st,
        - ln (1 / (1 + exp (- dot (row (U.W st) u) (vsub (row (U.H st) i) (row (U.H st) j)))))
        + U.weight_decay st
          * (norm2 (row (U.W st) u) + norm2 (row (U.H st) i) + norm2 (row (U.H st) j))) /\
  U.call_loss u i j false st = (st, Ok (bpr_loss st u i j)).
Proof. apply loss_without_update_eq. Qed.

Lemma loss_without_update_witness :
  U.loss (U.init [[1]] [[1]; [0]] 0.01 0.01) 0 0 1 false
  = Ok (U.init [[1]] [[1]; [0]] 0.01 0.01,
        - ln (1 / (1 + exp (- dot [1] (vsub [1] [0])))) + 0.01 * (norm2 [1] + norm2 [1] + norm2
            [0])).
Proof.
  apply (loss_without_update 1 2 1 (U.init [[1]] [[1]; [0]] 0.01 0.01) 0 0 1).
  - split; [reflexivity|repeat constructor].
  - split; [reflexivity|repeat constructor].
  - lia.
  - lia.
  - lia.
Defined.

(** ** C5: an input without samples *)

(** C5, as amended.  Without training samples the loop over the samples
    does nothing and the accumulated loss is 0; the mean is then computed
    by a division by the number of samples that no test guards, so the
    first epoch ends in a [ZeroDivisionError] and no loss is reported, in
    [fit_bpr] and in both versions of [fit_glove]. *)
Theorem zero_samples_epoch_divides_by_zero :
  (forall positives negatives iteration (loss : list R) st,
     pfor_range 0 (Bpr.sample_loss [] positives negatives iteration true) loss st
     = (st, Ok loss)) /\
  (forall (loss : list R) (mt : gmap string R),
     Bpr.accumulate "loss" 0 loss (<["loss" := 0]> mt) = Ok (<["loss" := 0]> mt) /\
     (<["loss" := 0]> mt) !! "loss" = Some 0) /\
  (forall argsort positives negatives valid X_test iteration s st,
     Bpr.epoch argsort [] positives negatives valid X_test iteration s st
     = (st, Raise ZeroDivisionError)) /\
  (forall argsort rand positives X X_test W H iterations lr wd nt verbose,
     (0 < iterations)%Z ->
     Bpr.fit_bpr argsort rand [] positives X None X_test W H iterations lr wd nt verbose
     = (U.init W H lr wd, Raise ZeroDivisionError)) /\
  (forall model GloVeModel forward backward context_words counts cW cb xW xb
          iterations lr x_max alpha wd nt verbose,
     (0 < iterations)%Z ->
     Fastmf.fit_glove model GloVeModel forward backward [] context_words counts cW cb xW xb
       iterations lr x_max alpha wd nt verbose
     = (GloVeModel cW xW cb xb x_max alpha lr nt, Raise ZeroDivisionError)) /\
  (forall model GloVeModel forward backward context_words counts cW cb xW xb
          num_epochs lr x_max alpha nt verbose,
     (0 < num_epochs)%Z ->
     Cymf._fit_glove model GloVeModel forward backward [] context_words counts cW cb xW xb
       num_epochs lr x_max alpha nt verbose
     = (GloVeModel cW xW cb xb x_max alpha lr nt, Raise ZeroDivisionError)).
Proof.
  split; [reflexivity|].
  split; [intros loss mt; split; [reflexivity|apply lookup_insert_eq]|].
  split; [intros; apply epoch_no_samples|].
  split; [intros; by apply fit_bpr_no_samples|].
  split; [intros; by apply fastmf_fit_glove_no_samples|].
  intros; by apply cymf_fit_glove_no_samples.
Qed.

Lemma zero_samples_witness :
  Bpr.fit_bpr stable_argsort (fun _ _ => 0%nat) [] [] [[0; 0]] None None [[1]] [[1]; [1]] 2
      0.01 0.01 1 false
  = (U.init [[1]] [[1]; [1]] 0.01 0.01, Raise ZeroDivisionError).
Proof.
  apply (proj1 (proj2 (proj2 (proj2 zero_samples_epoch_divides_by_zero)))). lia.
Defined.

(** C5, counterexample.  One epoch on a matrix without nonzero entry: the
    call does not report a loss, it ends in a [ZeroDivisionError]. *)
Lemma zero_samples_no_loss_reported :
  Bpr.fit_bpr stable_argsort (fun _ _ => 0%nat) [] [] [[0]] None None [[0]] [[0]] 1 0.01 0.01 1
      false
  = (U.init [[0]] [[0]] 0.01 0.01, Raise ZeroDivisionError) /\
  ~ (exists st history,
       Bpr.fit_bpr stable_argsort (fun _ _ => 0%nat) [] [] [[0]] None None [[0]] [[0]] 1 0.01
           0.01 1 false
       = (st, Ok history)).
Proof.
  assert (E : Bpr.fit_bpr stable_argsort (fun _ _ => 0%nat) [] [] [[0]] None None [[0]] [[0]] 1
      0.01 0.01 1 false
              = (U.init [[0]] [[0]] 0.01 0.01, Raise ZeroDivisionError))
    by (apply fit_bpr_no_samples; lia).
  split; [exact E|]. intros (st & history & E'). rewrite E in E'. discriminate.
Qed.

(** ** C6: the number of worker threads *)

(** C6, as amended.  [GloVe.fit] of [cymf] resolves a non-positive
    [num_threads] to the core count and uses a positive one as given.
    [GloVe.fit] of [fastmf] and [BPR.fit] take the minimum of [num_threads]
    and the core count: a positive value is used as given up to the core
    count and is replaced by the core count above it. *)
Theorem num_threads_resolution (cores num_threads : Z) :
  ((num_threads <= 0)%Z -> Cymf.resolve_num_threads cores num_threads = cores) /\
  ((0 < num_threads)%Z -> Cymf.resolve_num_threads cores num_threads = num_threads) /\
  ((0 < num_threads <= cores)%Z ->
   Fastmf.resolve_num_threads cores num_threads = num_threads /\
   Bpr.BPR.resolve_num_threads cores num_threads = num_threads) /\
  ((0 < num_threads)%Z -> (cores < num_threads)%Z ->
   Fastmf.resolve_num_threads cores num_threads = cores /\
   Bpr.BPR.resolve_num_threads cores num_threads = cores).
Proof.
  unfold Cymf.resolve_num_threads, Fastmf.resolve_num_threads, Bpr.BPR.resolve_num_threads.
  repeat split; intros; try (destruct (Z.ltb_spec 0 num_threads)); lia.
Qed.

Lemma num_threads_resolution_witness :
  Cymf.resolve_num_threads 8 0 = 8%Z /\ Cymf.resolve_num_threads 8 3 = 3%Z /\
  Fastmf.resolve_num_threads 8 3 = 3%Z /\ Bpr.BPR.resolve_num_threads 8 12 = 8%Z.
Proof.
  split; [apply (proj1 (num_threads_resolution 8 0)); lia|].
  split; [apply (proj1 (proj2 (num_threads_resolution 8 3))); lia|].
  split; [apply (proj1 (proj2 (proj2 (num_threads_resolution 8 3)))); lia|].
  apply (proj2 (proj2 (proj2 (num_threads_resolution 8 12)))); lia.
Defined.

(** C6, counterexample.  On a host with 8 cores, [fit] of [fastmf] and
    [BPR.fit] called with [num_threads = 16] run 8 workers, not 16. *)
Lemma num_threads_capped_at_core_count :
  Fastmf.resolve_num_threads 8 16 = 8%Z /\ Fastmf.resolve_num_threads 8 16 <> 16%Z /\
  Bpr.BPR.resolve_num_threads 8 16 = 8%Z /\ Bpr.BPR.resolve_num_threads 8 16 <> 16%Z.
Proof. repeat split; discriminate. Qed.

(** ** C7: a user without a candidate *)

(** C7, as amended.  When at least one epoch is planned and some training
    sample's user row has no position [j] with [X[u, j] <> 1], which is when
    the sampler has no candidate, the precomputation of the negatives ends in a
    [ValueError] and so does [fit_bpr], with the arrays [W] and [H] as they
    were passed: no sample has been trained on. *)
Theorem fit_bpr_halts_without_candidate argsort
        rand users positives (X : list (list R)) valid X_test W H
        iterations lr wd nt verbose :
  (0 < iterations)%Z ->
  Forall (fun u => (u < length X)%nat) users ->
  (exists l u Xu, users !! l = Some u /\ X !! u = Some Xu /\
     Forall (fun x => x = 1) Xu) ->
  Bpr.sample_negatives rand 0 users X iterations
    (replicate (length users) (replicate (Z.to_nat iterations) 0%nat))
  = Raise ValueError /\
  Bpr.fit_bpr argsort rand users positives X valid X_test W H iterations lr wd nt verbose
  = (U.init W H lr wd, Raise ValueError).
Proof.
  intros Hit HF (l & u & Xu & Hu & HXu & Hc).
  split.
  - apply sample_negatives_Raise; [done|by rewrite length_replicate|done|eauto 10].
  - apply fit_bpr_sampling_error; eauto 10.
Qed.

Lemma fit_bpr_halts_witness :
  Bpr.fit_bpr stable_argsort (fun _ _ => 0%nat) [0%nat] [0%nat] [[1]] None None [[0]] [[0]] 1
      0.01 0.01 1 false
  = (U.init [[0]] [[0]] 0.01 0.01, Raise ValueError).
Proof.
  apply (fit_bpr_halts_without_candidate stable_argsort (fun _ _ => 0%nat) [0%nat] [0%nat]
      [[1]] None None
           [[0]] [[0]] 1 0.01 0.01 1 false).
  - lia.
  - repeat constructor.
  - exists 0%nat, 0%nat, [1]. split; [reflexivity|]. split; [reflexivity|].
    repeat constructor.
Defined.

(** C7, counterexample.  The user of the row [2] has interacted with the
    only item, so no item is left that the user has not interacted with;
    the precomputation draws item 0 and [fit_bpr] trains and returns.  The
    user of the row [1] has no candidate, and with no epoch planned
    [fit_bpr] returns an empty history. *)
Lemma fit_bpr_does_not_halt :
  Bpr.sample_negatives (fun _ _ => 0%nat) 0 [0%nat] [[2]] 1 [[0%nat]] = Ok [[0%nat]] /\
  (exists st history,
     Bpr.fit_bpr stable_argsort (fun _ _ => 0%nat) [0%nat] [0%nat] [[2]] None None [[0]] [[0]]
       1 0.01 0.01 1 false = (st, Ok history)) /\
  Bpr.fit_bpr stable_argsort (fun _ _ => 0%nat) [0%nat] [0%nat] [[1]] None None [[0]] [[0]]
    0 0.01 0.01 1 false = (U.init [[0]] [[0]] 0.01 0.01, Ok []).
Proof.
  split; [|split].
  - unfold Bpr.sample_negatives, for_range. simpl.
    unfold Bpr.random_choice, Bpr.negative_candidates, sub_scalar, nonzero. simpl.
    destruct (Req_dec_T (2 - 1) 0) as [E|_]; [lra|]. reflexivity.
  - destruct (fit_bpr_returns stable_argsort (fun _ _ => 0%nat) 1 1 1 [0%nat] [0%nat] [[2]]
      [[0]] [[0]]
                1 0.01 0.01 1 false) as (st & history & E & _).
    + split; [reflexivity|repeat constructor].
    + split; [reflexivity|repeat constructor].
    + split; [reflexivity|repeat constructor].
    + discriminate.
    + reflexivity.
    + repeat constructor.
    + repeat constructor.
    + intros u Xu Hu HX. apply list_elem_of_singleton in Hu. subst u.
      injection HX as <-. exists 2. split; [set_solver|lra].
    + lia.
    + eauto.
  - unfold Bpr.fit_bpr. cbn.
    unfold Bpr.random_choice, Bpr.negative_candidates, sub_scalar, nonzero. simpl.
    destruct (Req_dec_T (1 - 1) 0) as [_|E]; [|lra]. reflexivity.
Qed.

(** ** C8: the top-K list of the evaluator *)

(** C8, as amended.  For every row of scores, and whatever order [argsort]
    gives to positions of equal value, the list of the evaluator has
    [min 10 n] positions of the row, each once; it is ordered by descending
    score; and every position left out has a score not greater than every
    position of the list.  The code asks for no stable sort: the order of
    two positions with equal scores is the reverse of the order [argsort]
    leaves them in, which numpy does not specify. *)
Theorem top10_descending_scores argsort (v : list R) :
  sorts argsort ->
  length (Bpr.top10 argsort v) = min 10 (length v) /\
  NoDup (Bpr.top10 argsort v) /\
  (forall a, a ∈ Bpr.top10 argsort v -> (a < length v)%nat) /\
  (forall p q a b, (p < q)%nat ->
     Bpr.top10 argsort v !! p = Some a -> Bpr.top10 argsort v !! q = Some b ->
     value_at v b <= value_at v a) /\
  (forall a b, a ∈ Bpr.top10 argsort v -> (b < length v)%nat -> b ∉ Bpr.top10 argsort v ->
     value_at v b <= value_at v a).
Proof.
  intros Hsort. unfold Bpr.top10.
  destruct (Hsort v) as [Hp Hs].
  apply StronglySorted_reverse in Hs.
  assert (Hrp : reverse (argsort v) ≡ₚ seq 0 (length v)) by (by rewrite reverse_Permutation).
  assert (Hlen : length (reverse (argsort v)) = length v).
  { rewrite Hrp. apply length_seq. }
  assert (Hnd : NoDup (reverse (argsort v))) by (rewrite Hrp; apply NoDup_seq).
  rewrite <- (take_drop 10 (reverse (argsort v))) in Hs, Hnd.
  apply StronglySorted_app in Hs as (Hcross & Hs1 & _).
  apply NoDup_app in Hnd as (Hnd1 & _ & _).
  split; [rewrite length_take; lia|]. split; [done|]. split.
  { intros a Ha. assert (Hin : a ∈ reverse (argsort v)).
    { rewrite <- (take_drop 10). apply elem_of_app. by left. }
    rewrite Hrp in Hin. apply elem_of_seq in Hin. lia. }
  split.
  { intros p q a b Hpq Ha Hb.
    exact (StronglySorted_lookup _ _ p q a b Hs1 Hpq Ha Hb). }
  intros a b Ha Hb Hnb.
  assert (Hin : b ∈ reverse (argsort v)).
  { rewrite Hrp. apply elem_of_seq. lia. }
  rewrite <- (take_drop 10), elem_of_app in Hin. destruct Hin as [?|Hin]; [done|].
  exact (Hcross a b Ha Hin).
Qed.

Lemma top10_witness :
  length (Bpr.top10 stable_argsort [3; 1; 2]) = 3%nat /\
  NoDup (Bpr.top10 stable_argsort [3; 1; 2]).
Proof.
  destruct (top10_descending_scores stable_argsort [3; 1; 2] stable_argsort_sorts)
    as (Hl & Hnd & _).
  split; [exact Hl|exact Hnd].
Defined.

(** C8, counterexample.  On two equal scores the list is [1, 0] when
    [argsort] keeps equal values in index order, as a stable sort does, and
    [0, 1] when it leaves them in the opposite order: both functions sort,
    so the code does not fix the order of a tie, and in the first list the
    tie is not broken by ascending index. *)
Lemma top10_ties_counterexample :
  sorts stable_argsort /\ sorts reversing_argsort /\
  Bpr.top10 stable_argsort [1; 1] = [1%nat; 0%nat] /\
  Bpr.top10 reversing_argsort [1; 1] = [0%nat; 1%nat] /\
  ~ ties_by_ascending_index [1; 1] (Bpr.top10 stable_argsort [1; 1]).
Proof.
  assert (E : Bpr.top10 stable_argsort [1; 1] = [1%nat; 0%nat]).
  { unfold Bpr.top10, stable_argsort. simpl. unfold value_at. simpl.
    destruct (Rlt_dec 1 1) as [Hlt|_]; [lra|]. reflexivity. }
  assert (E' : Bpr.top10 reversing_argsort [1; 1] = [0%nat; 1%nat]).
  { unfold Bpr.top10, reversing_argsort. simpl. unfold value_at. simpl.
    destruct (Rle_dec 1 1) as [_|Hn]; [|lra]. reflexivity. }
  split; [exact stable_argsort_sorts|]. split; [exact reversing_argsort_sorts|].
  split; [exact E|]. split; [exact E'|]. rewrite E. intros Ht.
  specialize (Ht 0%nat 1%nat 1%nat 0%nat ltac:(lia) eq_refl eq_refl eq_refl). lia.
Qed.

(** ** C9: the loss buffer in the validation pass *)



(** ** C10: the shapes in [GloVe.fit] *)

(** C10, as amended.  For a matrix of shape [(r, c)] both versions of
    [GloVe.fit] allocate the central matrix with [r] rows, the context
    matrix with [c] rows and both bias vectors with [r] entries, so a
    context index [j] is inside the context bias vector exactly when
    [j < r].  The final step adds the central and the context matrix with
    numpy's broadcasting: it succeeds exactly when [r = c], [r = 1] or
    [c = 1], it is the elementwise sum when [r = c], and a call of [fit]
    that returns normally was made on such a shape. *)
Theorem glove_fit_shapes :
  (forall rnd cls r c self,
     exists self' W b _W _b,
       Fastmf.allocate rnd (spmatrix cls r c) self = (self', Ok (W, b, _W, _b)) /\
       rect r (Fastmf.GloVe.num_components self) W /\ length b = r /\
       rect c (Fastmf.GloVe.num_components self) _W /\ length _b = r) /\
  (forall rnd cls r c self,
     exists self' W b _W _b,
       Cymf.allocate rnd (spmatrix cls r c) self = (self', Ok (W, b, _W, _b)) /\
       rect r (Cymf.GloVe.num_components self) W /\ length b = r /\
       rect c (Cymf.GloVe.num_components self) _W /\ length _b = r) /\
  (forall (context_bias : list R) (j : nat),
     is_ok (get1 context_bias j) <-> (j < length context_bias)%nat) /\
  (forall A B : list (list R),
     is_ok (add A B) <-> (length A = length B \/ length A = 1%nat \/ length B = 1%nat)) /\
  (forall A B : list (list R),
     length A = length B -> add A B = Ok (zip_with (zip_with Rplus) A B)) /\
  (forall model GloVeModel forward backward cW cb xW cpu rnd samples
          cls r c num_iterations num_threads verbose self self',
     Fastmf.GloVe_fit model GloVeModel forward backward cW cb xW cpu rnd samples
       (spmatrix cls r c) num_iterations num_threads verbose self = (self', Ok tt) ->
     r = c \/ r = 1%nat \/ c = 1%nat) /\
  (forall model GloVeModel forward backward cW cb xW cpucount rnd samples
          cls r c num_epochs num_threads verbose self self',
     Cymf.GloVe_fit model GloVeModel forward backward cW cb xW cpucount rnd samples
       (spmatrix cls r c) num_epochs num_threads verbose self = (self', Ok tt) ->
     r = c \/ r = 1%nat \/ c = 1%nat).
Proof.
  split.
  { intros. rewrite fastmf_allocate_sparse. do 5 eexists. split; [reflexivity|].
    unfold Fastmf.initial_matrix, Fastmf.initial_vector.
    split; [apply rect_tabulate2|]. split; [apply length_tabulate1|].
    split; [apply rect_tabulate2|apply length_tabulate1]. }
  split.
  { intros. rewrite cymf_allocate_sparse. do 5 eexists. split; [reflexivity|].
    unfold Cymf.initial_matrix, Cymf.initial_vector.
    split; [apply rect_tabulate2|]. split; [apply length_tabulate1|].
    split; [apply rect_tabulate2|apply length_tabulate1]. }
  split; [intros; apply get1_is_ok|].
  split; [intros; apply add_is_ok|].
  split; [intros; by apply add_same_rows|].
  split; [intros; by eapply fastmf_fit_Ok_shape|intros; by eapply cymf_fit_Ok_shape].
Qed.

Lemma glove_fit_shapes_witness :
  add [[1; 2]; [3; 4]] [[5; 6]; [7; 8]] = Ok [[1 + 5; 2 + 6]; [3 + 7; 4 + 8]].
Proof.
  apply (proj1 (proj2 (proj2 (proj2 (proj2 glove_fit_shapes))))
           [[1; 2]; [3; 4]] [[5; 6]; [7; 8]]).
  reflexivity.
Defined.

(** C10, counterexample.  For a matrix of shape [(3, 1)] the central matrix
    has three rows and the context matrix one, every context index is
    inside the context bias vector, and the final step succeeds. *)
Lemma glove_fit_on_a_column_matrix :
  exists self' W b _W _b,
    Cymf.allocate (fun _ _ _ => 0) (spmatrix csr_matrix 3 1) (Cymf.GloVe.init 2 0.01 0.75 10)
    = (self', Ok (W, b, _W, _b)) /\
    length W = 3%nat /\ length _W = 1%nat /\
    is_ok (get1 _b 0) /\
    (exists self'', Cymf.average W _W self' = (self'', Ok tt)).
Proof.
  do 5 eexists. rewrite cymf_allocate_sparse. split; [reflexivity|].
  split; [reflexivity|]. split; [reflexivity|]. split; [exact I|].
  eexists. unfold Cymf.average, pbind, lift, modify. cbn. reflexivity.
Qed.

(** * Further properties of the updaters *)

(** X3.  [BprAdamUpdater.loss] on the sample [(u, i, j)] writes row [u]
    of [W], [M_W] and [V_W] and rows [i] and [j] of [H], [M_H] and [V_H]
    only: every other row of the six arrays is the same after the call. *)
Theorem adam_update_writes_three_rows n m K st u i j update st' l :
  wf n m K st -> U.loss st u i j update = Ok (st', l) ->
  (forall r, r <> u -> row_same_W r st st') /\
  (forall r, r <> i -> r <> j -> row_same_H r st st').
Proof. apply loss_rows. Qed.

Lemma adam_update_writes_witness :
  exists st' l,
    U.loss (U.init [[1]; [2]] [[1]; [0]; [3]] 0.01 0.01) 0 0 1 true = Ok (st', l) /\
    row_same_W 1 (U.init [[1]; [2]] [[1]; [0]; [3]] 0.01 0.01) st' /\
    row_same_H 2 (U.init [[1]; [2]] [[1]; [0]; [3]] 0.01 0.01) st'.
Proof.
  assert (Hwf : wf 2 3 1 (U.init [[1]; [2]] [[1]; [0]; [3]] 0.01 0.01)).
  { apply init_wf; (split; [reflexivity|repeat constructor]). }
  destruct (loss_with_update_Ok 2 3 1 _ 0 0 1 Hwf ltac:(lia) ltac:(lia) ltac:(lia))
    as (st' & E & _).
  eexists st', _. split; [exact E|].
  destruct (adam_update_writes_three_rows 2 3 1 _ 0 0 1 true st' _ Hwf E) as [HW HH].
  split; [apply HW; lia|apply HH; lia].
Defined.

(** X4.  [BprAdaGradUpdater.loss] with [update=False], on a sample inside
    the arrays, returns [-log(1 / (1 + e^(-x)))] for
    [x = W[u].(H[i] - H[j])] plus [weight_decay] times the three squared
    norms, and leaves the four arrays of the updater as they were. *)
Theorem adagrad_loss_without_update n m K st u i j :
  rect n K (G.W st) -> rect m K (G.H st) ->
  (u < n)%nat -> (i < m)%nat -> (j < m)%nat ->
  G.loss st u i j false
  = Ok (st,
        - ln (1 / (1 + exp (- dot (row (G.W st) u) (vsub (row (G.H st) i) (row (G.H st) j)))))
        + G.weight_decay st
          * (norm2 (row (G.W st) u) + norm2 (row (G.H st) i) + norm2 (row (G.H st) j))).
Proof. apply adagrad_loss_without_update_eq. Qed.

Lemma adagrad_loss_without_update_witness :
  G.loss (G.init [[1]] [[1]; [0]] 0.01 0.01) 0 0 1 false
  = Ok (G.init [[1]] [[1]; [0]] 0.01 0.01,
        - ln (1 / (1 + exp (- dot [1] (vsub [1] [0])))) + 0.01 * (norm2 [1] + norm2 [1] + norm2
            [0])).
Proof.
  apply (adagrad_loss_without_update 1 2 1 (G.init [[1]] [[1]; [0]] 0.01 0.01) 0 0 1).
  - split; [reflexivity|repeat constructor].
  - split; [reflexivity|repeat constructor].
  - lia.
  - lia.
  - lia.
Defined.

(** X6.  [BprAdaGradUpdater.loss] with [update=True], in a state reached
    from [__init__] through calls of [loss] and on a sample inside the
    arrays: the call returns the loss of the parameters before the update,
    and coordinate [k] of [W[u]] (and of [H[i]] and [H[j]] when [i <> j])
    gets [accum += g^2] and [param -= learning_rate * g / sqrt(accum)],
    with the new accumulator under the root and the gradient [g] taken at
    the parameters before the call, for the factor
    [1 / (1 + e^x)], [x = W[u].(H[i] - H[j])]. *)
Theorem adagrad_update_rule n m K W0 H0 lr wd st u i j :
  rect n K W0 -> rect m K H0 -> adagrad_reachable (G.init W0 H0 lr wd) st ->
  (u < n)%nat -> (i < m)%nat -> (j < m)%nat ->
  exists st',
    G.loss st u i j true
    = Ok (st', bpr_loss_of (G.W st) (G.H st) (G.weight_decay st) u i j) /\
    forall k, (k < K)%nat ->
      adagrad_coord_post (adagrad_factor st u i j) u i j k st st'.
Proof.
  intros HW HH Hr Hu Hi Hj.
  destruct (adagrad_reachable_accum n m K W0 H0 lr wd st HW HH Hr) as (Hwf & _ & _).
  destruct (adagrad_loss_with_update_Ok n m K st u i j Hwf Hu Hi Hj)
    as (st' & E & _ & _ & _ & Hpost).
  exists st'. split; [exact E|exact Hpost].
Qed.

Lemma adagrad_update_witness :
  exists st1 l1 st2,
    G.loss (G.init [[1]] [[1]; [0]] 0.01 0.01) 0 0 1 true = Ok (st1, l1) /\
    G.loss st1 0 0 1 true
    = Ok (st2, bpr_loss_of (G.W st1) (G.H st1) (G.weight_decay st1) 0 0 1) /\
    adagrad_coord_post (adagrad_factor st1 0 0 1) 0 0 1 0 st1 st2.
Proof.
  assert (HW : rect 1 1 [[1]]) by (split; [reflexivity|repeat constructor]).
  assert (HH : rect 2 1 [[1]; [0]]) by (split; [reflexivity|repeat constructor]).
  destruct (adagrad_update_rule 1 2 1 [[1]] [[1]; [0]] 0.01 0.01
              (G.init [[1]] [[1]; [0]] 0.01 0.01) 0 0 1 HW HH
              (adagrad_reach_init _) ltac:(lia) ltac:(lia) ltac:(lia)) as (st1 & E1 & _).
  destruct (adagrad_update_rule 1 2 1 [[1]] [[1]; [0]] 0.01 0.01 st1 0 0 1 HW HH
              (adagrad_reach_call _ _ _ _ _ _ _ _ (adagrad_reach_init _) E1)
              ltac:(lia) ltac:(lia) ltac:(lia)) as (st2 & E2 & Hk).
  eexists st1, _, st2. split; [exact E1|]. split; [exact E2|]. apply Hk. lia.
Defined.

(** * Further properties of the evaluation *)

(** X7.  The list [evaluate] takes from a row of scores,
    [argsort()[::-1][:10]], holds different positions of the row, and 10 of
    them or all when the row has fewer than 10 entries, whatever order
    [argsort] gives to equal scores. *)
Theorem top10_distinct_positions argsort (scores_row : vector) :
  sorts argsort ->
  NoDup (Bpr.top10 argsort scores_row) /\
  Forall (fun a => (a < length scores_row)%nat) (Bpr.top10 argsort scores_row) /\
  length (Bpr.top10 argsort scores_row) = Nat.min 10 (length scores_row).
Proof. apply top10_spec. Qed.

Lemma top10_distinct_positions_witness :
  NoDup (Bpr.top10 reversing_argsort [1; 1; 3]) /\
  Forall (fun a => (a < 3)%nat) (Bpr.top10 reversing_argsort [1; 1; 3]) /\
  length (Bpr.top10 reversing_argsort [1; 1; 3]) = 3%nat.
Proof.
  exact (top10_distinct_positions reversing_argsort [1; 1; 3] reversing_argsort_sorts).
Defined.

(** X8.  [recall] on an array [X] of shape [(N, m)] and lists of [k]
    different positions below [m]: the call returns [N] numbers; entry [i]
    is 0 when row [i] of [X] sums to 0 and otherwise the sum of the [k]
    listed entries of the row divided by the sum of the row; when the
    entries of [X] are 0 or 1, every entry of the result lies between 0
    and 1. *)
Theorem recall_is_a_fraction N m k tops X :
  rect N m X -> top_lists N m k tops ->
  exists ret, Bpr.recall tops X k = Ok ret /\ length ret = N /\
    (forall i t Xi, tops !! i = Some t -> X !! i = Some Xi ->
       ret !! i = Some (recall_row t Xi k)) /\
    (cells (fun x => x = 0 \/ x = 1) X -> Forall (fun r => 0 <= r <= 1) ret).
Proof. apply recall_binary. Qed.

Lemma recall_witness :
  exists ret, Bpr.recall [[1%nat]] [[0; 1]] 1 = Ok ret /\ length ret = 1%nat /\
    (forall i t Xi, [[1%nat]] !! i = Some t -> [[0; 1]] !! i = Some Xi ->
       ret !! i = Some (recall_row t Xi 1)) /\
    Forall (fun r => 0 <= r <= 1) ret.
Proof.
  destruct (recall_is_a_fraction 1 2 1 [[1%nat]] [[0; 1]]) as (ret & E & Hl & Hrow & Hb).
  - split; [reflexivity|repeat constructor].
  - split; [reflexivity|]. constructor; [|constructor].
    split; [simpl; lia|]. split; [apply NoDup_singleton|]. repeat constructor.
  - exists ret. split; [exact E|]. split; [exact Hl|]. split; [exact Hrow|].
    apply Hb. constructor; [|constructor].
    constructor; [left; reflexivity|]. constructor; [right; reflexivity|constructor].
Defined.

(** X9.  [ap] on an array [X] of shape [(N, m)] and lists of [k]
    positions below [m] returns [N] numbers between 0 and 1, whatever the
    entries of [X] are. *)
Theorem ap_is_a_fraction N m k tops X :
  rect N m X -> top_lists N m k tops ->
  exists ret, Bpr.ap tops X k = Ok ret /\ length ret = N /\
    Forall (fun r => 0 <= r <= 1) ret.
Proof. apply ap_bounds. Qed.

Lemma ap_witness :
  exists ret, Bpr.ap [[1%nat]] [[0; 1]] 1 = Ok ret /\ length ret = 1%nat /\
    Forall (fun r => 0 <= r <= 1) ret.
Proof.
  apply (ap_is_a_fraction 1 2 1 [[1%nat]] [[0; 1]]).
  - split; [reflexivity|repeat constructor].
  - split; [reflexivity|]. constructor; [|constructor].
    split; [simpl; lia|]. split; [apply NoDup_singleton|]. repeat constructor.
Defined.

(** X10.  [evaluate] on factors for [n >= 1] users and [m >= 10] items
    and a test array of shape [(n, m)] returns the dictionary it was given
    with three entries set: ["Reacall@10"] (the key as the source spells
    it), ["nDCG@10"] and ["MAP@10"].  The MAP lies between 0 and 1; so do
    the recall and the nDCG when the entries of the test array are 0 or 1.
    Every other key, ["loss"] and ["Recall@10"] among them, keeps what it
    had. *)
Theorem evaluate_sets_three_metrics argsort n m K (W H X : matrix) (stores : Bpr.metrics) :
  sorts argsort ->
  rect n K W -> rect m K H -> rect n m X -> (0 < n)%nat -> (10 <= m)%nat ->
  exists res, Bpr.evaluate argsort W H X stores = Ok res /\
    (exists v, res !! "MAP@10" = Some v /\ 0 <= v <= 1) /\
    (cells (fun x => x = 0 \/ x = 1) X ->
     (exists v, res !! "Reacall@10" = Some v /\ 0 <= v <= 1) /\
     (exists v, res !! "nDCG@10" = Some v /\ 0 <= v <= 1)) /\
    is_Some (res !! "Reacall@10") /\ is_Some (res !! "nDCG@10") /\
    (forall key, key <> "Reacall@10" -> key <> "nDCG@10" -> key <> "MAP@10" ->
       res !! key = stores !! key) /\
    res !! "Recall@10" = stores !! "Recall@10".
Proof.
  intros Hsort HW HH HX Hn H10.
  destruct (evaluate_metrics argsort n m K W H X stores Hsort HW HH HX H10)
    as (r & nd & a & E & Hlr & Hlnd & Hla & Hba & Hbin).
  eexists. split; [exact E|].
  assert (Hne : forall v : vector, length v = n -> v <> []).
  { intros v Hl ->. simpl in Hl. lia. }
  split; [|split; [|split; [|split; [|split]]]].
  - exists (mean a). split; [apply lookup_insert_eq|]. apply mean_bounds; auto.
  - intros Hb. destruct (Hbin Hb) as [Hr Hnd]. split.
    + exists (mean r).
      split; [by rewrite !lookup_insert_ne, lookup_insert_eq by done|].
      apply mean_bounds; auto.
    + exists (mean nd).
      split; [by rewrite lookup_insert_ne, lookup_insert_eq by done|].
      apply mean_bounds; auto.
  - rewrite !lookup_insert_ne, lookup_insert_eq by done. eauto.
  - rewrite lookup_insert_ne, lookup_insert_eq by done. eauto.
  - intros key H1 H2 H3. by rewrite !lookup_insert_ne by done.
  - by rewrite !lookup_insert_ne by done.
Qed.

Lemma evaluate_witness :
  exists res,
    Bpr.evaluate stable_argsort [[1]] [[1]; [1]; [1]; [1]; [1]; [1]; [1]; [1]; [1]; [1]]
      [[0; 0; 0; 0; 0; 0; 0; 0; 0; 0]] ∅ = Ok res /\
    (exists v, res !! "MAP@10" = Some v /\ 0 <= v <= 1) /\
    res !! "Recall@10" = None.
Proof.
  destruct (evaluate_sets_three_metrics stable_argsort 1 10 1 [[1]]
              [[1]; [1]; [1]; [1]; [1]; [1]; [1]; [1]; [1]; [1]]
              [[0; 0; 0; 0; 0; 0; 0; 0; 0; 0]] ∅)
    as (res & E & Hmap & _ & _ & _ & _ & Hrec).
  - exact stable_argsort_sorts.
  - split; [reflexivity|repeat constructor].
  - split; [reflexivity|repeat constructor].
  - split; [reflexivity|repeat constructor].
  - lia.
  - lia.
  - exists res. split; [exact E|]. split; [exact Hmap|]. exact Hrec.
Defined.

(** X11.  [evaluate] with fewer than 10 items: the lists of positions
    have fewer than 10 entries, the metrics read 10, and with at least one
    user the call reads outside the lists, whatever the arrays hold. *)
Theorem evaluate_needs_ten_items argsort n m K (W H X : matrix) (stores : Bpr.metrics) :
  sorts argsort ->
  rect n K W -> rect m K H -> rect n m X -> (0 < n)%nat -> (m < 10)%nat ->
  Bpr.evaluate argsort W H X stores = Fault.
Proof. apply evaluate_few_items. Qed.

Lemma evaluate_needs_ten_items_witness :
  Bpr.evaluate stable_argsort [[1]] [[1]; [2]] [[0; 1]] ∅ = Fault.
Proof.
  apply (evaluate_needs_ten_items stable_argsort 1 2 1 [[1]] [[1]; [2]] [[0; 1]] ∅).
  - exact stable_argsort_sorts.
  - split; [reflexivity|repeat constructor].
  - split; [reflexivity|repeat constructor].
  - split; [reflexivity|repeat constructor].
  - lia.
  - lia.
Defined.

(** * Further properties of training *)

(** X12.  A validation pass that stays inside the arrays does not change
    the updater: whatever the samples are, when the pass returns or ends in
    an exception, the arrays [W], [H] and the moments are those of before
    the pass. *)
Theorem validation_pass_keeps_the_model
        users_valid positives_valid negatives_valid iteration s st :
  (Bpr.validation_pass users_valid positives_valid negatives_valid iteration s st).2
  <> Fault ->
  (Bpr.validation_pass users_valid positives_valid negatives_valid iteration s st).1 = st.
Proof. intros _. apply validation_pass_frame. Qed.

Lemma validation_pass_keeps_the_model_witness :
  (Bpr.validation_pass [0%nat] [0%nat] [[1%nat]] 0 ([0; 5], ∅)
     (U.init [[1]] [[1]; [0]] 0.01 0.01)).1
  = U.init [[1]] [[1]; [0]] 0.01 0.01.
Proof.
  apply (validation_pass_keeps_the_model [0%nat] [0%nat] [[1%nat]] 0 ([0; 5], ∅)
           (U.init [[1]] [[1]; [0]] 0.01 0.01)).
  destruct (validation_pass_mean 1 2 1 [0%nat] [0%nat] [[1%nat]] 0 [0; 5] ∅
              (U.init [[1]] [[1]; [0]] 0.01 0.01)) as (losses & E & _).
  - apply init_wf; (split; [reflexivity|repeat constructor]).
  - discriminate.
  - intros l Hl. assert (l = 0%nat) as -> by (simpl in Hl; lia).
    exists 0%nat, 0%nat, 1%nat. repeat split; lia.
  - simpl. lia.
  - rewrite E. discriminate.
Defined.

(** X13.  The validation pass on samples inside the arrays, at least one
    and no more than the training set has: it succeeds, sets ["val_loss"]
    to the mean of the losses of the validation samples under the current
    parameters, and overwrites that many entries at the start of the loss
    buffer. *)
Theorem validation_loss_is_the_mean n m K users_valid positives_valid negatives_valid
        iteration (loss : vector) (mt : Bpr.metrics) st :
  wf n m K st -> users_valid <> [] ->
  samples_in_range n m users_valid positives_valid negatives_valid iteration
    (length users_valid) ->
  (length users_valid <= length loss)%nat ->
  exists losses,
    Bpr.validation_pass users_valid positives_valid negatives_valid iteration (loss, mt) st
    = (st, Ok (losses ++ drop (length users_valid) loss, <["val_loss" := mean losses]> mt)) /\
    length losses = length users_valid /\
    forall l u i j, get1 users_valid l = Ok u -> get1 positives_valid l = Ok i ->
      get2 negatives_valid l iteration = Ok j -> losses !! l = Some (bpr_loss st u i j).
Proof. apply validation_pass_mean. Qed.

Lemma validation_loss_witness :
  exists losses,
    Bpr.validation_pass [0%nat] [0%nat] [[1%nat]] 0 ([0; 5], ∅)
      (U.init [[1]] [[1]; [0]] 0.01 0.01)
    = (U.init [[1]] [[1]; [0]] 0.01 0.01,
       Ok (losses ++ [5], <["val_loss" := mean losses]> ∅)) /\
    length losses = 1%nat.
Proof.
  destruct (validation_loss_is_the_mean 1 2 1 [0%nat] [0%nat] [[1%nat]] 0 [0; 5] ∅
              (U.init [[1]] [[1]; [0]] 0.01 0.01)) as (losses & E & Hl & _).
  - apply init_wf; (split; [reflexivity|repeat constructor]).
  - discriminate.
  - intros l Hl. assert (l = 0%nat) as -> by (simpl in Hl; lia).
    exists 0%nat, 0%nat, 1%nat. repeat split; lia.
  - simpl. lia.
  - exists losses. split; [exact E|exact Hl].
Defined.

(** X14.  [fit_bpr] without validation and test data, on at least one
    sample, with users and items inside [X], [W] and [H] and a candidate
    negative for every user: training runs to the end and returns one
    history entry per iteration, each with a ["loss"]; the factors keep
    their shapes. *)
Theorem fit_bpr_trains_to_the_end argsort rand n m K users positives (X : list (list R)) W H
        iterations lr wd nt verbose :
  rect n m X -> rect n K W -> rect m K H ->
  users <> [] -> length positives = length users ->
  Forall (fun u => (u < n)%nat) users -> Forall (fun i => (i < m)%nat) positives ->
  (forall u Xu, u ∈ users -> X !! u = Some Xu -> exists x, x ∈ Xu /\ x <> 1) ->
  (0 <= iterations)%Z ->
  exists st history,
    Bpr.fit_bpr argsort rand users positives X None None W H iterations lr wd nt verbose
    = (st, Ok history) /\
    length history = Z.to_nat iterations /\
    Forall reports_loss history /\
    rect n K (U.W st) /\ rect m K (U.H st).
Proof. apply fit_bpr_trains. Qed.

Lemma fit_bpr_trains_witness :
  exists st history,
    Bpr.fit_bpr stable_argsort (fun _ _ => 0%nat) [0%nat] [0%nat] [[1; 0]] None None
      [[1]] [[1]; [0]] 2 0.01 0.01 1 false = (st, Ok history) /\
    length history = 2%nat /\
    Forall reports_loss history.
Proof.
  destruct (fit_bpr_trains_to_the_end stable_argsort (fun _ _ => 0%nat) 1 2 1 [0%nat] [0%nat]
              [[1; 0]] [[1]] [[1]; [0]] 2 0.01 0.01 1 false)
    as (st & history & E & Hl & Hp & _).
  - split; [reflexivity|repeat constructor].
  - split; [reflexivity|repeat constructor].
  - split; [reflexivity|repeat constructor].
  - discriminate.
  - reflexivity.
  - repeat constructor.
  - repeat constructor.
  - intros u Xu Hu HX. apply list_elem_of_singleton in Hu. subst u.
    injection HX as <-. exists 0. split; [set_solver|lra].
  - lia.
  - exists st, history. split; [exact E|]. split; [exact Hl|exact Hp].
Defined.

(** X21.  [fit_bpr] with test data for fewer than 10 items, on input on
    which training without test data runs to the end, and with at least
    one iteration: the negatives are drawn, the training pass of the first
    epoch runs over all samples, and the call of [evaluate] on the factors
    that pass has produced reads outside the lists of positions.  The run
    reaches that access; the updater at that point is the one the first
    training pass produced. *)
Theorem fit_bpr_with_test_data_needs_ten_items
        argsort rand n m K users positives (X X_test : list (list R)) W H
        iterations lr wd nt verbose :
  sorts argsort ->
  rect n m X -> rect n K W -> rect m K H -> rect n m X_test ->
  users <> [] -> length positives = length users ->
  Forall (fun u => (u < n)%nat) users -> Forall (fun i => (i < m)%nat) positives ->
  (forall u Xu, u ∈ users -> X !! u = Some Xu -> exists x, x ∈ Xu /\ x <> 1) ->
  (0 < iterations)%Z -> (m < 10)%nat ->
  exists negatives st1 loss1,
    Bpr.sample_negatives rand 0 users X iterations
      (replicate (length users) (replicate (Z.to_nat iterations) 0%nat)) = Ok negatives /\
    pfor_range (length users) (Bpr.sample_loss users positives negatives 0 true)
      (zeros (length users)) (U.init W H lr wd)
    = (st1, Ok loss1) /\
    (forall stores, Bpr.evaluate argsort (U.W st1) (U.H st1) X_test stores = Fault) /\
    Bpr.fit_bpr argsort rand users positives X None (Some X_test) W H iterations lr wd nt verbose
    = (st1, Fault).
Proof. apply fit_bpr_test_few_items. Qed.

Lemma fit_bpr_with_test_data_witness :
  exists st1 loss1,
    pfor_range 1 (Bpr.sample_loss [0%nat] [0%nat] [[1%nat]] 0 true) [0]
      (U.init [[1]] [[1]; [0]] 0.01 0.01)
    = (st1, Ok loss1) /\
    Bpr.evaluate stable_argsort (U.W st1) (U.H st1) [[0; 1]] ∅ = Fault /\
    Bpr.fit_bpr stable_argsort (fun _ _ => 0%nat) [0%nat] [0%nat] [[1; 0]] None
      (Some [[0; 1]]) [[1]] [[1]; [0]] 1 0.01 0.01 1 false
    = (st1, Fault).
Proof.
  destruct (fit_bpr_with_test_data_needs_ten_items stable_argsort (fun _ _ => 0%nat) 1 2 1
              [0%nat] [0%nat] [[1; 0]] [[0; 1]] [[1]] [[1]; [0]] 1 0.01 0.01 1 false)
    as (negs & st1 & loss1 & En & Et & Hev & E).
  - exact stable_argsort_sorts.
  - split; [reflexivity|repeat constructor].
  - split; [reflexivity|repeat constructor].
  - split; [reflexivity|repeat constructor].
  - split; [reflexivity|repeat constructor].
  - discriminate.
  - reflexivity.
  - repeat constructor.
  - repeat constructor.
  - intros u Xu Hu HX. apply list_elem_of_singleton in Hu. subst u.
    injection HX as <-. exists 0. split; [set_solver|lra].
  - lia.
  - lia.
  - assert (Hn : negs = [[1%nat]]).
    { revert En. unfold Bpr.sample_negatives, for_range. simpl.
      unfold Bpr.random_choice, Bpr.negative_candidates, sub_scalar, nonzero. simpl.
      destruct (Req_dec_T (1 - 1) 0) as [_|Hn]; [|lra].
      destruct (Req_dec_T (0 - 1) 0) as [Hn|_]; [lra|].
      simpl. congruence. }
    subst negs. exists st1, loss1. split; [exact Et|]. split; [apply Hev|exact E].
Defined.

(** X22.  Validation data do not change training.  When [fit_bpr] with
    validation data returns, [fit_bpr] on the same arguments without them
    returns too, with the same updater (the same [W], [H] and moments) and
    a history that agrees, epoch by epoch, on every key but ["val_loss"]:
    the validation losses written into the shared loss buffer never reach
    the training loss. *)
Theorem validation_data_do_not_change_training argsort
        rand users positives X users_valid positives_valid X_valid
        X_test W H iterations lr wd nt verbose st history :
  Bpr.fit_bpr argsort rand users positives X (Some (users_valid, positives_valid, X_valid)) X_test
    W H iterations lr wd nt verbose = (st, Ok history) ->
  exists history2,
    Bpr.fit_bpr argsort rand users positives X None X_test W H iterations lr wd nt verbose
    = (st, Ok history2) /\
    Forall2 same_but_val_loss history history2.
Proof. apply fit_bpr_without_validation. Qed.

Lemma validation_data_witness :
  exists st history history2,
    Bpr.fit_bpr stable_argsort (fun _ _ => 0%nat) [0%nat] [0%nat] [[1; 0]]
      (Some ([0%nat], [0%nat], [[1; 0]])) None [[1]] [[1]; [0]] 2 0.01 0.01 1 false
    = (st, Ok history) /\
    Bpr.fit_bpr stable_argsort (fun _ _ => 0%nat) [0%nat] [0%nat] [[1; 0]] None None [[1]]
        [[1]; [0]]
      2 0.01 0.01 1 false = (st, Ok history2) /\
    Forall2 same_but_val_loss history history2.
Proof.
  destruct (fit_bpr_trains_valid stable_argsort (fun _ _ => 0%nat) 1 2 1 [0%nat] [0%nat] [[1; 0]]
              [0%nat] [0%nat] [[1; 0]] [[1]] [[1]; [0]] 2 0.01 0.01 1 false)
    as (st & history & E & _).
  - split; [reflexivity|repeat constructor].
  - split; [reflexivity|repeat constructor].
  - split; [reflexivity|repeat constructor].
  - discriminate.
  - reflexivity.
  - repeat constructor.
  - repeat constructor.
  - intros u Xu Hu HX. apply list_elem_of_singleton in Hu. subst u.
    injection HX as <-. exists 0. split; [set_solver|lra].
  - split; [reflexivity|repeat constructor].
  - discriminate.
  - reflexivity.
  - repeat constructor.
  - repeat constructor.
  - intros u Xu Hu HX. apply list_elem_of_singleton in Hu. subst u.
    injection HX as <-. exists 0. split; [set_solver|lra].
  - simpl. lia.
  - lia.
  - destruct (validation_data_do_not_change_training stable_argsort _ _ _ _ _ _ _ _ _ _ _ _ _ _
      _ _ _ E)
      as (history2 & E2 & Hh).
    exists st, history, history2. split; [exact E|]. split; [exact E2|exact Hh].
Defined.

(** X23.  [fit_bpr] with validation data, no more validation samples
    than training samples, at least one of each, all users and items inside
    the arrays and a candidate negative for every user of both sets:
    training runs to the end and returns one history entry per iteration,
    each with a ["loss"] and a ["val_loss"]; the factors keep their
    shapes. *)
Theorem fit_bpr_with_validation_trains_to_the_end
        argsort rand n m K users positives (X : list (list R))
        users_valid positives_valid (X_valid : list (list R)) W H
        iterations lr wd nt verbose :
  rect n m X -> rect n K W -> rect m K H ->
  users <> [] -> length positives = length users ->
  Forall (fun u => (u < n)%nat) users -> Forall (fun i => (i < m)%nat) positives ->
  (forall u Xu, u ∈ users -> X !! u = Some Xu -> exists x, x ∈ Xu /\ x <> 1) ->
  rect n m X_valid ->
  users_valid <> [] -> length positives_valid = length users_valid ->
  Forall (fun u => (u < n)%nat) users_valid ->
  Forall (fun i => (i < m)%nat) positives_valid ->
  (forall u Xu, u ∈ users_valid -> X_valid !! u = Some Xu -> exists x, x ∈ Xu /\ x <> 1) ->
  (length users_valid <= length users)%nat ->
  (0 <= iterations)%Z ->
  exists st history,
    Bpr.fit_bpr argsort rand users positives X (Some (users_valid, positives_valid, X_valid))
      None W H iterations lr wd nt verbose = (st, Ok history) /\
    length history = Z.to_nat iterations /\
    Forall reports_both_losses history /\
    rect n K (U.W st) /\ rect m K (U.H st).
Proof. apply fit_bpr_trains_valid. Qed.

Lemma fit_bpr_with_validation_witness :
  exists st history,
    Bpr.fit_bpr stable_argsort (fun _ _ => 0%nat) [0%nat; 0%nat] [0%nat; 0%nat] [[1; 0]]
      (Some ([0%nat], [0%nat], [[1; 0]])) None [[1]] [[1]; [0]] 3 0.01 0.01 1 false
    = (st, Ok history) /\
    length history = 3%nat /\ Forall reports_both_losses history.
Proof.
  destruct (fit_bpr_with_validation_trains_to_the_end stable_argsort (fun _ _ => 0%nat) 1 2 1
              [0%nat; 0%nat] [0%nat; 0%nat] [[1; 0]]
              [0%nat] [0%nat] [[1; 0]] [[1]] [[1]; [0]] 3 0.01 0.01 1 false)
    as (st & history & E & Hl & Hp & _).
  - split; [reflexivity|repeat constructor].
  - split; [reflexivity|repeat constructor].
  - split; [reflexivity|repeat constructor].
  - discriminate.
  - reflexivity.
  - repeat constructor.
  - repeat constructor.
  - intros u Xu Hu HX.
    assert (Hu0 : u = 0%nat).
    { apply elem_of_cons in Hu as [Hu|Hu]; [exact Hu|].
      by apply list_elem_of_singleton in Hu. }
    subst u. injection HX as <-. exists 0. split; [right; left|lra].
  - split; [reflexivity|repeat constructor].
  - discriminate.
  - reflexivity.
  - repeat constructor.
  - repeat constructor.
  - intros u Xu Hu HX. apply list_elem_of_singleton in Hu. subst u.
    injection HX as <-. exists 0. split; [set_solver|lra].
  - simpl. lia.
  - lia.
  - exists st, history. split; [exact E|]. split; [exact Hl|exact Hp].
Defined.

(** X25.  The number of iterations.  A negative [num_iterations] ends
    [fit_bpr] in a [ValueError] before anything is sampled or trained; with
    [num_iterations = 0] and users inside [X] it returns an empty history,
    candidates or not, and the updater holds [W] and [H] as passed.  Both
    versions of [fit_glove] accept any [num_iterations <= 0]: they return
    at once, with the model as it was built. *)
Theorem iteration_count_edge_cases :
  (forall argsort rand users positives X valid X_test W H iterations lr wd nt verbose,
     (iterations < 0)%Z ->
     Bpr.fit_bpr argsort rand users positives X valid X_test W H iterations lr wd nt verbose
     = (U.init W H lr wd, Raise ValueError)) /\
  (forall argsort rand users positives (X : list (list R)) X_test W H lr wd nt verbose,
     Forall (fun u => (u < length X)%nat) users ->
     Bpr.fit_bpr argsort rand users positives X None X_test W H 0 lr wd nt verbose
     = (U.init W H lr wd, Ok [])) /\
  (forall model GloVeModel forward backward central_words context_words counts
          cW cb xW xb iterations lr x_max alpha wd nt verbose,
     (iterations <= 0)%Z ->
     Fastmf.fit_glove model GloVeModel forward backward central_words context_words counts
       cW cb xW xb iterations lr x_max alpha wd nt verbose
     = (GloVeModel cW xW cb xb x_max alpha lr nt, Ok tt) /\
     Cymf._fit_glove model GloVeModel forward backward central_words context_words counts
       cW cb xW xb iterations lr x_max alpha nt verbose
     = (GloVeModel cW xW cb xb x_max alpha lr nt, Ok tt)).
Proof.
  split; [|split].
  - intros. by apply fit_bpr_negative_iterations.
  - intros. by apply fit_bpr_no_iterations.
  - intros. by apply fit_glove_no_iterations.
Qed.

Lemma iteration_count_witness :
  Bpr.fit_bpr stable_argsort (fun _ _ => 0%nat) [0%nat] [0%nat] [[1; 0]] None None [[1]] [[1]; [0]]
    (-1) 0.01 0.01 1 false
  = (U.init [[1]] [[1]; [0]] 0.01 0.01, Raise ValueError) /\
  Bpr.fit_bpr stable_argsort (fun _ _ => 0%nat) [0%nat] [0%nat] [[1; 1]] None None [[1]] [[1]; [0]]
    0 0.01 0.01 1 false
  = (U.init [[1]] [[1]; [0]] 0.01 0.01, Ok []).
Proof.
  split.
  - apply (proj1 iteration_count_edge_cases). lia.
  - apply (proj1 (proj2 iteration_count_edge_cases)). repeat constructor.
Defined.

(** X26.  [ndcg] on an array [X] of shape [(N, m)] with entries 0 or 1
    and lists of [k >= 1] different positions below [m]: the call returns
    [N] numbers; entry [i] is 0 when row [i] of [X] sums to 0 and otherwise
    the discounted gain of the listed entries, [X[i, top[0]]] plus
    [X[i, top[j]] / log2(j + 1)] for [1 <= j < k], divided by the
    normaliser [1 + sum of 1 / log2(j + 1)] for [1 <= j < min(row sum, k)];
    every entry lies between 0 and 1. *)
Theorem ndcg_is_a_fraction N m k tops X :
  rect N m X -> top_lists N m k tops -> (1 <= k)%nat ->
  cells (fun x => x = 0 \/ x = 1) X ->
  exists ret, Bpr.ndcg tops X k = Ok ret /\ length ret = N /\
    (forall i t Xi, tops !! i = Some t -> X !! i = Some Xi ->
       ret !! i = Some (ndcg_row t Xi k)) /\
    Forall (fun r => 0 <= r <= 1) ret.
Proof. apply ndcg_bounds. Qed.

Lemma ndcg_witness :
  exists ret, Bpr.ndcg [[1%nat; 0%nat]] [[0; 1]] 2 = Ok ret /\ length ret = 1%nat /\
    (forall i t Xi, [[1%nat; 0%nat]] !! i = Some t -> [[0; 1]] !! i = Some Xi ->
       ret !! i = Some (ndcg_row t Xi 2)) /\
    Forall (fun r => 0 <= r <= 1) ret.
Proof.
  apply (ndcg_is_a_fraction 1 2 2 [[1%nat; 0%nat]] [[0; 1]]).
  - split; [reflexivity|repeat constructor].
  - split; [reflexivity|]. constructor; [|constructor].
    split; [simpl; lia|]. split; [|repeat constructor].
    apply NoDup_cons. split; [|apply NoDup_singleton].
    intros Hin. apply list_elem_of_singleton in Hin. discriminate.
  - lia.
  - constructor; [|constructor].
    constructor; [left; reflexivity|]. constructor; [right; reflexivity|constructor].
Defined.

(** ** The properties of [read_text] *)

(** X15.  [read_text] counts the pieces between spaces of the text with
    every newline replaced by ["<eos>"], and then looks up, in that count,
    the pieces between spaces of every line.  The first word of a line that
    is not such a piece ends both versions of the function in a [KeyError]
    for that word. *)
Theorem read_text_key_error zeros_fits csr_matrix_fits raw min_count window_size w :
  first_missing (word_count raw) (concat (line_words raw)) = Some w ->
  RT.read_text zeros_fits csr_matrix_fits raw min_count window_size = RT.KeyError w /\
  RT.cymf_read_text raw min_count window_size = RT.KeyError w.
Proof.
  intros Hw. apply read_text_KeyError.
  pose proof (index_words_spec raw min_count) as Hs. by rewrite Hw in Hs.
Qed.

Lemma read_text_key_error_witness :
  RT.read_text (fun _ => true) (fun _ => true)
    (String.append "a b" (String RT.newline "c d")) 1 10 = RT.KeyError "b" /\
  RT.cymf_read_text (String.append "a b" (String RT.newline "c d")) 1 10 = RT.KeyError "b".
Proof.
  apply (read_text_key_error (fun _ => true) (fun _ => true)
           (String.append "a b" (String RT.newline "c d")) 1 10 "b").
  vm_compute. reflexivity.
Defined.

(** X16.  When the first part of [read_text] succeeds, the two
    dictionaries are inverse to each other, the keys of [i2w] are the
    numbers below [len(w2i)], the words of [w2i] are the words of the lines
    that the count gives at least [min_count] occurrences, and line [i] of
    [x] lists the indices of those words of line [i], in order and with
    repetitions. *)
Theorem read_text_vocabulary raw min_count v x :
  RT.index_words raw min_count = RT.Read (v, x) ->
  (forall w i, RT.w2i v !! w = Some i <-> RT.i2w v !! i = Some w) /\
  (forall i, is_Some (RT.i2w v !! i) <-> (i < size (RT.w2i v))%nat) /\
  (forall w, is_Some (RT.w2i v !! w) <->
     w ∈ concat (line_words raw) /\ frequent (word_count raw) min_count w = true) /\
  Forall2 (decodes (RT.w2i v)) x
    (map (filter (fun w => frequent (word_count raw) min_count w = true)) (line_words raw)) /\
  Forall (Forall (fun i => (i < size (RT.w2i v))%nat)) x.
Proof.
  intros E. pose proof (index_words_spec raw min_count) as Hs.
  destruct (first_missing _ _) as [w|]; [congruence|].
  destruct Hs as (v' & x' & E' & Hv & Hdom & Hd). rewrite E in E'. injection E' as <- <-.
  pose proof Hv as (Hinv & Hkeys & _).
  split; [exact Hinv|]. split; [exact Hkeys|]. split; [exact Hdom|]. split; [exact Hd|].
  by eapply indexed_lines_in_range.
Qed.

Lemma read_text_vocabulary_witness :
  exists v x, RT.index_words "a b a c b a" 2 = RT.Read (v, x) /\
    (forall w i, RT.w2i v !! w = Some i <-> RT.i2w v !! i = Some w) /\
    Forall (Forall (fun i => (i < size (RT.w2i v))%nat)) x.
Proof.
  destruct (index_words_one_line "a b a c b a" 2 eq_refl) as (v & x & E & _).
  exists v, x. split; [exact E|].
  destruct (read_text_vocabulary "a b a c b a" 2 v x E) as (Hinv & _ & _ & _ & Hx).
  split; [exact Hinv|exact Hx].
Defined.

(** X17.  A text of one line (no newline in it) is always read: both
    versions return a matrix and the dictionary [i2w], whose words are the
    pieces between spaces that occur at least [min_count] times. *)
Theorem read_text_one_line zeros_fits csr_matrix_fits raw min_count window_size :
  RT.split RT.newline raw = [raw] ->
  exists v indices,
    RT.index_words raw min_count = RT.Read (v, [indices]) /\
    (exists c, RT.read_text zeros_fits csr_matrix_fits raw min_count window_size
               = RT.Read (c, RT.i2w v)) /\
    (exists c, RT.cymf_read_text raw min_count window_size = RT.Read (c, RT.i2w v)) /\
    (forall w, is_Some (RT.w2i v !! w) <->
       w ∈ RT.split RT.space raw /\ frequent (word_count raw) min_count w = true) /\
    decodes (RT.w2i v) indices
      (filter (fun w => frequent (word_count raw) min_count w = true) (RT.split RT.space raw)).
Proof.
  intros Hone.
  destruct (index_words_one_line raw min_count Hone) as (v & x & E & _ & Hdom & indices & -> & Hd).
  exists v, indices. split; [exact E|].
  destruct (read_text_Read zeros_fits csr_matrix_fits raw min_count window_size v _ E)
    as [H1 H2].
  auto.
Qed.

Lemma read_text_one_line_witness :
  exists v indices,
    RT.index_words "a b a c b a" 2 = RT.Read (v, [indices]) /\
    (exists c, RT.read_text (fun _ => true) (fun _ => false) "a b a c b a" 2 10
               = RT.Read (c, RT.i2w v)).
Proof.
  destruct (read_text_one_line (fun _ => true) (fun _ => false) "a b a c b a" 2 10 eq_refl)
    as (v & indices & E & H1 & _).
  exists v, indices. split; [exact E|exact H1].
Defined.

(** X18.  A text that ends with a newline, in which no two spaces are
    adjacent and none starts or ends the text with newlines replaced (so
    that no piece between spaces is empty), is never read: the last line
    is empty, its only word is the empty string, and the empty string has
    no count, so both versions end in a [KeyError], for a word of a line
    that is no piece of the replaced text. *)
Theorem read_text_trailing_newline zeros_fits csr_matrix_fits s min_count window_size :
  EmptyString ∉ RT.split RT.space
                  (RT.replace_newlines (String.append s (String RT.newline EmptyString))) ->
  exists key,
    RT.read_text zeros_fits csr_matrix_fits
      (String.append s (String RT.newline EmptyString)) min_count window_size
    = RT.KeyError key /\
    RT.cymf_read_text (String.append s (String RT.newline EmptyString)) min_count window_size
    = RT.KeyError key /\
    key ∈ concat (line_words (String.append s (String RT.newline EmptyString))).
Proof.
  intros Hno.
  destruct (index_words_trailing_newline s min_count Hno) as (key & E & Hin & _).
  exists key.
  destruct (read_text_KeyError zeros_fits csr_matrix_fits _ min_count window_size key E)
    as [E1 E2].
  auto.
Qed.

Lemma read_text_trailing_newline_witness :
  exists key,
    RT.read_text (fun _ => true) (fun _ => true)
      (String.append "a b a" (String RT.newline EmptyString)) 1 10 = RT.KeyError key /\
    RT.cymf_read_text (String.append "a b a" (String RT.newline EmptyString)) 1 10
    = RT.KeyError key.
Proof.
  destruct (read_text_trailing_newline (fun _ => true) (fun _ => true) "a b a" 1 10)
    as (key & E1 & E2 & _).
  - vm_compute. intros H. repeat (apply elem_of_cons in H as [H|H]; [discriminate H|]).
    by apply elem_of_nil in H.
  - exists key. split; [exact E1|exact E2].
Defined.

(** X19.  When the first part succeeds with the indexed lines [x], for a
    window size, a vocabulary and lines below [2^31]: both versions return
    a square matrix of the size of the vocabulary whose entry [(a, b)] is
    the sum of [1 / (j - k)] over the positions [k < j] of a line, at most
    [window_size] apart, with the word [a] at [j] and the word [b] at [k].
    The matrix is the same whether the array of the [try] block is built
    or the handler of [MemoryError] runs. *)
Theorem read_text_counts_left_contexts
        zeros_fits csr_matrix_fits raw min_count window_size v x :
  RT.index_words raw min_count = RT.Read (v, x) ->
  (0 <= window_size < 2 ^ 31)%Z -> (Z.of_nat (size (RT.w2i v)) < 2 ^ 31)%Z ->
  Forall (fun line => (Z.of_nat (length line) < 2 ^ 31)%Z) x ->
  (exists c, RT.read_text zeros_fits csr_matrix_fits raw min_count window_size
             = RT.Read (c, RT.i2w v) /\
     square_of (size (RT.w2i v)) c /\
     forall a b, entry c a b = cooccurrence (Z.to_nat window_size) x a b) /\
  (exists c, RT.cymf_read_text raw min_count window_size = RT.Read (c, RT.i2w v) /\
     square_of (size (RT.w2i v)) c /\
     forall a b, entry c a b = cooccurrence (Z.to_nat window_size) x a b).
Proof. apply read_text_counts. Qed.

(** X20.  [read_text] is compiled without bounds checks; it never reads
    or writes outside an array, whatever the text and the arguments are. *)
Theorem read_text_stays_in_bounds zeros_fits csr_matrix_fits raw min_count window_size :
  RT.read_text zeros_fits csr_matrix_fits raw min_count window_size <> RT.OutOfBounds /\
  RT.cymf_read_text raw min_count window_size <> RT.OutOfBounds.
Proof. apply read_text_in_bounds. Qed.

Lemma read_text_counts_witness :
  exists c,
    RT.read_text (fun _ => true) (fun _ => false) "a b a" 1 10
    = RT.Read (c, <[1%nat := "b"]> (<[0%nat := "a"]> ∅)) /\
    forall a b, entry c a b = cooccurrence 10 [[0; 1; 0]%nat] a b.
Proof.
  destruct (read_text_counts_left_contexts (fun _ => true) (fun _ => false) "a b a" 1 10
              (RT.mk_vocabulary (<["b" := 1%nat]> (<["a" := 0%nat]> ∅))
                 (<[1%nat := "b"]> (<[0%nat := "a"]> ∅)) [0; 1; 0]%nat)
              [[0; 1; 0]%nat]) as [(c & E & _ & Hc) _].
  - vm_compute. reflexivity.
  - lia.
  - vm_compute. reflexivity.
  - repeat constructor.
  - exists c. split; [exact E|exact Hc].
Defined.
